(** * mcp_cyberchef: recipe validation, enum normalisation and search

    A shallow embedding of [mcp_cyberchef_service.py] and
    [data_models/cyberchef_pydantic_models.py], with the properties of the
    service's specification stated and settled over it.

    Conventions of the embedding.
    - Python [str] is [string]: the UTF-8 bytes of the text.  A character
      is a byte below 128, or a byte from 128 on with the continuation bytes
      that follow it; [len], slices, [strip], [split] and the loop over a
      string work on characters.  The classes of the ASCII characters and
      the white space of Unicode are written out; [isalnum] and [lower] of
      the characters beyond ASCII are a parameter, [Unicode].
    - Python [dict] is an association list with distinct keys, in insertion
      order; [set] is [gset].
    - A Python float is the rational it denotes; the rounding of an
      arithmetic operation to the nearest float is a parameter, [Float64].
    - The static catalog file [utils/js/operations.json] is a parameter:
      [CYBERCHEF_OPERATIONS], a typed view of its entries.
    - The third-party packages (rapidfuzz, requests) are interfaces: type
      classes whose fields are the functions the service calls. *)

From Stdlib Require Import QArith Qround Ascii.
From stdpp Require Import base option list strings gmap sorting pretty.

Set Warnings "-register-all".

Local Open Scope Z_scope.

(** ** Python built-ins used by the service *)

(** The Unicode character database, for the characters beyond ASCII, each
    given by its UTF-8 bytes: [ch.isalnum()], and [ch.lower()], which can
    hold more than one character. *)
Class Unicode := {
  u_isalnum : string -> bool;
  u_lower : string -> string;
}.

(** IEEE 754 double precision: [fl x] is the float nearest to [x], the
    result of an operation whose exact value is [x]. *)
Class Float64 := {
  fl : Q -> Q;
}.

Module Py.

Definition chr (n : nat) : ascii := ascii_of_nat n.
Definition ord (c : ascii) : nat := nat_of_ascii c.

Definition in_range (lo hi : nat) (c : ascii) : bool :=
  (lo <=? ord c)%nat && (ord c <=? hi)%nat.

Definition isdigit (c : ascii) : bool := in_range 48 57 c.
Definition isupper (c : ascii) : bool := in_range 65 90 c.
Definition islower (c : ascii) : bool := in_range 97 122 c.

(** [ch.isalnum()] on an ASCII character *)
Definition isalnum (c : ascii) : bool := isdigit c || isupper c || islower c.

(** [ch.lower()] on an ASCII character *)
Definition lower (c : ascii) : ascii :=
  if isupper c then chr (ord c + 32) else c.

(** *** Characters *)

Definition is_ascii (c : ascii) : bool := (ord c <? 128)%nat.

(** A continuation byte of UTF-8. *)
Definition is_cont (c : ascii) : bool := in_range 128 191 c.

(** [s.isascii()] *)
Fixpoint isascii (s : string) : bool :=
  match s with
  | EmptyString => true
  | String c r => is_ascii c && isascii r
  end.

Definition starts_cont (s : string) : bool :=
  match s with
  | EmptyString => false
  | String c _ => is_cont c
  end.

(** [list(s)]: the characters of [s], each with its bytes. *)
Fixpoint chars (s : string) : list string :=
  match s with
  | EmptyString => []
  | String c r =>
      match chars r with
      | [] => [String c ""]
      | ch :: rest =>
          if negb (is_ascii c) && starts_cont r then String c ch :: rest
          else String c "" :: ch :: rest
      end
  end.

(** [str.join] on the empty separator *)
Fixpoint join (l : list string) : string :=
  match l with
  | [] => ""
  | x :: r => x +:+ join r
  end.

(** [len(s)] *)
Definition len (s : string) : nat := length (chars s).

(** [s[:n]] *)
Definition str_take (n : nat) (s : string) : string := join (take n (chars s)).

Definition bytes (l : list nat) : string := String.string_of_list_ascii (map chr l).

(** The white space of [str.strip], [str.split] and [str.isspace]: the
    ASCII characters 9-13, 28-31 and 32, then U+0085, U+00A0, U+1680,
    U+2000-U+200A, U+2028, U+2029, U+202F, U+205F and U+3000. *)
Definition whitespace : list string :=
  map (fun n => bytes [n]) [9; 10; 11; 12; 13; 28; 29; 30; 31; 32]%nat
  ++ [bytes [194; 133]; bytes [194; 160]; bytes [225; 154; 128]]%nat
  ++ map (fun n => bytes [226; 128; n]%nat) (seq 128 11)
  ++ [bytes [226; 128; 168]; bytes [226; 128; 169]; bytes [226; 128; 175];
      bytes [226; 129; 159]; bytes [227; 128; 128]]%nat.

(** [ch.isspace()] *)
Definition isspace (ch : string) : bool := existsb (String.eqb ch) whitespace.

Section Unicode.
Context {unicode : Unicode}.

(** [ch.isalnum()] *)
Definition isalnum_ch (ch : string) : bool :=
  match ch with
  | String c EmptyString => if is_ascii c then isalnum c else u_isalnum ch
  | _ => u_isalnum ch
  end.

(** [ch.lower()] *)
Definition lower_ch (ch : string) : string :=
  match ch with
  | String c EmptyString => if is_ascii c then String (lower c) "" else u_lower ch
  | _ => u_lower ch
  end.

End Unicode.

Fixpoint str_map (f : ascii -> ascii) (s : string) : string :=
  match s with
  | EmptyString => EmptyString
  | String c r => String (f c) (str_map f r)
  end.

(** [s.lstrip(chars)], [s.rstrip(chars)] and [s.strip(chars)] for ASCII
    characters [chars], given as a predicate on bytes. *)
Fixpoint lstrip (p : ascii -> bool) (s : string) : string :=
  match s with
  | EmptyString => EmptyString
  | String c r => if p c then lstrip p r else s
  end.

Fixpoint rstrip (p : ascii -> bool) (s : string) : string :=
  match s with
  | EmptyString => EmptyString
  | String c r =>
      match rstrip p r with
      | EmptyString => if p c then EmptyString else String c EmptyString
      | r' => String c r'
      end
  end.

Definition strip_chars (p : ascii -> bool) (s : string) : string :=
  rstrip p (lstrip p s).

Fixpoint drop_while {A} (p : A -> bool) (l : list A) : list A :=
  match l with
  | [] => []
  | x :: r => if p x then drop_while p r else l
  end.

(** [s.strip()]: without the white space at both ends. *)
Definition strip (s : string) : string :=
  join (rev (drop_while isspace (rev (drop_while isspace (chars s))))).

(** [s.split(sep)[0]] for a one-character separator: the text before the
    first [sep], all of [s] when there is none. *)
Fixpoint split_first (sep : ascii) (s : string) : string :=
  match s with
  | EmptyString => EmptyString
  | String c r => if Ascii.eqb c sep then EmptyString else String c (split_first sep r)
  end.

(** [s.split()]: the maximal runs of characters that are not white space. *)
Fixpoint split_ws_go (cur : string) (l : list string) : list string :=
  match l with
  | [] => if String.eqb cur "" then [] else [cur]
  | ch :: r =>
      if isspace ch
      then (if String.eqb cur "" then split_ws_go "" r else cur :: split_ws_go "" r)
      else split_ws_go (cur +:+ ch) r
  end.

Definition split_ws (s : string) : list string := split_ws_go "" (chars s).

(** The truth value of a list: it is not empty. *)
Definition nonempty {A} (l : list A) : bool :=
  match l with [] => false | _ :: _ => true end.

(** [s.startswith(p)] *)
Definition startswith (s p : string) : bool := String.prefix p s.

(** [x in l] for a list of strings. *)
Definition str_in (x : string) (l : list string) : bool :=
  existsb (String.eqb x) l.

(** [str(n)] for an integer. *)
Definition str_of_nat (n : nat) : string := pretty n.
Definition str_of_Z (z : Z) : string := pretty z.

(** Comparison of [str] values: by code point, which on UTF-8 text is the
    order of the bytes. *)
Definition str_le (a b : string) : bool := String.leb a b.

(** [int(x)] on a float: truncation toward zero. *)
Definition int_of_float (q : Q) : Z := Z.quot (Qnum q) (Z.pos (Qden q)).

Definition Qltb (a b : Q) : bool := negb (Qle_bool b a).

(** *** Dictionaries: insertion-ordered association lists *)

Section Dict.
Context {V : Type}.

(** [d.get(k)] *)
Fixpoint get (k : string) (d : list (string * V)) : option V :=
  match d with
  | [] => None
  | (k', v) :: d' => if String.eqb k k' then Some v else get k d'
  end.

(** [d[k] = v]: an existing key keeps its place, a new one goes last. *)
Fixpoint set (k : string) (v : V) (d : list (string * V)) : list (string * V) :=
  match d with
  | [] => [(k, v)]
  | (k', v') :: d' =>
      if String.eqb k k' then (k, v) :: d' else (k', v') :: set k v d'
  end.

Definition keys (d : list (string * V)) : list string := map fst d.

Definition contains (k : string) (d : list (string * V)) : bool :=
  match get k d with Some _ => true | None => false end.

End Dict.

(** *** [sorted] and [list.sort]: a stable sort by a key order *)

Section Sort.
Context {A : Type} (le : A -> A -> bool).

Fixpoint insert_sorted (x : A) (l : list A) : list A :=
  match l with
  | [] => [x]
  | y :: l' => if le x y then x :: l else y :: insert_sorted x l'
  end.

Definition sorted (l : list A) : list A := foldr insert_sorted [] l.

End Sort.

End Py.

(** ** Data model *)

(** A JSON value as the tools receive it.  [isinstance] tests read the
    constructor; Python's [bool] is a subclass of [int]. *)
Inductive json : Type :=
| JNull
| JBool (b : bool)
| JInt (z : Z)
| JFloat (q : Q)
| JStr (s : string)
| JList (l : list json)
| JObj (d : list (string * json)).

(** [isinstance(v, (int, float))], with the number read. *)
Definition as_number (v : json) : option Q :=
  match v with
  | JBool b => Some (inject_Z (if b then 1 else 0))
  | JInt z => Some (inject_Z z)
  | JFloat q => Some q
  | _ => None
  end.

Definition is_str (v : json) : bool := match v with JStr _ => true | _ => false end.
Definition is_bool (v : json) : bool := match v with JBool _ => true | _ => false end.

(** [v in options] for a list of strings: only an equal string is a member. *)
Definition json_in (v : json) (options : list string) : bool :=
  match v with JStr s => Py.str_in s options | _ => false end.

(** *** The catalog file: [CYBERCHEF_OPERATIONS]

    One entry of [operations.json], read through the keys the service
    reads; [None] is an absent key, and [r_other_keys] names the keys of the
    entry that the service does not read.  Every argument entry carries its
    [name]; its [options] and its [value], when it has them, are lists of
    strings. *)
Record RawArg := {
  ra_name : string;
  ra_type : option string;
  ra_options : option (list string);
  ra_value : option (list string);
  ra_required : option bool;
  ra_min : option Q;
  ra_max : option Q;
  ra_encodings : option (list string);
}.

Record RawOp := {
  r_module : option string;
  r_description : option string;
  r_inputType : option string;
  r_outputType : option string;
  r_args_entry : option (list RawArg);
  r_other_keys : list string;
}.

(** [op_def.get("args", [])] *)
Definition r_args (op_def : RawOp) : list RawArg := default [] (r_args_entry op_def).

(** The truth value of an entry, a dictionary: it holds a key. *)
Definition entry_nonempty (op_def : RawOp) : bool :=
  bool_decide (is_Some (r_module op_def))
  || bool_decide (is_Some (r_description op_def))
  || bool_decide (is_Some (r_inputType op_def))
  || bool_decide (is_Some (r_outputType op_def))
  || bool_decide (is_Some (r_args_entry op_def))
  || Py.nonempty (r_other_keys op_def).

(** *** [cyberchef_pydantic_models.py] *)

Inductive ArgDef : Type :=
| EnumArgDef (name : string) (options : list string) (required : bool)
| NumberArgDef (name : string) (min max : option Q) (required : bool)
| StringArgDef (name : string) (required : bool)
| BooleanArgDef (name : string) (required : bool)
| BytesArgDef (name : string) (encodings : list string) (required : bool).

Definition arg_name (a : ArgDef) : string :=
  match a with
  | EnumArgDef n _ _ | NumberArgDef n _ _ _ | StringArgDef n _
  | BooleanArgDef n _ | BytesArgDef n _ _ => n
  end.

Definition arg_required (a : ArgDef) : bool :=
  match a with
  | EnumArgDef _ _ r | NumberArgDef _ _ _ r | StringArgDef _ r
  | BooleanArgDef _ r | BytesArgDef _ _ r => r
  end.

Record OperationDef := {
  od_module : string;
  od_description : string;
  od_inputType : string;
  od_outputType : string;
  od_args : list ArgDef;
}.

(** The [ValueError]s of the models, one constructor per [raise], carrying
    the values its message interpolates. *)
Inductive ValueError : Type :=
| UnknownArgs (sorted_unknown : list string)
| MissingRequiredArg (name : string)
| EnumNotOneOf (name : string) (options : list string) (got : json)
| MustBeNumber (name : string)
| BelowMin (name : string) (min : Q)
| AboveMax (name : string) (max : Q)
| MustBeString (name : string)
| MustBeBoolean (name : string)
| BytesMissingValue (name : string)
| EncodingNotOneOf (name : string) (encodings : list string) (got : json)
| EncodingMustBeString (name : string)
| BytesValueMustBeStr (name : string)
| MustBeBytes (name : string)
| UnknownOp (op : string) (allowed : list string).

(** The type-specific branch of [validate_args] for one supplied value. *)
Definition check_value (a : ArgDef) (v : json) : option ValueError :=
  match a with
  | EnumArgDef name options _ =>
      if json_in v options then None else Some (EnumNotOneOf name options v)
  | NumberArgDef name min max _ =>
      match as_number v with
      | None => Some (MustBeNumber name)
      | Some x =>
          match min with
          | Some lo => if Py.Qltb x lo then Some (BelowMin name lo) else
              match max with
              | Some hi => if Py.Qltb hi x then Some (AboveMax name hi) else None
              | None => None
              end
          | None =>
              match max with
              | Some hi => if Py.Qltb hi x then Some (AboveMax name hi) else None
              | None => None
              end
          end
      end
  | StringArgDef name _ => if is_str v then None else Some (MustBeString name)
  | BooleanArgDef name _ => if is_bool v then None else Some (MustBeBoolean name)
  | BytesArgDef name encodings _ =>
      match v with
      | JObj d =>
          match Py.get "value" d with
          | None => Some (BytesMissingValue name)
          | Some val =>
              let enc_error :=
                match Py.get "encoding" d with
                | None | Some JNull => None
                | Some enc =>
                    if Py.nonempty encodings && negb (json_in enc encodings)
                    then Some (EncodingNotOneOf name encodings enc)
                    else if is_str enc then None
                    else Some (EncodingMustBeString name)
                end in
              match enc_error with
              | Some e => Some e
              | None => if is_str val then None else Some (BytesValueMustBeStr name)
              end
          end
      | JStr _ => None
      | _ => Some (MustBeBytes name)
      end
  end.

(** The loop of [validate_args] over the declared arguments: the first
    failure is raised. *)
Fixpoint check_args (args : list ArgDef) (provided : list (string * json))
  : option ValueError :=
  match args with
  | [] => None
  | a :: rest =>
      match Py.get (arg_name a) provided with
      | None =>
          if arg_required a then Some (MissingRequiredArg (arg_name a))
          else check_args rest provided
      | Some v =>
          match check_value a v with
          | Some e => Some e
          | None => check_args rest provided
          end
      end
  end.

(** [unknown = set(provided) - names] *)
Definition unknown_args (d : OperationDef) (provided : list (string * json))
  : gset string :=
  list_to_set (Py.keys provided) ∖ list_to_set (map arg_name (od_args d)).

(** [OperationDef.validate_args]: [inl] is the raised [ValueError], [inr]
    the returned mapping. *)
Definition validate_args (d : OperationDef) (provided : list (string * json))
  : ValueError + list (string * json) :=
  let unknown := unknown_args d provided in
  if Py.nonempty (elements unknown)
  then inl (UnknownArgs (Py.sorted Py.str_le (elements unknown)))
  else match check_args (od_args d) provided with
       | Some e => inl e
       | None => inr provided
       end.

(** Pydantic's parse of one raw argument into the discriminated union: the
    tag must be one of the five literals. *)
Definition parse_arg (a : RawArg) : option ArgDef :=
  match ra_type a with
  | Some ty =>
      let name := ra_name a in
      let required := default false (ra_required a) in
      if String.eqb ty "enum" then
        Some (EnumArgDef name (default [] (ra_options a)) required)
      else if String.eqb ty "number" then
        Some (NumberArgDef name (ra_min a) (ra_max a) required)
      else if String.eqb ty "string" then Some (StringArgDef name required)
      else if String.eqb ty "boolean" then Some (BooleanArgDef name required)
      else if String.eqb ty "bytes" then
        Some (BytesArgDef name (default [] (ra_encodings a)) required)
      else None
  | None => None
  end.

Fixpoint parse_args (l : list RawArg) : option (list ArgDef) :=
  match l with
  | [] => Some []
  | a :: rest =>
      match parse_arg a, parse_args rest with
      | Some a', Some rest' => Some (a' :: rest')
      | _, _ => None
      end
  end.

(** [OperationDef.model_validate(op_def)]; [None] is a parse failure. *)
Definition model_validate (r : RawOp) : option OperationDef :=
  match r_module r, r_inputType r, r_outputType r, parse_args (r_args r) with
  | Some m, Some i, Some o, Some args =>
      Some {| od_module := m; od_description := default "" (r_description r);
              od_inputType := i; od_outputType := o; od_args := args |}
  | _, _, _, _ => None
  end.

(** The registry that [load_definitions] builds: the entries that parse, in
    the catalog's order, the others skipped. *)
Definition load_definitions (operations : list (string * RawOp))
  : list (string * OperationDef) :=
  fold_left
    (fun op_registry '(op_name, op_def) =>
       match model_validate op_def with
       | Some d => Py.set op_name d op_registry
       | None => op_registry
       end)
    operations [].

(** ** The packages the service calls *)

(** [rapidfuzz]: [utils.default_process], the three scorers of [fuzz] and
    [process.extract], which returns at most [limit] triples (choice, score,
    index), each naming a choice by its index in [choices]. *)
Class RapidFuzz := {
  default_process : string -> string;
  WRatio : string -> string -> Q;
  partial_token_set_ratio : string -> string -> Q;
  token_set_ratio : string -> string -> Q;
  extract :
    (string -> string -> Q) -> string -> list string -> nat -> list (string * Q * nat);
  extract_limit : forall scorer q choices limit,
    (length (extract scorer q choices limit) <= limit)%nat;
  extract_choice : forall scorer q choices limit c s i,
    In (c, s, i) (extract scorer q choices limit) -> choices !! i = Some c;
}.

(** The exceptions the modelled code can raise or let through. *)
Inductive Exn : Type :=
| IndexError
| KeyError
| UrllibHTTPError (code : Z)
| RequestsConnectionError
| RequestsTimeout
| RequestsHTTPError (status : Z)
| RequestsJSONDecodeError
| TypeError
| PydanticValidationError.

(** [requests]: the outcome of [requests.post(url, headers, json)], either
    an exception or a response with its status code and its body, [None]
    when the body is not JSON. *)
Inductive PostResult : Type :=
| PostRaises (e : Exn)
| PostResponse (status : Z) (body : option json).

Class Requests := {
  requests_post : string -> json -> PostResult;
  (** [str(exc)] *)
  exn_text : Exn -> string;
}.

(** [str(v)] and [bytes(v).decode("utf-8", "ignore")] on a decoded JSON
    value; [None] is an exception of the latter. *)
Class Builtins := {
  py_str : json -> string;
  bytes_decode : json -> option string;
}.

(** ** Module constants *)

Definition BYTE_CAP : nat := 1024.
Definition DEFAULT_LIMIT : Z := 10.
Definition MAX_LIMIT : Z := 20.
Definition MAX_DESC_LEN : nat := 240.

Definition CYBERCHEF_ALLOWED_CATEGORIES : list string :=
  ["Encodings"; "Serialise"; "Default"; "PublicKey"; "Hashing"; "PGP"; "Ciphers";
   "Shellcode"; "Jq"; "Handlebars"; "Yara"; "Regex"; "Crypto";
   "Compression"; "URL"; "Code"; "UserAgent"; "Diff"; "Protobuf"].

(** ** Enum normaliser *)

Section Slug.
Context {unicode : Unicode}.

(** [_slug] *)
Definition _slug (s : string) : string :=
  let s := Py.split_first ":" s in
  let s := Py.split_first "(" s in
  Py.strip_chars (Ascii.eqb "-")
    (Py.join (map (fun ch => if Py.isalnum_ch ch then Py.lower_ch ch else "-")
                  (Py.chars s))).

(** [buckets[slug].append(label)] on a [defaultdict(list)]. *)
Fixpoint bucket_append (slug label : string) (buckets : list (string * list string))
  : list (string * list string) :=
  match buckets with
  | [] => [(slug, [label])]
  | (k, labels) :: rest =>
      if String.eqb slug k then (k, labels ++ [label]) :: rest
      else (k, labels) :: bucket_append slug label rest
  end.

Definition make_buckets (slugs opts : list string) : list (string * list string) :=
  fold_left (fun b '(slug, label) => bucket_append slug label b) (zip slugs opts) [].

(** [Counter(slugs)[slug]] *)
Definition count_slug (slugs : list string) (slug : string) : nat :=
  length (filter (fun s => s = slug) slugs).

(** [out[f"{slug}-{idx}"] = label for idx, label in enumerate(labels, idx)] *)
Fixpoint write_numbered (slug : string) (idx : nat) (labels : list string)
  (out : list (string * string)) : list (string * string) :=
  match labels with
  | [] => out
  | label :: rest =>
      write_numbered slug (S idx) rest
        (Py.set (slug +:+ "-" +:+ Py.str_of_nat idx) label out)
  end.

(** The body of [_enum_table] once the argument is found. *)
Definition table_of_options (opts : list string) : list (string * string) :=
  let slugs := map _slug opts in
  let buckets := make_buckets slugs opts in
  fold_left
    (fun out '(slug, labels) =>
       if Nat.eqb (count_slug slugs slug) 1
       then match labels with
            | label :: _ => Py.set slug label out
            | [] => out
            end
       else write_numbered slug 1 labels out)
    buckets [].

End Slug.

(** [a.get("options", a.get("value", [])) or []] *)
Definition raw_options (a : RawArg) : list string :=
  match ra_options a with
  | Some o => o
  | None => default [] (ra_value a)
  end.

Section Service.
Context {unicode : Unicode} {float64 : Float64} {fuzz : RapidFuzz}.
Context (CYBERCHEF_OPERATIONS : list (string * RawOp)).

(** [CYBERCHEF_OPERATIONS.get(op, {}).get("args", [])] *)
Definition op_args (op : string) : list RawArg :=
  match Py.get op CYBERCHEF_OPERATIONS with
  | Some op_def => r_args op_def
  | None => []
  end.

(** [_enum_table] *)
Definition _enum_table (op arg_name : string) : list (string * string) :=
  match List.find (fun a => String.eqb (ra_name a) arg_name) (op_args op) with
  | Some a => table_of_options (raw_options a)
  | None => []
  end.

(** The loop [for k, v in tab.items(): if k.startswith(key): return v]. *)
Definition first_with_prefix (key : string) (tab : list (string * string))
  : option string :=
  snd <$> List.find (fun kv => Py.startswith (fst kv) key) tab.

(** [_normalize_enum] *)
Definition _normalize_enum (op arg_name : string) (val : json) : json :=
  match val with
  | JStr s =>
      let tab := _enum_table op arg_name in
      let key := _slug s in
      match Py.get key tab with
      | Some label => JStr label
      | None =>
          match first_with_prefix key tab with
          | Some label => JStr label
          | None => val
          end
      end
  | _ => val
  end.

(** ** Fuzzy resolver *)

(** [_norm] *)
Definition _norm (s : string) : string := default_process s.

(** [_tokens] *)
Definition _tokens (s : string) : list string :=
  filter (fun t => t <> "") (Py.split_ws (_norm s)).

Definition Qclamp (lo hi x : Q) : Q :=
  let m := if Py.Qltb x hi then x else hi in
  if Py.Qltb lo m then m else lo.

(** [_score_op] *)
Definition _score_op (q name desc : string) : Q :=
  let normalized_query := _norm q in
  let normalized_name := _norm name in
  let normalized_desc := _norm desc in
  let name_score := WRatio normalized_query normalized_name in
  let pts := partial_token_set_ratio normalized_query normalized_desc in
  let ts := token_set_ratio normalized_query normalized_desc in
  let desc_score := if Py.Qltb pts ts then ts else pts in
  let score := fl (fl ((3 # 4) * name_score) + fl ((1 # 4) * desc_score))%Q in
  let score :=
    if negb (String.eqb normalized_query "")
       && Py.startswith normalized_name normalized_query
    then fl (score + 10)%Q else score in
  let score :=
    if String.eqb normalized_query normalized_name then fl (score + 12)%Q else score in
  let qtok := _tokens q in
  let ntok := _tokens name in
  let score :=
    if existsb (fun t => Py.str_in t ntok) qtok then fl (score + 6)%Q else score in
  let score :=
    if Py.nonempty qtok && forallb (fun t => Py.str_in t ntok) qtok
    then fl (score + 4)%Q else score in
  Qclamp 0%Q 100%Q score.

(** ** [search_operations] *)

(** The [limit] argument: absent, an integer, or the dictionary some clients
    send. *)
Inductive LimitArg : Type :=
| LimitNone
| LimitInt (n : Z)
| LimitDict (d : list (string * Z)).

(** Lines 206-214: the limit the search works with. *)
Definition effective_limit (limit : LimitArg) : Z :=
  let limit :=
    match limit with
    | LimitNone => 10
    | LimitInt n => n
    | LimitDict d =>
        match Py.get "value" d with
        | Some n => n
        | None => DEFAULT_LIMIT
        end
    end in
  Z.max 1 (Z.min (if Z.eqb limit 0 then DEFAULT_LIMIT else limit) MAX_LIMIT).

(** One entry of [items]. *)
Record Item := {
  i_name : string;
  i_summary : string;
  i_category : option string;
  i_score : Z;
  i_inputType : option string;
  i_outputType : option string;
  i_args : option (list RawArg);
}.

Record SearchOpsOut := {
  so_total : nat;
  so_items : list Item;
  so_truncated : bool;
}.

(** [x or None] for a string that may be absent. *)
Definition or_none (s : option string) : option string :=
  match s with
  | Some x => if String.eqb x "" then None else Some x
  | None => None
  end.

Definition ellipsis : string :=
  String (Py.chr 226) (String (Py.chr 128) (String (Py.chr 166) EmptyString)).

(** The sort key [(-x["score"], x["name"])], as the order it induces. *)
Definition item_le (a b : Item) : bool :=
  (i_score b <? i_score a)
  || ((i_score a =? i_score b) && Py.str_le (i_name a) (i_name b)).

(** *** [json.dumps(..., ensure_ascii=False).encode("utf-8")] *)

Definition dquote : string := String (Py.chr 34) EmptyString.
Definition backslash : string := String (Py.chr 92) EmptyString.

Definition hex_digit (n : nat) : ascii :=
  if (n <? 10)%nat then Py.chr (48 + n) else Py.chr (87 + n).

Definition json_escape_char (c : ascii) : string :=
  let n := Py.ord c in
  if (n =? 34)%nat then backslash +:+ dquote
  else if (n =? 92)%nat then backslash +:+ backslash
  else if (n =? 10)%nat then backslash +:+ "n"
  else if (n =? 13)%nat then backslash +:+ "r"
  else if (n =? 9)%nat then backslash +:+ "t"
  else if (n =? 8)%nat then backslash +:+ "b"
  else if (n =? 12)%nat then backslash +:+ "f"
  else if (n <? 32)%nat then
    backslash +:+ "u00" +:+ String (hex_digit (n / 16)) (String (hex_digit (n mod 16)) "")
  else String c "".

Fixpoint json_escape (s : string) : string :=
  match s with
  | EmptyString => EmptyString
  | String c r => json_escape_char c +:+ json_escape r
  end.

Definition dumps_str (s : string) : string := dquote +:+ json_escape s +:+ dquote.

Definition dumps_opt_str (s : option string) : string :=
  match s with Some x => dumps_str x | None => "null" end.

Fixpoint join_comma (l : list string) : string :=
  match l with
  | [] => ""
  | [x] => x
  | x :: rest => x +:+ ", " +:+ join_comma rest
  end.

Section Search.
(** [json.dumps] of the raw [args] entries of a catalog operation, whose
    keys beyond the ones read by the service the typed view does not hold. *)
Context (dumps_args : list RawArg -> string).

Definition dumps_item (x : Item) : string :=
  "{" +:+ dumps_str "name" +:+ ": " +:+ dumps_str (i_name x)
  +:+ ", " +:+ dumps_str "summary" +:+ ": " +:+ dumps_str (i_summary x)
  +:+ ", " +:+ dumps_str "category" +:+ ": " +:+ dumps_opt_str (i_category x)
  +:+ ", " +:+ dumps_str "score" +:+ ": " +:+ Py.str_of_Z (i_score x)
  +:+ ", " +:+ dumps_str "inputType" +:+ ": " +:+ dumps_opt_str (i_inputType x)
  +:+ ", " +:+ dumps_str "outputType" +:+ ": " +:+ dumps_opt_str (i_outputType x)
  +:+ match i_args x with
      | Some a => ", " +:+ dumps_str "args" +:+ ": " +:+ dumps_args a
      | None => ""
      end
  +:+ "}".

(** [len(json.dumps({"total": len(items), "items": items},
    ensure_ascii=False).encode("utf-8"))] *)
Definition preview_len (items : list Item) : nat :=
  String.length
    ("{" +:+ dumps_str "total" +:+ ": " +:+ Py.str_of_nat (length items)
     +:+ ", " +:+ dumps_str "items" +:+ ": ["
     +:+ join_comma (map dumps_item items) +:+ "]}").

(** Lines 232-234: the description, trimmed and cut to [MAX_DESC_LEN]
    characters. *)
Definition summary_of (op : RawOp) : string :=
  let desc := Py.strip (default "" (r_description op)) in
  if (MAX_DESC_LEN <? Py.len desc)%nat
  then Py.str_take (MAX_DESC_LEN - 1) desc +:+ ellipsis
  else desc.

(** The body of the [for i in idxs] loop for one operation: [None] is
    [continue]. *)
Definition make_item (q : string) (include_args : bool) (name : string) (op : RawOp)
  : option Item :=
  let cat := Py.strip (default "" (r_module op)) in
  if Py.nonempty CYBERCHEF_ALLOWED_CATEGORIES
     && negb (String.eqb cat "")
     && negb (Py.str_in cat CYBERCHEF_ALLOWED_CATEGORIES)
  then None
  else
    let desc := summary_of op in
    let score := Py.int_of_float (_score_op q name desc) in
    Some {| i_name := name;
            i_summary := desc;
            i_category := or_none (Some cat);
            i_score := score;
            i_inputType := or_none (r_inputType op);
            i_outputType := or_none (r_outputType op);
            i_args := if include_args then Some (r_args op) else None |}.

(** The loop [for i in idxs], the indices in the set's iteration order. *)
Fixpoint build_items (q : string) (include_args : bool) (names : list string)
  (idxs : list nat) : Exn + list Item :=
  match idxs with
  | [] => inr []
  | i :: rest =>
      match names !! i with
      | None => inl IndexError
      | Some name =>
          match Py.get name CYBERCHEF_OPERATIONS with
          | None => inl KeyError
          | Some op =>
              match build_items q include_args names rest with
              | inl e => inl e
              | inr items =>
                  match make_item q include_args name op with
                  | Some item => inr (item :: items)
                  | None => inr items
                  end
              end
          end
      end
  end.

(** The condition of the [while] loop of the size governor. *)
Definition over_cap (items : list Item) : bool :=
  Py.nonempty items && (1 <? length items)%nat && (BYTE_CAP <? preview_len items)%nat.

(** The [while] loop: [items.pop()] as long as [over_cap]; [fuel] bounds the
    number of iterations. *)
Fixpoint pop_while (fuel : nat) (items : list Item) : list Item :=
  match fuel with
  | O => items
  | S fuel' =>
      if over_cap items then pop_while fuel' (removelast items) else items
  end.

(** Lines 251-257: the size governor, the list and the [trunc] flag. *)
Definition govern (items : list Item) : list Item * bool :=
  if (BYTE_CAP <? preview_len items)%nat
  then (pop_while (length items) items, true)
  else (items, false).

(** The candidate indices [idxs]. *)
Definition candidate_idxs (q : string) (limit : Z) (names descs : list string)
  : gset nat :=
  if String.eqb q "" then
    list_to_set (seq 0 (Nat.min (Z.to_nat (limit * 2)) (length names)))
  else
    let name_matches := extract WRatio q names (Z.to_nat (limit * 2)) in
    let desc_matches :=
      extract partial_token_set_ratio q descs (Z.to_nat (limit * 2)) in
    list_to_set (map snd name_matches) ∪ list_to_set (map snd desc_matches).

(** Lines 216-249: the ranked list, before the size governor. *)
Definition ranked_items (query : string) (limit : LimitArg) (include_args : bool)
  : Exn + list Item :=
  let q := Py.strip query in
  let limit := effective_limit limit in
  let names := Py.keys CYBERCHEF_OPERATIONS in
  let descs := map (fun n_op => default "" (r_description (snd n_op))) CYBERCHEF_OPERATIONS in
  let idxs := candidate_idxs q limit names descs in
  match build_items q include_args names (elements idxs) with
  | inl e => inl e
  | inr items => inr (take (Z.to_nat limit) (Py.sorted item_le items))
  end.

(** [search_operations] *)
Definition search_operations (query : string) (limit : LimitArg) (include_args : bool)
  : Exn + SearchOpsOut :=
  match ranked_items query limit include_args with
  | inl e => inl e
  | inr items =>
      let '(items, trunc) := govern items in
      inr {| so_total := length items; so_items := items; so_truncated := trunc |}
  end.

End Search.

(** ** The execution boundary and the recipe tools *)

(** A computation that may call the upstream service: it extends the log of
    the calls made, and returns a value or lets an exception through. *)
Definition IO (A : Type) : Type :=
  list (string * json) -> (Exn + A) * list (string * json).

Definition ret {A} (a : A) : IO A := fun log => (inr a, log).
Definition raise {A} (e : Exn) : IO A := fun log => (inl e, log).
Definition bind {A B} (m : IO A) (k : A -> IO B) : IO B :=
  fun log =>
    match m log with
    | (inl e, log') => (inl e, log')
    | (inr a, log') => k a log'
    end.

(** [except HTTPError], the class imported from [urllib.error]: of the
    modelled exceptions only [urllib.error.HTTPError] is an instance. *)
Definition caught_by_HTTPError (e : Exn) : bool :=
  match e with UrllibHTTPError _ => true | _ => false end.

(** A step of a submitted recipe, a dictionary of any values: its keys
    [op] and [args], [None] when absent. *)
Record RawStep := {
  s_op : option json;
  s_args : option json;
}.

(** [RecipeOp], also the fields of [CyberChefRecipeOperation]. *)
Record RecipeOp := {
  op : string;
  args : list (string * json);
}.

(** One line of a pydantic [ValidationError]. *)
Inductive ErrorDetail : Type :=
| FieldRequired (field : string)
| StringExpected (field : string)
| DictExpected (field : string)
| Raised (e : ValueError).

(** The message appended by [_validate_recipe], as the values its f-string
    interpolates: the step's index, [op_name] ([JNull] for [None]),
    [expected_args], [similar] and the text of the exception. *)
Record StepError := {
  se_index : nat;
  se_op_name : json;
  se_expected_args : list string;
  se_similar : list string;
  se_details : list ErrorDetail;
}.

Inductive ErrorMsg : Type :=
| NoOperations
| StepInvalid (e : StepError)
| UpstreamError (text : string).

Record BakeRecipeResponse := {
  ok : bool;
  output : option string;
  type : option string;
  errors : list ErrorMsg;
  warnings : list string;
}.

(** The constructor call of [RecipeOp] on the keys of a step: [op] must be
    a string, [args] a dictionary when given. *)
Definition parse_RecipeOp (operation : RawStep) : list ErrorDetail + RecipeOp :=
  match s_op operation, s_args operation with
  | Some (JStr o), None => inr {| op := o; args := [] |}
  | Some (JStr o), Some (JObj d) => inr {| op := o; args := d |}
  | Some (JStr o), Some _ => inl [DictExpected "args"]
  | None, (None | Some (JObj _)) => inl [FieldRequired "op"]
  | None, Some _ => inl [FieldRequired "op"; DictExpected "args"]
  | Some _, (None | Some (JObj _)) => inl [StringExpected "op"]
  | Some _, Some _ => inl [StringExpected "op"; DictExpected "args"]
  end.

(** [bool(v)] *)
Definition truthy (v : json) : bool :=
  match v with
  | JNull => false
  | JBool b => b
  | JInt z => negb (z =? 0)
  | JFloat q => negb (Qeq_bool q 0)
  | JStr s => negb (String.eqb s "")
  | JList l => Py.nonempty l
  | JObj d => Py.nonempty d
  end.

Section Recipes.
Context {requests : Requests} {builtins : Builtins}.
Context (CYBERCHEF_API_URL : string).

(** The [try] block of [create_api_request]: [requests.post], then
    [raise_for_status], which raises on a status from 400 to 599, then
    [response.json()]. *)
Definition post_and_decode (api_url : string) (request_data : json) : Exn + json :=
  match requests_post api_url request_data with
  | PostRaises e => inl e
  | PostResponse status body =>
      if (400 <=? status) && (status <? 600) then inl (RequestsHTTPError status)
      else match body with
           | Some j => inr j
           | None => inl RequestsJSONDecodeError
           end
  end.

(** [create_api_request] *)
Definition create_api_request (endpoint : string) (request_data : json) : IO json :=
  fun log =>
    let api_url := CYBERCHEF_API_URL +:+ endpoint in
    let log := log ++ [(api_url, request_data)] in
    match post_and_decode api_url request_data with
    | inr j => (inr j, log)
    | inl req_exc =>
        if caught_by_HTTPError req_exc
        then (inr (JObj [("error",
                JStr ("Exception raised during HTTP POST request to " +:+ api_url
                      +:+ " - " +:+ exn_text req_exc))]), log)
        else (inl req_exc, log)
    end.

(** The model validator [_validate_against_catalog] of
    [CyberChefRecipeOperation]. *)
Definition validate_against_catalog (o : RecipeOp) : list ErrorDetail + RecipeOp :=
  let op_registry := load_definitions CYBERCHEF_OPERATIONS in
  match Py.get (op o) op_registry with
  | None => inl [Raised (UnknownOp (op o) (Py.sorted Py.str_le (Py.keys op_registry)))]
  | Some d =>
      match validate_args d (args o) with
      | inl e => inl [Raised e]
      | inr _ => inr o
      end
  end.

(** The [try] block of [_validate_recipe] for one step. *)
Definition validate_step (operation : RawStep) : list ErrorDetail + RecipeOp :=
  match parse_RecipeOp operation with
  | inl e => inl e
  | inr op_obj =>
      let op_obj :=
        {| op := op op_obj;
           args := map (fun kv => (fst kv, _normalize_enum (op op_obj) (fst kv) (snd kv)))
                       (args op_obj) |} in
      validate_against_catalog op_obj
  end.

(** [operation.get("op")]: [None] for a step without the key. *)
Definition op_name_of (operation : RawStep) : json := default JNull (s_op operation).

(** [[a.get("name") for a in CYBERCHEF_OPERATIONS.get(op_name, {}).get("args", [])]]:
    the lookup raises on a key that is not hashable, a list or a
    dictionary; no other value than a string is a key of the catalog. *)
Definition expected_args_of (op_name : json) : Exn + list string :=
  match op_name with
  | JList _ | JObj _ => inl TypeError
  | JStr n => inr (map ra_name (op_args n))
  | _ => inr []
  end.

(** [[c[0] for c in process.extract(op_name, keys, limit=3)] if op_name else []]:
    [process.extract] raises on a query that is a number or a boolean (a
    list or a dictionary does not come this far). *)
Definition similar_of (op_name : json) : Exn + list string :=
  if truthy op_name then
    match op_name with
    | JStr n =>
        inr (map (fun c => fst (fst c))
                 (extract WRatio n (Py.keys CYBERCHEF_OPERATIONS) 3))
    | _ => inl TypeError
    end
  else inr [].

(** The [except ValidationError] block for step [i]: the message, or the
    exception that the block itself raises. *)
Definition step_error (i : nat) (operation : RawStep) (e : list ErrorDetail)
  : Exn + StepError :=
  let op_name := op_name_of operation in
  match expected_args_of op_name with
  | inl exn => inl exn
  | inr expected_args =>
      match similar_of op_name with
      | inl exn => inl exn
      | inr similar =>
          inr {| se_index := i; se_op_name := op_name;
                 se_expected_args := expected_args; se_similar := similar;
                 se_details := e |}
      end
  end.

(** The loop of [_validate_recipe] from index [i] on. *)
Fixpoint validate_from (i : nat) (recipe : list RawStep)
  : Exn + (list ErrorMsg * list RecipeOp) :=
  match recipe with
  | [] => inr ([], [])
  | operation :: rest =>
      match validate_step operation with
      | inr o =>
          match validate_from (S i) rest with
          | inl exn => inl exn
          | inr (errors, validated) => inr (errors, o :: validated)
          end
      | inl e =>
          match step_error i operation e with
          | inl exn => inl exn
          | inr msg =>
              match validate_from (S i) rest with
              | inl exn => inl exn
              | inr (errors, validated) => inr (StepInvalid msg :: errors, validated)
              end
          end
      end
  end.

(** [_validate_recipe] *)
Definition _validate_recipe (recipe : list RawStep)
  : Exn + (list ErrorMsg * list RecipeOp * list string) :=
  match validate_from 0 recipe with
  | inl exn => inl exn
  | inr (errors, validated) => inr (errors, validated, [])
  end.

(** [op.model_dump()] *)
Definition model_dump (o : RecipeOp) : json :=
  JObj [("op", JStr (op o)); ("args", JObj (args o))].

(** The shape tests on one upstream answer, shared by [bake_recipe] and the
    loop of [batch_bake_recipe]. *)
Definition response_type (t : json) : Exn + option string :=
  match t with
  | JStr s => inr (Some s)
  | JNull => inr None
  | _ => inl PydanticValidationError
  end.

Definition read_response (response : json) (warnings : list string)
  : Exn + BakeRecipeResponse :=
  let plain out :=
    inr {| ok := true; output := Some out; type := None; errors := [];
           warnings := [] |} in
  match response with
  | JObj d =>
      match Py.get "type" d, Py.get "value" d with
      | Some t, Some v =>
          let out :=
            match t with
            | JStr "byteArray" => default "" (bytes_decode v)
            | _ => py_str v
            end in
          match response_type t with
          | inl e => inl e
          | inr ty =>
              inr {| ok := true; output := Some out; type := ty; errors := [];
                     warnings := warnings |}
          end
      | _, Some v => plain (py_str v)
      | _, None =>
          match Py.get "error" d with
          | Some err =>
              inr {| ok := false; output := None; type := None;
                     errors := [UpstreamError (py_str err)]; warnings := [] |}
          | None => plain (py_str response)
          end
      end
  | _ => plain (py_str response)
  end.

(** [bake_recipe] *)
Definition bake_recipe (input_data : string) (recipe : list RawStep)
  : IO BakeRecipeResponse :=
  if negb (Py.nonempty recipe) then
    ret {| ok := false; output := None; type := None; errors := [NoOperations];
           warnings := [] |}
  else
    match _validate_recipe recipe with
    | inl exn => raise exn
    | inr (errors, validated, warnings) =>
        if Py.nonempty errors then
          ret {| ok := false; output := None; type := None; errors := errors;
                 warnings := warnings |}
        else
          let request_data :=
            JObj [("input", JStr input_data);
                  ("recipe", JList (map model_dump validated))] in
          bind (create_api_request "bake" request_data) (fun response_data =>
            match read_response response_data warnings with
            | inl e => raise e
            | inr r => ret r
            end)
    end.

(** [for response in (response_data or [])]: what the loop iterates over. *)
Definition iter_response (response_data : json) : Exn + list json :=
  match response_data with
  | JList l => inr l
  | JObj d => inr (map JStr (Py.keys d))
  | JStr s => inr (map JStr (Py.chars s))
  | JNull | JBool false | JInt 0 => inr []
  | JFloat q => if Qeq_bool q 0 then inr [] else inl TypeError
  | _ => inl TypeError
  end.

Fixpoint read_responses (l : list json) : Exn + list BakeRecipeResponse :=
  match l with
  | [] => inr []
  | r :: rest =>
      match read_response r [] with
      | inl e => inl e
      | inr x =>
          match read_responses rest with
          | inl e => inl e
          | inr xs => inr (x :: xs)
          end
      end
  end.

(** [batch_bake_recipe]; the value is the [results] list. *)
Definition batch_bake_recipe (batch_input_data : list string) (recipe : list RawStep)
  : IO (list BakeRecipeResponse) :=
  match _validate_recipe recipe with
  | inl exn => raise exn
  | inr (errors, validated, warnings) =>
      if Py.nonempty errors then
        ret [{| ok := false; output := None; type := None; errors := errors;
                warnings := [] |}]
      else
        let request_data :=
          JObj [("input", JList (map JStr batch_input_data));
                ("recipe", JList (map model_dump validated))] in
        bind (create_api_request "batch/bake" request_data) (fun response_data =>
          match iter_response response_data with
          | inl e => raise e
          | inr l =>
              match read_responses l with
              | inl e => raise e
              | inr results => ret results
              end
          end)
  end.

(** ** [validate_recipe], the advisory pass *)

Record SuggestionItem := {
  index : nat;
  sg_op : string;
  candidates : option (list string);
  missingArgs : option (list string);
}.

Record ValidateRecipeOut := {
  vr_ok : bool;
  vr_errors : list string;
  vr_suggestions : list SuggestionItem;
  vr_normalized : list RecipeOp;
}.

(** [f"Step {i} missing 'op' name"] *)
Definition missing_op_message (i : nat) : string :=
  "Step " +:+ Py.str_of_nat i +:+ " missing 'op' name".

(** What one iteration of the loop appends to [errors], [suggestions] and
    [normalized]. *)
Definition advise_step (i : nat) (step : RecipeOp)
  : list string * list SuggestionItem * list RecipeOp :=
  let name := Py.strip (op step) in
  if String.eqb name "" then ([missing_op_message i], [], [])
  else if negb (Py.contains name CYBERCHEF_OPERATIONS) then
    let cands :=
      map (fun c => fst (fst c)) (extract WRatio name (Py.keys CYBERCHEF_OPERATIONS) 5) in
    ([], [{| index := i; sg_op := name; candidates := Some cands; missingArgs := None |}], [])
  else
    let expected := map ra_name (op_args name) in
    let got := Py.keys (args step) in
    let unexpected := filter (fun k => negb (Py.str_in k expected)) got in
    let missing := filter (fun k => negb (Py.str_in k got)) expected in
    ([],
     (if Py.nonempty unexpected
      then [{| index := i; sg_op := name; candidates := None; missingArgs := None |}]
      else [])
     ++ (if Py.nonempty missing
         then [{| index := i; sg_op := name; candidates := None;
                  missingArgs := Some missing |}]
         else []),
     [step]).

Fixpoint advise_from (i : nat) (recipe : list RecipeOp)
  : list string * list SuggestionItem * list RecipeOp :=
  match recipe with
  | [] => ([], [], [])
  | step :: rest =>
      let '(e, s, n) := advise_step i step in
      let '(es, ss, ns) := advise_from (S i) rest in
      (e ++ es, s ++ ss, n ++ ns)
  end.

(** [validate_recipe] *)
Definition validate_recipe (recipe : list RecipeOp) : ValidateRecipeOut :=
  let '(errors, suggestions, normalized) := advise_from 0 recipe in
  {| vr_ok := negb (Py.nonempty suggestions) && negb (Py.nonempty errors);
     vr_errors := errors; vr_suggestions := suggestions; vr_normalized := normalized |}.

End Recipes.
End Service.

(** * Properties *)

(** ** The order on strings *)

Lemma ascii_compare_spec x y :
  CompareSpec (x = y) (N_of_ascii x < N_of_ascii y)%N (N_of_ascii y < N_of_ascii x)%N
    (Ascii.compare x y).
Proof.
  unfold Ascii.compare.
  destruct (N.compare_spec (N_of_ascii x) (N_of_ascii y)) as [E|L|G];
    constructor; auto.
  rewrite <- (ascii_N_embedding x), <- (ascii_N_embedding y). by rewrite E.
Qed.

Lemma str_le_refl a : Py.str_le a a = true.
Proof.
  unfold Py.str_le, String.leb. induction a as [|x a IH]; simpl; auto.
  destruct (ascii_compare_spec x x); auto; lia.
Qed.

Lemma str_le_trans a b c :
  Py.str_le a b = true -> Py.str_le b c = true -> Py.str_le a c = true.
Proof.
  unfold Py.str_le, String.leb. revert b c.
  induction a as [|x a IH]; intros [|y b] [|z c]; simpl; auto; try discriminate.
  destruct (ascii_compare_spec x y), (ascii_compare_spec y z), (ascii_compare_spec x z);
    subst; auto; try discriminate; try lia.
  apply IH.
Qed.

Lemma str_le_total a b : Py.str_le a b = true \/ Py.str_le b a = true.
Proof. apply String.leb_total. Qed.

Lemma str_le_antisym a b : Py.str_le a b = true -> Py.str_le b a = true -> a = b.
Proof. apply String.leb_antisym. Qed.

Lemma str_in_spec x l : Py.str_in x l = true <-> x ∈ l.
Proof.
  unfold Py.str_in. rewrite existsb_exists. split.
  - intros (y & Hy & E). apply String.eqb_eq in E. subst. by apply list_elem_of_In.
  - intros H. exists x. split; [by apply list_elem_of_In | apply String.eqb_refl].
Qed.

(** ** [sorted] returns a sorted permutation *)

Section SortFacts.
Context {A : Type} (le : A -> A -> bool).

Lemma insert_sorted_perm x l : Py.insert_sorted le x l ≡ₚ x :: l.
Proof.
  induction l as [|y l IH]; simpl; [done|].
  destruct (le x y); [done|]. rewrite IH. apply Permutation_swap.
Qed.

Lemma sorted_perm l : Py.sorted le l ≡ₚ l.
Proof.
  induction l as [|x l IH]; simpl; [done|].
  rewrite insert_sorted_perm. by rewrite IH.
Qed.

Lemma sorted_length l : length (Py.sorted le l) = length l.
Proof. by rewrite sorted_perm. Qed.

Hypothesis le_total : forall a b, le a b = true \/ le b a = true.
Hypothesis le_trans : forall a b c, le a b = true -> le b c = true -> le a c = true.

Lemma insert_sorted_sorted x l :
  StronglySorted (fun a b => le a b = true) l ->
  StronglySorted (fun a b => le a b = true) (Py.insert_sorted le x l).
Proof.
  induction 1 as [|y l Hs IH Hy]; simpl.
  - repeat constructor.
  - destruct (le x y) eqn:E.
    + constructor; [by constructor|].
      constructor; [done|]. eapply Forall_impl; [exact Hy|]. intros z Hz. eauto.
    + constructor; [done|].
      rewrite insert_sorted_perm. constructor; [|done].
      destruct (le_total x y); congruence.
Qed.

Lemma sorted_StronglySorted l :
  StronglySorted (fun a b => le a b = true) (Py.sorted le l).
Proof.
  induction l as [|x l IH]; simpl; [constructor|]. by apply insert_sorted_sorted.
Qed.

(** Two strongly sorted lists with the same elements are equal when the
    order is antisymmetric on them: the sorted list does not depend on the
    order in which the input was given. *)
Lemma sorted_unique l1 l2 :
  (forall a b, a ∈ l1 -> b ∈ l1 -> le a b = true -> le b a = true -> a = b) ->
  StronglySorted (fun a b => le a b = true) l1 ->
  StronglySorted (fun a b => le a b = true) l2 ->
  l1 ≡ₚ l2 -> l1 = l2.
Proof.
  revert l2. induction l1 as [|x l1 IH]; intros l2 Hanti H1 H2 Hp.
  - by apply Permutation_nil_l in Hp.
  - destruct l2 as [|y l2]; [by apply Permutation_nil_r in Hp|].
    apply StronglySorted_inv in H1 as [H1 Hx].
    apply StronglySorted_inv in H2 as [H2 Hy].
    assert (x = y) as ->.
    { assert (x ∈ y :: l2) as Hxin by (rewrite <- Hp; left).
      assert (y ∈ x :: l1) as Hyin by (rewrite Hp; left).
      apply elem_of_cons in Hxin as [->|Hxin]; [done|].
      apply elem_of_cons in Hyin as [->|Hyin]; [done|].
      rewrite Forall_forall in Hx, Hy.
      apply Hanti; [left | by right | by apply Hx | by apply Hy]. }
    f_equal. apply IH; auto.
    + intros a b Ha Hb. apply Hanti; by right.
    + by apply Permutation_cons_inv in Hp.
Qed.

End SortFacts.

(** ** Argument validation *)

Lemma nonempty_elem {A} (l : list A) x : x ∈ l -> Py.nonempty l = true.
Proof. destruct l; [by intros ?%elem_of_nil | done]. Qed.

Lemma elem_of_unknown_args d provided k :
  k ∈ unknown_args d provided <->
  k ∈ Py.keys provided /\ k ∉ map arg_name (od_args d).
Proof.
  unfold unknown_args.
  rewrite elem_of_difference, !elem_of_list_to_set. done.
Qed.

(** C2.  When [provided] holds a key that the operation does not declare,
    [validate_args] raises the unknown-arguments error, and the list in its
    message holds exactly the undeclared keys, each once, in ascending
    order. *)
Theorem validate_args_reports_unknown_keys
  (d : OperationDef) (provided : list (string * json)) :
  (exists k, k ∈ Py.keys provided /\ k ∉ map arg_name (od_args d)) ->
  exists l,
    validate_args d provided = inl (UnknownArgs l)
    /\ (forall k, k ∈ l <-> k ∈ Py.keys provided /\ k ∉ map arg_name (od_args d))
    /\ NoDup l
    /\ StronglySorted (fun a b => Py.str_le a b = true) l.
Proof.
  intros (k & Hk). apply elem_of_unknown_args in Hk.
  exists (Py.sorted Py.str_le (elements (unknown_args d provided))).
  split; [|split; [|split]].
  - unfold validate_args.
    by rewrite (nonempty_elem _ k) by by apply elem_of_elements.
  - intros k'. by rewrite sorted_perm, elem_of_elements, elem_of_unknown_args.
  - rewrite sorted_perm. apply NoDup_elements.
  - apply sorted_StronglySorted; [apply str_le_total | apply str_le_trans].
Qed.

Definition from_hex_def : OperationDef :=
  {| od_module := "Default"; od_description := "Converts a hexadecimal byte string back into its raw value.";
     od_inputType := "string"; od_outputType := "byteArray";
     od_args := [EnumArgDef "Delimiter" ["Auto"; "Space"; "Comma"] false] |}.

Example validate_args_two_unknown :
  validate_args from_hex_def
    [("delimiter", JStr "Auto"); ("Delimiter", JStr "Auto"); ("Width", JInt 2)]
  = inl (UnknownArgs ["Width"; "delimiter"]).
Proof. vm_compute. reflexivity. Qed.

Lemma validate_args_reports_unknown_keys_witness :
  exists l,
    validate_args from_hex_def [("delimiter", JStr "Auto"); ("Width", JInt 2)]
    = inl (UnknownArgs l)
    /\ (forall k, k ∈ l <->
          k ∈ Py.keys [("delimiter", JStr "Auto"); ("Width", JInt 2)]
          /\ k ∉ map arg_name (od_args from_hex_def))
    /\ NoDup l
    /\ StronglySorted (fun a b => Py.str_le a b = true) l.
Proof.
  apply (validate_args_reports_unknown_keys from_hex_def
           [("delimiter", JStr "Auto"); ("Width", JInt 2)]).
  exists "Width". split.
  - apply list_elem_of_In. simpl. auto.
  - intros H. apply list_elem_of_In in H. simpl in H. destruct H as [H|[]]. discriminate.
Defined.

(** ** Dictionaries *)

Section DictFacts.
Context {V : Type}.
Implicit Types (d : list (string * V)) (k : string) (v : V).

Lemma get_set_eq k v d : Py.get k (Py.set k v d) = Some v.
Proof.
  induction d as [|[k' v'] d IH]; simpl.
  - by rewrite String.eqb_refl.
  - destruct (String.eqb k k') eqn:E; simpl; rewrite ?E, ?String.eqb_refl; auto.
Qed.

Lemma get_set_ne k k' v d : k <> k' -> Py.get k (Py.set k' v d) = Py.get k d.
Proof.
  intros Hne. induction d as [|[k'' v''] d IH]; simpl.
  - by apply String.eqb_neq in Hne as ->.
  - destruct (String.eqb k' k'') eqn:E; simpl.
    + apply String.eqb_eq in E as <-. by apply String.eqb_neq in Hne as ->.
    + by rewrite IH.
Qed.

Lemma get_Some_elem k v d : Py.get k d = Some v -> (k, v) ∈ d.
Proof.
  induction d as [|[k' v'] d IH]; simpl; [done|].
  destruct (String.eqb k k') eqn:E.
  - apply String.eqb_eq in E as ->. intros [= ->]. left.
  - intros H. right. auto.
Qed.

Lemma get_None_keys k d : Py.get k d = None <-> k ∉ Py.keys d.
Proof.
  unfold Py.keys. induction d as [|[k' v'] d IH]; simpl.
  - split; [intros _ H; by apply elem_of_nil in H | done].
  - rewrite not_elem_of_cons. destruct (String.eqb k k') eqn:E.
    + apply String.eqb_eq in E. split; [done | intros [? _]; done].
    + apply String.eqb_neq in E. rewrite IH. tauto.
Qed.

Lemma get_is_Some_keys k d : is_Some (Py.get k d) <-> k ∈ Py.keys d.
Proof.
  destruct (Py.get k d) eqn:E.
  - split; [intros _|eauto]. apply get_Some_elem in E.
    unfold Py.keys. apply list_elem_of_fmap. by exists (k, v).
  - apply get_None_keys in E. split; [by intros [? [=]] | done].
Qed.

Lemma get_elem_NoDup k v d : NoDup (Py.keys d) -> (k, v) ∈ d -> Py.get k d = Some v.
Proof.
  unfold Py.keys. induction d as [|[k' v'] d IH]; simpl.
  - by intros _ ?%elem_of_nil.
  - intros [Hk' Hnd]%NoDup_cons [[= -> ->]|Hin]%elem_of_cons.
    + by rewrite String.eqb_refl.
    + destruct (String.eqb k k') eqn:E; [|auto].
      apply String.eqb_eq in E as ->. destruct Hk'.
      apply list_elem_of_fmap. by exists (k', v).
Qed.

End DictFacts.

(** ** Characters *)

Fixpoint all_chars (p : ascii -> bool) (s : string) : bool :=
  match s with
  | EmptyString => true
  | String c r => p c && all_chars p r
  end.

Definition first_char (s : string) : option ascii :=
  match s with
  | EmptyString => None
  | String c _ => Some c
  end.

Fixpoint last_char (s : string) : option ascii :=
  match s with
  | EmptyString => None
  | String c EmptyString => Some c
  | String _ r => last_char r
  end.

(** One character: a byte, followed by continuation bytes only when it is
    not an ASCII byte. *)
Definition is_char (ch : string) : Prop :=
  match ch with
  | EmptyString => False
  | String c t => all_chars Py.is_cont t = true /\ (t = "" \/ Py.is_ascii c = false)
  end.

Lemma is_cont_not_ascii c : Py.is_cont c = true -> Py.is_ascii c = false.
Proof. destruct c as [[] [] [] [] [] [] [] []]; intros H; try discriminate H; reflexivity. Qed.

Lemma chars_nil s : Py.chars s = [] -> s = "".
Proof.
  destruct s as [|c r]; [done|]. simpl.
  destruct (Py.chars r); [done|]. by destruct (_ && _).
Qed.

Lemma chars_cons c r :
  Py.chars (String c r)
  = if negb (Py.is_ascii c) && Py.starts_cont r
    then match Py.chars r with
         | ch :: rest => String c ch :: rest
         | [] => [String c ""]
         end
    else String c "" :: Py.chars r.
Proof.
  simpl. destruct (Py.chars r) as [|ch rest] eqn:E; [|done].
  apply chars_nil in E as ->. simpl. by rewrite andb_false_r.
Qed.

Lemma chars_head c r ch rest :
  Py.chars (String c r) = ch :: rest -> exists t, ch = String c t.
Proof.
  rewrite chars_cons. destruct (_ && _).
  - destruct (Py.chars r); intros [= <- _]; eauto.
  - intros [= <- _]. eauto.
Qed.

Lemma chars_is_char s : Forall is_char (Py.chars s).
Proof.
  induction s as [|c r IH]; [constructor|]. rewrite chars_cons.
  destruct (negb (Py.is_ascii c) && Py.starts_cont r) eqn:E.
  - apply andb_true_iff in E as [Hc Hr]. apply negb_true_iff in Hc.
    destruct (Py.chars r) as [|ch rest] eqn:Er; [repeat constructor; auto|].
    apply Forall_cons in IH as [Hch Hrest]. constructor; [|done].
    destruct r as [|c' r']; [done|].
    destruct (chars_head _ _ _ _ Er) as [t ->]. simpl in *.
    destruct Hch as [Ht _]. split; [|by right]. by rewrite Hr, Ht.
  - constructor; [|done]. simpl. auto.
Qed.

Lemma chars_all_cont t :
  all_chars Py.is_cont t = true -> t <> "" -> Py.chars t = [t].
Proof.
  induction t as [|c t IH]; [done|]. intros [Hc Ht]%andb_true_iff _.
  rewrite chars_cons. destruct t as [|c' t']; [by rewrite andb_false_r|].
  rewrite IH by done. simpl in Ht. apply andb_true_iff in Ht as [Hc' _].
  simpl. by rewrite (is_cont_not_ascii _ Hc), Hc'.
Qed.

(** A character is the only character of itself. *)
Lemma chars_of_char ch : is_char ch -> Py.chars ch = [ch].
Proof.
  destruct ch as [|c t]; [done|]. intros [Ht Hc]. rewrite chars_cons.
  destruct t as [|c' t']; [by rewrite andb_false_r|].
  destruct Hc as [|Hc]; [done|]. rewrite chars_all_cont by done.
  simpl in Ht. apply andb_true_iff in Ht as [Hc' _]. simpl. by rewrite Hc, Hc'.
Qed.

Lemma append_cons (x : ascii) (a b : string) : String x a +:+ b = String x (a +:+ b).
Proof. reflexivity. Qed.

Lemma append_assoc (a b c : string) : a +:+ (b +:+ c) = (a +:+ b) +:+ c.
Proof. induction a as [|x a IH]; [done|]. by rewrite !append_cons, IH. Qed.

Lemma join_app l1 l2 : Py.join (l1 ++ l2) = Py.join l1 +:+ Py.join l2.
Proof.
  induction l1 as [|x l1 IH]; simpl; [done|]. by rewrite IH, append_assoc.
Qed.

(** The characters of a string, put together, are the string. *)
Lemma join_chars s : Py.join (Py.chars s) = s.
Proof.
  induction s as [|c r IH]; [done|]. rewrite chars_cons.
  destruct (_ && _).
  - destruct (Py.chars r) as [|ch rest] eqn:E.
    + apply chars_nil in E as ->. done.
    + cbn [Py.join] in *. by rewrite append_cons, IH.
  - cbn [Py.join]. by rewrite append_cons, IH.
Qed.

(** [s[:n]] is a prefix of [s]. *)
Lemma str_take_prefix n s : exists rest, s = Py.str_take n s +:+ rest.
Proof.
  exists (Py.join (drop n (Py.chars s))). unfold Py.str_take.
  by rewrite <- join_app, take_drop, join_chars.
Qed.

Lemma starts_cont_app a b : a <> "" -> Py.starts_cont (a +:+ b) = Py.starts_cont a.
Proof. by destruct a. Qed.

Lemma len_cons c r :
  Py.len (String c r)
  = if negb (Py.is_ascii c) && Py.starts_cont r then Py.len r else S (Py.len r).
Proof.
  unfold Py.len. rewrite chars_cons.
  destruct (negb (Py.is_ascii c) && Py.starts_cont r) eqn:E; [|done].
  destruct (Py.chars r) as [|ch rest] eqn:Er; [|done].
  apply chars_nil in Er as ->. by rewrite andb_false_r in E.
Qed.

(** Putting two strings together does not add a character. *)
Lemma len_app_le a b : (Py.len (a +:+ b) <= Py.len a + Py.len b)%nat.
Proof.
  induction a as [|c a IH];
    [change ("" +:+ b) with b; change (Py.len "") with 0%nat; lia|].
  rewrite append_cons, !len_cons.
  destruct a as [|c' a'].
  - change ("" +:+ b) with b. change (Py.starts_cont "") with false.
    rewrite andb_false_r. change (Py.len "") with 0%nat.
    destruct (_ && _); lia.
  - rewrite starts_cont_app by done.
    destruct (negb (Py.is_ascii c) && Py.starts_cont (String c' a')); lia.
Qed.

Lemma len_join_le l : Forall is_char l -> (Py.len (Py.join l) <= length l)%nat.
Proof.
  induction 1 as [|ch l Hch _ IH]; simpl; [done|].
  pose proof (len_app_le ch (Py.join l)) as H.
  unfold Py.len at 2 in H. rewrite (chars_of_char _ Hch) in H. simpl in H. lia.
Qed.

(** [s[:n]] has at most [n] characters. *)
Lemma len_str_take n s : (Py.len (Py.str_take n s) <= n)%nat.
Proof.
  unfold Py.str_take.
  etrans; [apply len_join_le|].
  - eapply Forall_take, chars_is_char.
  - rewrite length_take. lia.
Qed.

Lemma chars_cons_ascii c r :
  Py.is_ascii c = true -> Py.chars (String c r) = String c "" :: Py.chars r.
Proof. intros H. rewrite chars_cons. by rewrite H. Qed.

(** The ellipsis is one character of three bytes; [strip] takes the
    no-break space U+00A0 and the em space U+2003 for white space. *)
Example characters_of_text :
  Py.len ellipsis = 1%nat
  /\ String.length ellipsis = 3%nat
  /\ Py.chars ("a" +:+ ellipsis +:+ "b") = ["a"; ellipsis; "b"]
  /\ Py.strip (Py.bytes [194; 160; 84; 111; 32; 226; 128; 131]%nat) = "To".
Proof. vm_compute. auto. Qed.

(** ** [_slug]: the shape of a slug *)

Definition is_dash (c : ascii) : bool := Ascii.eqb "-" c.

(** The characters a slug of ASCII text is made of. *)
Definition slug_char (c : ascii) : bool :=
  Py.islower c || Py.isdigit c || is_dash c.

(** The character map of [_slug], on an ASCII character. *)
Definition slug_map (ch : ascii) : ascii :=
  if Py.isalnum ch then Py.lower ch else "-"%char.

Lemma slug_map_char c : slug_char (slug_map c) = true.
Proof. destruct c as [[] [] [] [] [] [] [] []]; reflexivity. Qed.

Lemma slug_char_fixed c :
  slug_char c = true ->
  slug_map c = c /\ Ascii.eqb c ":" = false /\ Ascii.eqb c "(" = false
  /\ Py.is_ascii c = true.
Proof. destruct c as [[] [] [] [] [] [] [] []]; intros H; try discriminate H; auto. Qed.

Lemma all_chars_str_map s : all_chars slug_char (Py.str_map slug_map s) = true.
Proof.
  induction s as [|c s IH]; simpl; [done|]. by rewrite slug_map_char, IH.
Qed.

Lemma all_chars_lstrip p q s :
  all_chars p s = true -> all_chars p (Py.lstrip q s) = true.
Proof.
  induction s as [|c s IH]; simpl; [done|].
  intros [Hc Hs]%andb_true_iff. destruct (q c); [auto|]. simpl. by rewrite Hc, Hs.
Qed.

Lemma all_chars_rstrip p q s :
  all_chars p s = true -> all_chars p (Py.rstrip q s) = true.
Proof.
  induction s as [|c s IH]; simpl; [done|].
  intros [Hc Hs]%andb_true_iff. specialize (IH Hs).
  destruct (Py.rstrip q s) as [|c' r'].
  - destruct (q c); simpl; [done | by rewrite Hc].
  - simpl in *. by rewrite Hc, IH.
Qed.

Lemma lstrip_first p s c : first_char (Py.lstrip p s) = Some c -> p c = false.
Proof.
  induction s as [|x s IH]; simpl; [done|].
  destruct (p x) eqn:E; [auto|]. simpl. by intros [= <-].
Qed.

Lemma rstrip_first p s c :
  first_char s = Some c -> p c = false -> first_char (Py.rstrip p s) = Some c.
Proof.
  destruct s as [|x s]; simpl; [done|]. intros [= ->] Hc.
  destruct (Py.rstrip p s); [by rewrite Hc | done].
Qed.

Lemma rstrip_first_inv p s c :
  first_char (Py.rstrip p s) = Some c -> first_char s = Some c.
Proof.
  destruct s as [|x s]; simpl; [done|].
  destruct (Py.rstrip p s); [destruct (p x)|]; simpl; done.
Qed.

Lemma rstrip_last p s c : last_char (Py.rstrip p s) = Some c -> p c = false.
Proof.
  induction s as [|x s IH]; simpl; [done|].
  destruct (Py.rstrip p s) as [|y r] eqn:E.
  - destruct (p x) eqn:Ex; simpl; [done | by intros [= <-]].
  - simpl in *. auto.
Qed.

Lemma lstrip_clean p s :
  (forall c, first_char s = Some c -> p c = false) -> Py.lstrip p s = s.
Proof.
  destruct s as [|x s]; simpl; [done|]. intros H. by rewrite (H x eq_refl).
Qed.

Lemma rstrip_idemp p s : Py.rstrip p (Py.rstrip p s) = Py.rstrip p s.
Proof.
  induction s as [|x s IH]; simpl; [done|].
  destruct (Py.rstrip p s) as [|y r] eqn:E.
  - destruct (p x) eqn:Ex; simpl; [done | by rewrite Ex].
  - change (Py.rstrip p (String x (String y r)))
      with (match Py.rstrip p (String y r) with
            | EmptyString => if p x then EmptyString else String x EmptyString
            | String a b => String x (String a b)
            end).
    by rewrite IH.
Qed.

Lemma strip_chars_idemp p s :
  Py.strip_chars p (Py.strip_chars p s) = Py.strip_chars p s.
Proof.
  unfold Py.strip_chars. rewrite (lstrip_clean p (Py.rstrip p (Py.lstrip p s))).
  - apply rstrip_idemp.
  - intros c Hc. apply rstrip_first_inv in Hc. by eapply lstrip_first.
Qed.

Lemma all_chars_fixed s :
  all_chars slug_char s = true ->
  Py.split_first ":" s = s /\ Py.split_first "(" s = s /\ Py.str_map slug_map s = s
  /\ Py.isascii s = true.
Proof.
  induction s as [|c s IH]; simpl; [done|].
  intros [Hc Hs]%andb_true_iff. destruct (IH Hs) as (H1 & H2 & H3 & H4).
  destruct (slug_char_fixed c Hc) as (E1 & E2 & E3 & E4).
  by rewrite E1, E2, E3, E4, H1, H2, H3, H4.
Qed.

Lemma split_first_isascii sep s :
  Py.isascii s = true -> Py.isascii (Py.split_first sep s) = true.
Proof.
  induction s as [|c s IH]; simpl; [done|].
  intros [Hc Hs]%andb_true_iff. destruct (Ascii.eqb c sep); simpl; [done|].
  by rewrite Hc, IH.
Qed.

Section SlugFacts.
Context {unicode : Unicode}.

(** What [_slug] puts in the place of one character. *)
Definition slug_piece (ch : string) : string :=
  if Py.isalnum_ch ch then Py.lower_ch ch else "-".

Lemma slug_unfold s :
  _slug s
  = Py.strip_chars is_dash
      (Py.join (map slug_piece (Py.chars (Py.split_first "(" (Py.split_first ":" s))))).
Proof. reflexivity. Qed.

Lemma slug_piece_ascii c :
  Py.is_ascii c = true -> slug_piece (String c "") = String (slug_map c) "".
Proof.
  intros H. unfold slug_piece, slug_map. simpl. rewrite H. by destruct (Py.isalnum c).
Qed.

Lemma join_slug_pieces_ascii s :
  Py.isascii s = true -> Py.join (map slug_piece (Py.chars s)) = Py.str_map slug_map s.
Proof.
  induction s as [|c s IH]; [done|]. simpl Py.isascii.
  intros [Hc Hs]%andb_true_iff. rewrite (chars_cons_ascii _ _ Hc).
  cbn [map Py.join Py.str_map]. by rewrite (slug_piece_ascii _ Hc), IH.
Qed.

(** On ASCII text [_slug] works byte by byte. *)
Lemma slug_ascii s :
  Py.isascii s = true ->
  _slug s
  = Py.strip_chars is_dash
      (Py.str_map slug_map (Py.split_first "(" (Py.split_first ":" s))).
Proof.
  intros H. rewrite slug_unfold, join_slug_pieces_ascii; [done|].
  by apply split_first_isascii, split_first_isascii.
Qed.

Lemma slug_all_chars s : Py.isascii s = true -> all_chars slug_char (_slug s) = true.
Proof.
  intros H. rewrite (slug_ascii _ H). unfold Py.strip_chars.
  apply all_chars_rstrip, all_chars_lstrip, all_chars_str_map.
Qed.

Lemma slug_ends s :
  first_char (_slug s) <> Some "-"%char /\ last_char (_slug s) <> Some "-"%char.
Proof.
  rewrite slug_unfold. unfold Py.strip_chars. split.
  - intros H. apply rstrip_first_inv, lstrip_first in H. discriminate H.
  - intros H. apply rstrip_last in H. discriminate H.
Qed.

(** X1.  A slug neither begins nor ends with a hyphen; the slug of ASCII
    text holds only lowercase letters, digits and hyphens. *)
Theorem slug_shape (s : string) :
  first_char (_slug s) <> Some "-"%char
  /\ last_char (_slug s) <> Some "-"%char
  /\ (Py.isascii s = true -> all_chars slug_char (_slug s) = true).
Proof.
  destruct (slug_ends s) as [H1 H2]. split; [done|]. split; [done|].
  apply slug_all_chars.
Qed.

Lemma slug_of_slug s : Py.isascii s = true -> _slug (_slug s) = _slug s.
Proof.
  intros H. pose proof (slug_all_chars s H) as Hall.
  destruct (all_chars_fixed _ Hall) as (H1 & H2 & H3 & H4).
  rewrite (slug_ascii (_slug s) H4), H1, H2, H3.
  rewrite (slug_ascii s H). apply strip_chars_idemp.
Qed.

(** X2.  On ASCII text [_slug] is idempotent: the slug of a slug is the
    slug itself, so a caller may pass a slug where a label is expected. *)
Theorem slug_idempotent (s : string) :
  Py.isascii s = true -> _slug (_slug s) = _slug s.
Proof. apply slug_of_slug. Qed.

(** [_slug] does not see the case of ASCII letters. *)
Lemma slug_map_lower c :
  Ascii.eqb c ":" = Ascii.eqb (Py.lower c) ":"
  /\ Ascii.eqb c "(" = Ascii.eqb (Py.lower c) "("
  /\ slug_map (Py.lower c) = slug_map c
  /\ Py.is_ascii (Py.lower c) = Py.is_ascii c
  /\ Py.is_cont (Py.lower c) = Py.is_cont c
  /\ (Py.is_ascii c = false -> Py.lower c = c).
Proof.
  destruct c as [[] [] [] [] [] [] [] []];
    repeat split; try reflexivity; intros H; discriminate H.
Qed.

Lemma split_first_lower sep s :
  (forall c, Ascii.eqb c sep = Ascii.eqb (Py.lower c) sep) ->
  Py.split_first sep (Py.str_map Py.lower s) = Py.str_map Py.lower (Py.split_first sep s).
Proof.
  intros H. induction s as [|c s IH]; simpl; [done|].
  rewrite <- H. destruct (Ascii.eqb c sep); simpl; [done | by rewrite IH].
Qed.

Lemma starts_cont_lower s : Py.starts_cont (Py.str_map Py.lower s) = Py.starts_cont s.
Proof. destruct s as [|c s]; [done|]. simpl. apply slug_map_lower. Qed.

(** Lowercasing the ASCII letters leaves the characters in place. *)
Lemma chars_lower s :
  Py.chars (Py.str_map Py.lower s) = map (Py.str_map Py.lower) (Py.chars s).
Proof.
  induction s as [|c s IH]; [done|].
  cbn [Py.str_map]. rewrite !chars_cons, IH, starts_cont_lower.
  destruct (slug_map_lower c) as (_ & _ & _ & -> & _).
  destruct (negb (Py.is_ascii c) && Py.starts_cont s); [|done].
  by destruct (Py.chars s).
Qed.

Lemma all_cont_lower t : all_chars Py.is_cont t = true -> Py.str_map Py.lower t = t.
Proof.
  induction t as [|c t IH]; [done|]. simpl. intros [Hc Ht]%andb_true_iff.
  destruct (slug_map_lower c) as (_ & _ & _ & _ & _ & Hl).
  by rewrite (Hl (is_cont_not_ascii _ Hc)), IH.
Qed.

Lemma slug_piece_lower ch :
  is_char ch -> slug_piece (Py.str_map Py.lower ch) = slug_piece ch.
Proof.
  destruct ch as [|c t]; [done|]. intros [Ht Hc].
  destruct (slug_map_lower c) as (_ & _ & Hm & Ha & _ & Hl).
  destruct Hc as [->|Hc].
  - destruct (Py.is_ascii c) eqn:E.
    + simpl Py.str_map. rewrite !slug_piece_ascii by (by rewrite ?Ha). by rewrite Hm.
    + simpl. by rewrite (Hl eq_refl).
  - simpl. by rewrite (Hl Hc), (all_cont_lower _ Ht).
Qed.

Lemma slug_lower s : _slug (Py.str_map Py.lower s) = _slug s.
Proof.
  rewrite !slug_unfold.
  rewrite (split_first_lower ":") by (intros c; apply slug_map_lower).
  rewrite (split_first_lower "(") by (intros c; apply slug_map_lower).
  rewrite chars_lower, map_map. do 2 f_equal.
  apply Forall_fmap_ext_1. eapply Forall_impl; [apply chars_is_char|].
  intros ch Hch. by apply slug_piece_lower.
Qed.

(** X3.  Lowercasing a string does not change its slug. *)
Theorem slug_ignores_case (s : string) : _slug (Py.str_map Py.lower s) = _slug s.
Proof. apply slug_lower. Qed.

End SlugFacts.

(** ** Enum normaliser *)

Section EnumFacts.
Context {unicode : Unicode}.

(** The keys [slug-idx, slug-(idx+1), ...] that [write_numbered] writes for
    [n] labels. *)
Definition numbered (slug : string) (idx n : nat) : list string :=
  map (fun i => slug +:+ "-" +:+ Py.str_of_nat i) (seq idx n).

(** The disambiguated keys of an option list: [slug-1 .. slug-n] for every
    slug that [n > 1] labels share. *)
Definition numbered_keys (opts : list string) : list string :=
  let slugs := map _slug opts in
  flat_map
    (fun '(slug, labels) =>
       if Nat.eqb (count_slug slugs slug) 1 then [] else numbered slug 1 (length labels))
    (make_buckets slugs opts).

(** The labels of the pairs whose slug is [s], in order. *)
Definition labels_of (s : string) (pairs : list (string * string)) : list string :=
  map snd (filter (fun p => fst p = s) pairs).

Lemma bucket_append_get_eq s l b :
  Py.get s (bucket_append s l b) = Some (default [] (Py.get s b) ++ [l]).
Proof.
  induction b as [|[k ls] b IH]; simpl.
  - by rewrite String.eqb_refl.
  - destruct (String.eqb s k) eqn:E; simpl; rewrite E; auto.
Qed.

Lemma bucket_append_get_ne s s' l b :
  s' <> s -> Py.get s' (bucket_append s l b) = Py.get s' b.
Proof.
  intros Hne. induction b as [|[k ls] b IH]; simpl.
  - by apply String.eqb_neq in Hne as ->.
  - destruct (String.eqb s k) eqn:E; simpl; [|by rewrite IH].
    apply String.eqb_eq in E. subst k.
    apply String.eqb_neq in Hne. by rewrite Hne.
Qed.

Lemma bucket_append_keys s l b :
  Py.keys (bucket_append s l b)
  = if decide (s ∈ Py.keys b) then Py.keys b else Py.keys b ++ [s].
Proof.
  unfold Py.keys. induction b as [|[k ls] b IH].
  - simpl. destruct (decide (s ∈ [])) as [H|H]; [by apply elem_of_nil in H | done].
  - cbn [bucket_append map fst].
    destruct (String.eqb s k) eqn:E.
    + apply String.eqb_eq in E as ->.
      destruct (decide (k ∈ k :: map fst b)) as [H|H]; [done | destruct H; left].
    + apply String.eqb_neq in E. cbn [map fst]. rewrite IH.
      destruct (decide (s ∈ map fst b)) as [H|H];
        destruct (decide (s ∈ k :: map fst b)) as [H'|H']; try done.
      * destruct H'. by right.
      * apply elem_of_cons in H' as [?|?]; done.
Qed.

Definition buckets_of (pairs : list (string * string)) : list (string * list string) :=
  fold_left (fun b '(slug, label) => bucket_append slug label b) pairs [].

Lemma buckets_of_snoc pairs s l :
  buckets_of (pairs ++ [(s, l)]) = bucket_append s l (buckets_of pairs).
Proof. unfold buckets_of. by rewrite fold_left_app. Qed.

Lemma buckets_of_NoDup pairs : NoDup (Py.keys (buckets_of pairs)).
Proof.
  induction pairs as [|[s l] pairs IH] using rev_ind; [constructor|].
  rewrite buckets_of_snoc, bucket_append_keys. destruct (decide _) as [H|H]; [done|].
  apply NoDup_app. split; [done|]. split; [|apply NoDup_singleton].
  intros x Hx ->%list_elem_of_singleton. done.
Qed.

Lemma buckets_of_get pairs s :
  Py.get s (buckets_of pairs)
  = match labels_of s pairs with [] => None | ls => Some ls end.
Proof.
  induction pairs as [|[s' l] pairs IH] using rev_ind; [done|].
  rewrite buckets_of_snoc. unfold labels_of in *.
  rewrite filter_app, map_app. simpl.
  destruct (decide (s' = s)) as [->|Hne].
  - rewrite bucket_append_get_eq, IH.
    rewrite filter_cons_True by done. simpl.
    destruct (map snd (filter _ pairs)); done.
  - rewrite bucket_append_get_ne by done. rewrite IH.
    rewrite filter_cons_False by done. simpl. by rewrite app_nil_r.
Qed.

Lemma make_buckets_eq opts :
  make_buckets (map _slug opts) opts = buckets_of (map (fun o => (_slug o, o)) opts).
Proof.
  unfold make_buckets, buckets_of. f_equal.
  induction opts as [|o opts IH]; simpl; [done|]. by rewrite <- IH.
Qed.

Lemma labels_of_slug s opts :
  labels_of s (map (fun o => (_slug o, o)) opts) = filter (fun o => _slug o = s) opts.
Proof.
  unfold labels_of. induction opts as [|o opts IH]; simpl; [done|].
  destruct (decide (_slug o = s)) as [E|E].
  - rewrite !filter_cons_True by done. simpl. by rewrite IH.
  - rewrite !filter_cons_False by done. done.
Qed.

Lemma count_slug_filter s opts :
  count_slug (map _slug opts) s = length (filter (fun o => _slug o = s) opts).
Proof.
  unfold count_slug. induction opts as [|o opts IH]; simpl; [done|].
  destruct (decide (_slug o = s)) as [E|E].
  - rewrite !filter_cons_True by done. simpl. by rewrite IH.
  - rewrite !filter_cons_False by done. done.
Qed.

(** A label whose slug no other label shares is alone in its bucket. *)
Lemma unique_slug_bucket opts L :
  L ∈ opts -> count_slug (map _slug opts) (_slug L) = 1%nat ->
  Py.get (_slug L) (make_buckets (map _slug opts) opts) = Some [L].
Proof.
  intros Hin Hc. rewrite make_buckets_eq, buckets_of_get, labels_of_slug.
  rewrite count_slug_filter in Hc.
  assert (L ∈ filter (fun o => _slug o = _slug L) opts) as HL
      by (apply list_elem_of_filter; done).
  destruct (filter _ opts) as [|x [|y r]]; simpl in Hc; try done.
  by apply list_elem_of_singleton in HL as ->.
Qed.

Lemma write_numbered_get k slug idx labels out :
  k ∉ numbered slug idx (length labels) ->
  Py.get k (write_numbered slug idx labels out) = Py.get k out.
Proof.
  revert idx out. induction labels as [|l labels IH]; intros idx out Hk; simpl; [done|].
  unfold numbered in Hk. simpl in Hk. apply not_elem_of_cons in Hk as [Hk1 Hk2].
  rewrite IH by done. by rewrite get_set_ne.
Qed.

(** One bucket of the loop that fills [out]. *)
Definition write_bucket (slugs : list string) (out : list (string * string))
  (b : string * list string) : list (string * string) :=
  let '(slug, labels) := b in
  if Nat.eqb (count_slug slugs slug) 1
  then match labels with
       | label :: _ => Py.set slug label out
       | [] => out
       end
  else write_numbered slug 1 labels out.

Lemma table_of_options_fold opts :
  table_of_options opts
  = fold_left (write_bucket (map _slug opts)) (make_buckets (map _slug opts) opts) [].
Proof.
  unfold table_of_options, write_bucket. f_equal.
Qed.

(** A bucket of another slug leaves the entry of [k] alone, unless [k] is
    one of its numbered keys. *)
Lemma write_bucket_other slugs out slug labels k :
  k <> slug ->
  (Nat.eqb (count_slug slugs slug) 1 = false -> k ∉ numbered slug 1 (length labels)) ->
  Py.get k (write_bucket slugs out (slug, labels)) = Py.get k out.
Proof.
  intros Hne Hnum. simpl. destruct (Nat.eqb _ 1) eqn:E.
  - destruct labels; [done|]. by rewrite get_set_ne.
  - apply write_numbered_get. auto.
Qed.

Lemma fold_write_bucket_other slugs bs out k :
  k ∉ Py.keys bs ->
  (forall slug labels, (slug, labels) ∈ bs ->
     Nat.eqb (count_slug slugs slug) 1 = false -> k ∉ numbered slug 1 (length labels)) ->
  Py.get k (fold_left (write_bucket slugs) bs out) = Py.get k out.
Proof.
  revert out. induction bs as [|[slug labels] bs IH]; intros out Hk Hnum; simpl; [done|].
  unfold Py.keys in Hk. simpl in Hk. apply not_elem_of_cons in Hk as [Hk1 Hk2].
  rewrite IH.
  - apply write_bucket_other; [done|]. apply Hnum. left.
  - done.
  - intros s ls Hin. apply Hnum. by right.
Qed.

Lemma split_at_key {V} (d : list (string * V)) k v :
  NoDup (Py.keys d) -> Py.get k d = Some v ->
  exists d1 d2, d = (d1 ++ ((k, v) :: d2)) /\ (k ∉ Py.keys d1) /\ (k ∉ Py.keys d2).
Proof.
  intros Hnd Hget. apply get_Some_elem in Hget.
  apply list_elem_of_split in Hget as (d1 & d2 & ->).
  exists d1, d2. split; [done|].
  unfold Py.keys in *. rewrite map_app in Hnd. simpl in Hnd.
  apply NoDup_app in Hnd as (_ & Hd & Hnd2).
  apply NoDup_cons in Hnd2 as [Hk2 _]. split; [|done].
  intros Hk1. apply (Hd _ Hk1). left.
Qed.

(** The table maps the slug of [L] to [L] when no other label shares the
    slug and no numbered key is equal to it. *)
Lemma table_of_options_unique opts L :
  L ∈ opts ->
  count_slug (map _slug opts) (_slug L) = 1%nat ->
  _slug L ∉ numbered_keys opts ->
  Py.get (_slug L) (table_of_options opts) = Some L.
Proof.
  intros Hin Hc Hnk. rewrite table_of_options_fold.
  pose proof (unique_slug_bucket opts L Hin Hc) as Hb.
  assert (NoDup (Py.keys (make_buckets (map _slug opts) opts))) as Hnd
      by (rewrite make_buckets_eq; apply buckets_of_NoDup).
  destruct (split_at_key _ _ _ Hnd Hb) as (b1 & b2 & Hsplit & Hk1 & Hk2).
  unfold numbered_keys in Hnk. rewrite Hsplit in Hnk |- *.
  rewrite fold_left_app. simpl. rewrite Hc. simpl.
  rewrite fold_write_bucket_other; [apply get_set_eq | done |].
  intros slug labels Hb2 Hcount Hk. apply Hnk.
  apply list_elem_of_In, in_flat_map. exists (slug, labels). split.
  - apply list_elem_of_In. apply elem_of_app. right. by right.
  - rewrite Hcount. by apply list_elem_of_In.
Qed.

Lemma find_by_name (l : list RawArg) a :
  NoDup (map ra_name l) -> a ∈ l ->
  List.find (fun x => String.eqb (ra_name x) (ra_name a)) l = Some a.
Proof.
  induction l as [|x l IH]; simpl; [by intros _ ?%elem_of_nil|].
  intros [Hx Hnd]%NoDup_cons [->|Hin]%elem_of_cons.
  - by rewrite String.eqb_refl.
  - destruct (String.eqb (ra_name x) (ra_name a)) eqn:E; [|auto].
    apply String.eqb_eq in E. destruct Hx. rewrite E.
    apply list_elem_of_fmap. by exists a.
Qed.

End EnumFacts.

(** ** Stand-ins for the Unicode database and the floats, for the worked
    examples *)

(** The letters of Latin-1, U+00C0 to U+00FF without the signs U+00D7 and
    U+00F7, and the capital I with a dot above, U+0130. *)
Definition example_isalnum (ch : string) : bool :=
  match ch with
  | String a (String b EmptyString) =>
      ((Py.ord a =? 195)%nat && Py.in_range 128 191 b
       && negb (Py.ord b =? 151)%nat && negb (Py.ord b =? 183)%nat)
      || ((Py.ord a =? 196)%nat && (Py.ord b =? 176)%nat)
  | _ => false
  end.

(** The capitals U+00C0 to U+00DE have their lower case 32 further; the
    lower case of U+0130 is [i] followed by the combining dot U+0307. *)
Definition example_lower (ch : string) : string :=
  match ch with
  | String a (String b EmptyString) =>
      if (Py.ord a =? 195)%nat && Py.in_range 128 158 b && negb (Py.ord b =? 151)%nat
      then String a (String (Py.chr (Py.ord b + 32)) "")
      else if (Py.ord a =? 196)%nat && (Py.ord b =? 176)%nat
      then "i" +:+ Py.bytes [204; 135]%nat
      else ch
  | _ => ch
  end.

#[local] Instance example_unicode : Unicode := {|
  u_isalnum := example_isalnum;
  u_lower := example_lower;
|}.

(** The scores of the examples are integers, on which the arithmetic of
    [_score_op] is exact. *)
#[local] Instance example_float64 : Float64 := {|
  fl := fun x => x;
|}.

Definition base64_alphabets : list string :=
  ["Standard (RFC 4648): A-Za-z0-9+/="; "URL safe: A-Za-z0-9-_"; "Standard (no padding)"].

Definition enum_arg (name : string) (options : list string) : RawArg :=
  {| ra_name := name; ra_type := Some "enum"; ra_options := Some options;
     ra_value := None; ra_required := None; ra_min := None; ra_max := None;
     ra_encodings := None |}.

Definition raw_op (module description : string) (args : list RawArg) : RawOp :=
  {| r_module := Some module; r_description := Some description;
     r_inputType := Some "string"; r_outputType := Some "string";
     r_args_entry := Some args; r_other_keys := [] |}.

Definition base64_catalog : list (string * RawOp) :=
  [("To Base64",
    raw_op "Default" "Base64 is a notation for encoding arbitrary byte data using a restricted set of symbols."
      [enum_arg "Alphabet" base64_alphabets]);
   ("From Base64",
    raw_op "Default" "Decodes data from an ASCII Base64 string back into its raw format." [])].

Example enum_table_base64 :
  _enum_table base64_catalog "To Base64" "Alphabet"
  = [("standard-1", "Standard (RFC 4648): A-Za-z0-9+/=");
     ("standard-2", "Standard (no padding)");
     ("url-safe", "URL safe: A-Za-z0-9-_")].
Proof. vm_compute. reflexivity. Qed.

(** C3, as stated, fails twice.  A declared label whose slug another label
    shares is not a fixed point: both [Standard ...] labels have the slug
    [standard]; the table holds them under [standard-1] and [standard-2],
    and the prefix search sends the second label to the first.  And a
    variant without the punctuation of a label whose slug is unique need not
    resolve to it: the label [URL safe: A-Za-z0-9-_] alone has the slug
    [url-safe], but without its colon, hyphens and underscore it has the
    slug [url-safe-azaz09], which is no key and no prefix of a key of the
    table, so that the value comes back as it was given. *)
Lemma normalize_enum_label_not_fixed :
  (In "Standard (no padding)" base64_alphabets
   /\ _normalize_enum base64_catalog "To Base64" "Alphabet" (JStr "Standard (no padding)")
      = JStr "Standard (RFC 4648): A-Za-z0-9+/="
   /\ _normalize_enum base64_catalog "To Base64" "Alphabet" (JStr "Standard (no padding)")
      <> JStr "Standard (no padding)")
  /\ (In "URL safe: A-Za-z0-9-_" base64_alphabets
      /\ count_slug (map _slug base64_alphabets) (_slug "URL safe: A-Za-z0-9-_") = 1%nat
      /\ _slug "URL safe AZaz09" = "url-safe-azaz09"
      /\ _normalize_enum base64_catalog "To Base64" "Alphabet" (JStr "URL safe AZaz09")
         = JStr "URL safe AZaz09"
      /\ _normalize_enum base64_catalog "To Base64" "Alphabet" (JStr "URL safe AZaz09")
         <> JStr "URL safe: A-Za-z0-9-_").
Proof.
  split.
  - split; [simpl; auto|]. split; [vm_compute; reflexivity|].
    vm_compute. discriminate.
  - split; [simpl; auto|]. split; [vm_compute; reflexivity|].
    split; [vm_compute; reflexivity|]. split; [vm_compute; reflexivity|].
    vm_compute. discriminate.
Qed.

(** A numbered key can also take the place of the slug of another label:
    here [mode-1], written for the first of the two [Mode] labels,
    overwrites the entry of [Mode 1]. *)
Example numbered_key_overwrites :
  table_of_options ["Mode 1"; "Mode"; "Mode (fast)"]
  = [("mode-1", "Mode"); ("mode-2", "Mode (fast)")].
Proof. vm_compute. reflexivity. Qed.

(** C3, amended.  For an argument [a] of operation [op] and a declared
    label [L] whose slug no other label of [a] shares and which is none of
    the numbered keys: normalising [L] returns [L], and so does normalising
    any string with the slug of [L]; among these are [L] with its ASCII
    letters lowercased and, for a label of ASCII text, the slug of [L]. *)
Theorem normalize_enum_unique_slug
  {unicode : Unicode} (ops : list (string * RawOp)) (op : string) (a : RawArg) (L : string) :
  a ∈ op_args ops op ->
  NoDup (map ra_name (op_args ops op)) ->
  L ∈ raw_options a ->
  count_slug (map _slug (raw_options a)) (_slug L) = 1%nat ->
  _slug L ∉ numbered_keys (raw_options a) ->
  _normalize_enum ops op (ra_name a) (JStr L) = JStr L
  /\ (forall v, _slug v = _slug L ->
        _normalize_enum ops op (ra_name a) (JStr v) = JStr L)
  /\ _normalize_enum ops op (ra_name a) (JStr (Py.str_map Py.lower L)) = JStr L
  /\ (Py.isascii L = true ->
      _normalize_enum ops op (ra_name a) (JStr (_slug L)) = JStr L).
Proof.
  intros Ha Hnd HL Hc Hnk.
  assert (forall v, _slug v = _slug L ->
            _normalize_enum ops op (ra_name a) (JStr v) = JStr L) as H.
  { intros v Hv. unfold _normalize_enum, _enum_table.
    rewrite (find_by_name _ a Hnd Ha), Hv.
    by rewrite (table_of_options_unique _ L HL Hc Hnk). }
  split; [by apply H|]. split; [exact H|]. split.
  - apply H, slug_lower.
  - intros Hascii. by apply H, slug_of_slug.
Qed.

Lemma normalize_enum_unique_slug_witness :
  _normalize_enum base64_catalog "To Base64" "Alphabet" (JStr "URL safe: A-Za-z0-9-_")
  = JStr "URL safe: A-Za-z0-9-_"
  /\ (forall v, _slug v = _slug "URL safe: A-Za-z0-9-_" ->
        _normalize_enum base64_catalog "To Base64" "Alphabet" (JStr v)
        = JStr "URL safe: A-Za-z0-9-_")
  /\ _normalize_enum base64_catalog "To Base64" "Alphabet"
       (JStr (Py.str_map Py.lower "URL safe: A-Za-z0-9-_"))
     = JStr "URL safe: A-Za-z0-9-_"
  /\ (Py.isascii "URL safe: A-Za-z0-9-_" = true ->
      _normalize_enum base64_catalog "To Base64" "Alphabet"
        (JStr (_slug "URL safe: A-Za-z0-9-_"))
      = JStr "URL safe: A-Za-z0-9-_").
Proof.
  apply (normalize_enum_unique_slug base64_catalog "To Base64"
           (enum_arg "Alphabet" base64_alphabets) "URL safe: A-Za-z0-9-_").
  - apply list_elem_of_In. simpl. auto.
  - vm_compute. repeat constructor. intros H. apply list_elem_of_In in H. destruct H.
  - apply list_elem_of_In. simpl. auto.
  - vm_compute. reflexivity.
  - intros H. apply list_elem_of_In in H. vm_compute in H.
    destruct H as [H|[H|[]]]; discriminate.
Defined.

Example normalize_enum_slug_variants :
  _normalize_enum base64_catalog "To Base64" "Alphabet" (JStr "url-safe")
  = JStr "URL safe: A-Za-z0-9-_"
  /\ _normalize_enum base64_catalog "To Base64" "Alphabet" (JStr "URL SAFE")
     = JStr "URL safe: A-Za-z0-9-_"
  /\ _normalize_enum base64_catalog "To Base64" "Alphabet" (JStr "url")
     = JStr "URL safe: A-Za-z0-9-_".
Proof. vm_compute. auto. Qed.

(** ** Stand-ins for the packages, for the worked examples *)

(** [utils.default_process] on ASCII text: characters that are not
    alphanumeric become spaces, the rest is lowercased, the ends trimmed. *)
Definition example_default_process (s : string) : string :=
  Py.strip (Py.str_map (fun c => if Py.isalnum c then Py.lower c else " "%char) s).

(** A crude similarity on the scale of the scorers: 100 for equal strings,
    60 when one is a proper prefix of the other, 0 otherwise. *)
Definition example_ratio (a b : string) : Q :=
  if String.eqb a b then 100%Q
  else if negb (String.eqb a "") && negb (String.eqb b "")
          && (String.prefix a b || String.prefix b a)
       then 60%Q else 0%Q.

(** [process.extract]: the [limit] best choices by score, the earlier choice
    first among equal scores. *)
Definition topk_extract (scorer : string -> string -> Q) (q : string)
  (choices : list string) (limit : nat) : list (string * Q * nat) :=
  take limit
    (Py.sorted (fun x y => Qle_bool (snd (fst y)) (snd (fst x)))
       (imap (fun i c => (c, scorer q c, i)) choices)).

Lemma topk_extract_limit scorer q choices limit :
  (length (topk_extract scorer q choices limit) <= limit)%nat.
Proof. unfold topk_extract. rewrite length_take. lia. Qed.

Lemma topk_extract_choice scorer q choices limit c s i :
  In (c, s, i) (topk_extract scorer q choices limit) -> choices !! i = Some c.
Proof.
  intros H%list_elem_of_In. unfold topk_extract in H.
  apply elem_of_take in H as (j & H%list_elem_of_lookup_2 & _).
  rewrite sorted_perm in H.
  apply elem_of_lookup_imap in H as (i' & c' & [= -> -> ->] & Hl). done.
Qed.

#[local] Instance example_fuzz : RapidFuzz := {|
  default_process := example_default_process;
  WRatio := example_ratio;
  partial_token_set_ratio := example_ratio;
  token_set_ratio := example_ratio;
  extract := topk_extract;
  extract_limit := topk_extract_limit;
  extract_choice := topk_extract_choice;
|}.

(** An upstream that answers every request with the given outcome. *)
Definition constant_upstream (r : PostResult) : Requests :=
  {| requests_post := fun _ _ => r;
     exn_text := fun _ => "error" |}.

(** [str] on strings; the other values are not needed by the examples. *)
#[local] Instance example_builtins : Builtins := {|
  py_str := fun v => match v with JStr s => s | _ => "" end;
  bytes_decode := fun _ => None;
|}.

(** ** Search: the ranking order *)

(** [a] ranks before [b]: a higher score, or the same score and a name not
    after [b]'s. *)
Definition ranks_before (a b : Item) : Prop :=
  i_score b < i_score a
  \/ (i_score a = i_score b /\ Py.str_le (i_name a) (i_name b) = true).

Lemma item_le_spec a b : item_le a b = true <-> ranks_before a b.
Proof.
  unfold item_le, ranks_before.
  rewrite orb_true_iff, andb_true_iff, Z.ltb_lt, Z.eqb_eq. done.
Qed.

Lemma item_le_total a b : item_le a b = true \/ item_le b a = true.
Proof.
  rewrite !item_le_spec. unfold ranks_before.
  destruct (Z.lt_trichotomy (i_score a) (i_score b)) as [H|[H|H]]; auto.
  destruct (str_le_total (i_name a) (i_name b)); auto.
Qed.

Lemma item_le_trans a b c :
  item_le a b = true -> item_le b c = true -> item_le a c = true.
Proof.
  rewrite !item_le_spec. unfold ranks_before.
  intros [H1|[H1 L1]] [H2|[H2 L2]]; try (left; lia).
  right. split; [lia|]. by eapply str_le_trans.
Qed.

Lemma item_le_antisym a b :
  item_le a b = true -> item_le b a = true -> i_name a = i_name b.
Proof.
  rewrite !item_le_spec. unfold ranks_before.
  intros [H1|[H1 L1]] [H2|[H2 L2]]; try lia. by apply str_le_antisym.
Qed.

Lemma StronglySorted_prefix {A} (R : A -> A -> Prop) l1 l2 :
  l1 `prefix_of` l2 -> StronglySorted R l2 -> StronglySorted R l1.
Proof. intros [k ->] H. by apply StronglySorted_app_1_l in H. Qed.

Lemma StronglySorted_weaken {A} (R R' : A -> A -> Prop) l :
  (forall a b, R a b -> R' a b) -> StronglySorted R l -> StronglySorted R' l.
Proof.
  intros HR. induction 1 as [|x l Hs IH Hx]; constructor; [done|].
  eapply Forall_impl; [exact Hx | auto].
Qed.

Lemma prefix_map {A B} (f : A -> B) l1 l2 :
  l1 `prefix_of` l2 -> map f l1 `prefix_of` map f l2.
Proof. intros [k ->]. exists (map f k). by rewrite map_app. Qed.

Lemma NoDup_prefix {A} (l1 l2 : list A) :
  l1 `prefix_of` l2 -> NoDup l2 -> NoDup l1.
Proof. intros [k ->] H. by apply NoDup_app in H as [? _]. Qed.

Lemma removelast_prefix {A} (l : list A) : removelast l `prefix_of` l.
Proof.
  induction l as [|x [|y l] IH]; simpl.
  - done.
  - apply prefix_nil.
  - by apply prefix_cons.
Qed.

Lemma removelast_length {A} (l : list A) :
  length (removelast l) = pred (length l).
Proof.
  induction l as [|x [|y l] IH]; simpl in *; auto.
Qed.

(** ** Search: the size governor *)

Section GovernFacts.
Context (dumps_args : list RawArg -> string).

Lemma pop_while_prefix fuel items :
  pop_while dumps_args fuel items `prefix_of` items.
Proof.
  revert items. induction fuel as [|fuel IH]; intros items; simpl; [done|].
  destruct (over_cap dumps_args items); [|done].
  etrans; [apply IH | apply removelast_prefix].
Qed.

(** With the list's length as fuel the loop runs to its end: on exit its
    condition is false. *)
Lemma pop_while_exit fuel items :
  (length items <= fuel)%nat ->
  over_cap dumps_args (pop_while dumps_args fuel items) = false.
Proof.
  revert items. induction fuel as [|fuel IH]; intros items Hlen; simpl.
  - destruct items; [done | simpl in Hlen; lia].
  - destruct (over_cap dumps_args items) eqn:E; [|done].
    apply IH. rewrite removelast_length. lia.
Qed.

Lemma pop_while_nonempty fuel items :
  items <> [] -> pop_while dumps_args fuel items <> [].
Proof.
  revert items. induction fuel as [|fuel IH]; intros items Hne; simpl; [done|].
  destruct (over_cap dumps_args items) eqn:E; [|done].
  apply IH. unfold over_cap in E.
  destruct items as [|x [|y l]]; simpl in *; done.
Qed.

Lemma over_cap_false items :
  over_cap dumps_args items = false ->
  (length items <= 1)%nat \/ (preview_len dumps_args items <= BYTE_CAP)%nat.
Proof.
  unfold over_cap. intros H.
  apply andb_false_iff in H as [H|H].
  - apply andb_false_iff in H as [H|H].
    + destruct items; [simpl; lia | done].
    + apply Nat.ltb_ge in H. auto.
  - apply Nat.ltb_ge in H. auto.
Qed.

(** What the governor returns: a prefix of the list; the flag is set
    exactly when the whole list is over the cap; a list cut by the governor
    fits the cap or is down to one item; a list under the cap is returned
    whole. *)
Lemma govern_spec items :
  (govern dumps_args items).1 `prefix_of` items
  /\ ((govern dumps_args items).2 = true <->
      (BYTE_CAP < preview_len dumps_args items)%nat)
  /\ ((BYTE_CAP < preview_len dumps_args items)%nat ->
      (preview_len dumps_args (govern dumps_args items).1 <= BYTE_CAP)%nat
      \/ length (govern dumps_args items).1 = 1%nat)
  /\ ((preview_len dumps_args items <= BYTE_CAP)%nat ->
      govern dumps_args items = (items, false)).
Proof.
  unfold govern. destruct (BYTE_CAP <? preview_len dumps_args items)%nat eqn:E; simpl.
  - apply Nat.ltb_lt in E. split; [apply pop_while_prefix|].
    split; [done|]. split; [|lia].
    intros _.
    destruct (over_cap_false _ (pop_while_exit (length items) items (le_n _))) as [H|H];
      [|by left].
    right. assert (items <> []) as Hne.
    { intros ->. revert E. vm_compute. lia. }
    apply (pop_while_nonempty (length items)) in Hne.
    destruct (pop_while dumps_args (length items) items); simpl in *; [done | lia].
  - apply Nat.ltb_ge in E. split; [done|]. split; [|split; [lia | done]].
    split; [done | lia].
Qed.

End GovernFacts.

(** ** Search: the candidates and the ranked list *)

Section SearchFacts.
Context {unicode : Unicode} {float64 : Float64} {fuzz : RapidFuzz}.
Context (ops : list (string * RawOp)).

(** The item that the loop builds for index [i], if any. *)
Definition item_at (q : string) (include_args : bool) (i : nat) : option Item :=
  match Py.keys ops !! i with
  | Some name =>
      match Py.get name ops with
      | Some op => make_item q include_args name op
      | None => None
      end
  | None => None
  end.

Lemma make_item_name q inc name op x :
  make_item q inc name op = Some x -> i_name x = name.
Proof.
  unfold make_item. destruct (_ && _ && _); [done|]. by intros [= <-].
Qed.

Lemma item_at_name q inc i x :
  item_at q inc i = Some x -> Py.keys ops !! i = Some (i_name x).
Proof.
  unfold item_at. destruct (Py.keys ops !! i) as [name|]; [|done].
  destruct (Py.get name ops) as [op|]; [|done].
  by intros ->%make_item_name.
Qed.

(** On indices of the catalog the loop raises nothing. *)
Lemma build_items_ok q inc idxs :
  Forall (fun i => (i < length (Py.keys ops))%nat) idxs ->
  build_items ops q inc (Py.keys ops) idxs = inr (omap (item_at q inc) idxs).
Proof.
  induction 1 as [|i idxs Hi _ IH]; simpl; [done|].
  unfold item_at at 1.
  apply lookup_lt_is_Some_2 in Hi as [name Hname]. rewrite Hname.
  assert (is_Some (Py.get name ops)) as [op Hop].
  { apply get_is_Some_keys. by eapply list_elem_of_lookup_2. }
  rewrite Hop, IH. by destruct (make_item q inc name op).
Qed.

Lemma candidate_idxs_bound q limit descs i :
  length descs = length (Py.keys ops) ->
  i ∈ candidate_idxs q limit (Py.keys ops) descs ->
  (i < length (Py.keys ops))%nat.
Proof.
  intros Hlen. unfold candidate_idxs. destruct (String.eqb q "").
  - rewrite elem_of_list_to_set, elem_of_seq. lia.
  - rewrite elem_of_union, !elem_of_list_to_set.
    intros [H|H]; apply list_elem_of_fmap in H as ([[c s] j] & -> & H);
      apply list_elem_of_In, extract_choice in H; simpl.
    + by apply lookup_lt_Some in H.
    + apply lookup_lt_Some in H. lia.
Qed.

(** The ranked list, in closed form: the search raises nothing. *)
Lemma ranked_items_eq query limit inc :
  ranked_items ops query limit inc
  = inr (take (Z.to_nat (effective_limit limit))
           (Py.sorted item_le
              (omap (item_at (Py.strip query) inc)
                 (elements
                    (candidate_idxs (Py.strip query) (effective_limit limit)
                       (Py.keys ops)
                       (map (fun n_op => default "" (r_description n_op.2)) ops)))))).
Proof.
  unfold ranked_items. rewrite build_items_ok; [done|].
  apply Forall_forall. intros i Hi%elem_of_elements.
  eapply candidate_idxs_bound; [|done].
  unfold Py.keys. by rewrite !length_map.
Qed.

Lemma omap_item_at_NoDup q inc idxs :
  NoDup (Py.keys ops) -> NoDup idxs ->
  NoDup (map i_name (omap (item_at q inc) idxs)).
Proof.
  intros Hk. induction 1 as [|i idxs Hi Hnd IH]; simpl; [constructor|].
  destruct (item_at q inc i) as [x|] eqn:E; [|done].
  simpl. constructor; [|done].
  intros Hin. apply list_elem_of_fmap in Hin as (y & Hy & Hin).
  apply list_elem_of_omap in Hin as (j & Hj & Ej).
  apply item_at_name in E, Ej. rewrite Hy in E.
  by rewrite (NoDup_lookup _ _ _ _ Hk E Ej) in Hi.
Qed.

Lemma effective_limit_range limit : 1 <= effective_limit limit <= 20.
Proof. unfold effective_limit, MAX_LIMIT. lia. Qed.

End SearchFacts.

(** ** Worked catalogs *)

Definition dumps_str_list (l : list string) : string :=
  "[" +:+ join_comma (map dumps_str l) +:+ "]".

(** [json.dumps] of argument entries that hold exactly the keys [name],
    [type] and [options], in this order. *)
Definition dumps_enum_arg (a : RawArg) : string :=
  "{" +:+ dumps_str "name" +:+ ": " +:+ dumps_str (ra_name a)
  +:+ ", " +:+ dumps_str "type" +:+ ": " +:+ dumps_str (default "" (ra_type a))
  +:+ ", " +:+ dumps_str "options" +:+ ": " +:+ dumps_str_list (default [] (ra_options a))
  +:+ "}".

Definition dumps_enum_args (l : list RawArg) : string :=
  "[" +:+ join_comma (map dumps_enum_arg l) +:+ "]".

(** Forty character encodings, in the style of the options of CyberChef's
    text encoders. *)
Definition code_pages : list string :=
  map (fun n => "Windows-" +:+ Py.str_of_nat n +:+ " Code Page (" +:+ Py.str_of_nat n +:+ ")")
      (seq 1250 40).

Definition encode_catalog : list (string * RawOp) :=
  [("Encode text",
    raw_op "Encodings" "Encodes text into the chosen character encoding."
      [enum_arg "Encoding" code_pages])].

(** Six operations of the category Default, each with a description of
    four hundred characters, which the search cuts to 240. *)
Definition long_description : string :=
  String.concat "" (replicate 20 "0123456789").

Definition six_ops : list (string * RawOp) :=
  map (fun name => (name, raw_op "Default" (long_description +:+ long_description) []))
      ["To Base64"; "From Base64"; "To Hex"; "From Hex"; "Gunzip"; "Gzip"].

(** ** Search: the properties of the response *)

Section SearchTheorems.
Context {unicode : Unicode} {float64 : Float64} {fuzz : RapidFuzz}.
Context (ops : list (string * RawOp)) (dumps_args : list RawArg -> string).

Lemma ranked_items_sorted query limit inc ranked :
  ranked_items ops query limit inc = inr ranked ->
  StronglySorted ranks_before ranked
  /\ (length ranked <= Z.to_nat (effective_limit limit))%nat
  /\ (NoDup (Py.keys ops) -> NoDup (map i_name ranked)).
Proof.
  rewrite ranked_items_eq. intros [= <-]. split; [|split].
  - eapply StronglySorted_prefix; [apply prefix_take|].
    eapply (StronglySorted_weaken (fun a b => item_le a b = true)).
    + intros a b. apply item_le_spec.
    + apply sorted_StronglySorted; [apply item_le_total | apply item_le_trans].
  - rewrite length_take. lia.
  - intros Hk. eapply NoDup_prefix; [apply prefix_map, prefix_take|].
    rewrite sorted_perm. apply omap_item_at_NoDup; [done | apply NoDup_elements].
Qed.

Lemma search_operations_eq query limit inc ranked :
  ranked_items ops query limit inc = inr ranked ->
  search_operations ops dumps_args query limit inc
  = inr {| so_total := length (govern dumps_args ranked).1;
           so_items := (govern dumps_args ranked).1;
           so_truncated := (govern dumps_args ranked).2 |}.
Proof.
  unfold search_operations. intros ->. by destruct (govern dumps_args ranked).
Qed.

(** C6, amended.  The items of a response are in ranking order (score
    descending, then name ascending), no name occurs twice, and there are at
    most as many as the effective limit, hence at most [limit] for a
    requested [limit] of 1 or more. *)
Theorem search_sorted_distinct_bounded query limit inc :
  NoDup (Py.keys ops) ->
  exists out,
    search_operations ops dumps_args query limit inc = inr out
    /\ StronglySorted ranks_before (so_items out)
    /\ NoDup (map i_name (so_items out))
    /\ (length (so_items out) <= Z.to_nat (effective_limit limit))%nat
    /\ (forall n, limit = LimitInt n -> 1 <= n -> Z.of_nat (length (so_items out)) <= n).
Proof.
  intros Hk.
  destruct (ranked_items_sorted query limit inc _ (ranked_items_eq ops query limit inc))
    as (Hs & Hl & Hn).
  eexists. split; [by apply search_operations_eq, ranked_items_eq|]. simpl.
  destruct (govern_spec dumps_args
              (take (Z.to_nat (effective_limit limit))
                 (Py.sorted item_le
                    (omap (item_at ops (Py.strip query) inc)
                       (elements
                          (candidate_idxs (Py.strip query) (effective_limit limit)
                             (Py.keys ops)
                             (map (fun n_op => default "" (r_description n_op.2)) ops)))))))
    as (Hp & _).
  pose proof (prefix_length _ _ Hp) as Hpl.
  split; [by eapply StronglySorted_prefix|].
  split; [eapply NoDup_prefix; [by apply prefix_map | by apply Hn]|].
  split; [lia|].
  intros n -> Hn1. unfold effective_limit, MAX_LIMIT, DEFAULT_LIMIT in *.
  destruct (Z.eqb_spec n 0); lia.
Qed.

(** C5, amended.  The response holds a prefix of the ranked list; its flag
    is set exactly when the serialisation of the whole ranked list exceeds
    the cap; in that case what is returned fits the cap or is a single item;
    otherwise the ranked list is returned whole, the flag unset. *)
Theorem search_truncation query limit inc :
  exists ranked out,
    ranked_items ops query limit inc = inr ranked
    /\ search_operations ops dumps_args query limit inc = inr out
    /\ so_items out `prefix_of` ranked
    /\ (so_truncated out = true <-> (BYTE_CAP < preview_len dumps_args ranked)%nat)
    /\ ((BYTE_CAP < preview_len dumps_args ranked)%nat ->
        (preview_len dumps_args (so_items out) <= BYTE_CAP)%nat
        \/ length (so_items out) = 1%nat)
    /\ ((preview_len dumps_args ranked <= BYTE_CAP)%nat ->
        so_items out = ranked /\ so_truncated out = false).
Proof.
  eexists _, _. split; [apply ranked_items_eq|].
  split; [by apply search_operations_eq, ranked_items_eq|]. simpl.
  match goal with |- context [govern _ ?r] =>
    destruct (govern_spec dumps_args r) as (Hp & Ht & Hc & Hu) end.
  split; [done|]. split; [done|]. split; [done|].
  intros H. by rewrite (Hu H).
Qed.

(** C10.  Whatever [limit] is passed, the limit in force lies between 1 and
    20.  For an integer [n] it is [n] itself from 1 to 20, 20 above 20, 1
    below 0, and 10 for 0, which the code takes for no limit; it is 10 when
    [limit] is absent or is a dictionary without the key [value], and the
    one of [n] for a dictionary that maps [value] to [n].  The search
    returns a response with at most that many, so at most 20, items. *)
Theorem search_limit_clamped query limit inc :
  1 <= effective_limit limit <= 20
  /\ (forall n, 1 <= n <= 20 -> effective_limit (LimitInt n) = n)
  /\ (forall n, 20 < n -> effective_limit (LimitInt n) = 20)
  /\ (forall n, n < 0 -> effective_limit (LimitInt n) = 1)
  /\ (forall n, n <> 0 -> effective_limit (LimitInt n) = Z.max 1 (Z.min n 20))
  /\ effective_limit (LimitInt 0) = 10
  /\ effective_limit LimitNone = 10
  /\ (forall d, Py.get "value" d = None -> effective_limit (LimitDict d) = 10)
  /\ (forall d n, Py.get "value" d = Some n ->
        effective_limit (LimitDict d) = effective_limit (LimitInt n))
  /\ exists out,
       search_operations ops dumps_args query limit inc = inr out
       /\ (length (so_items out) <= Z.to_nat (effective_limit limit))%nat
       /\ (length (so_items out) <= 20)%nat.
Proof.
  assert (forall n, n <> 0 -> effective_limit (LimitInt n) = Z.max 1 (Z.min n 20)) as Hn.
  { intros n Hne. unfold effective_limit, MAX_LIMIT.
    by apply Z.eqb_neq in Hne as ->. }
  split; [apply effective_limit_range|].
  split; [intros n H; rewrite Hn; lia|].
  split; [intros n H; rewrite Hn; lia|].
  split; [intros n H; rewrite Hn; lia|].
  split; [exact Hn|]. split; [done|]. split; [done|].
  split; [by intros d H; unfold effective_limit; rewrite H|].
  split; [by intros d n H; unfold effective_limit; rewrite H|].
  destruct (ranked_items_sorted query limit inc _ (ranked_items_eq ops query limit inc))
    as (_ & Hl & _).
  eexists. split; [by apply search_operations_eq, ranked_items_eq|]. simpl.
  match goal with |- context [govern _ ?r] =>
    destruct (govern_spec dumps_args r) as (Hp & _) end.
  apply prefix_length in Hp. pose proof (effective_limit_range limit). lia.
Qed.

End SearchTheorems.

Lemma NoDup_base64_catalog : NoDup (Py.keys base64_catalog).
Proof. apply (bool_decide_unpack _). vm_compute. reflexivity. Qed.

Lemma search_sorted_distinct_bounded_witness :
  exists out,
    search_operations base64_catalog dumps_enum_args "base64" (LimitInt 3) false = inr out
    /\ StronglySorted ranks_before (so_items out)
    /\ NoDup (map i_name (so_items out))
    /\ (length (so_items out) <= Z.to_nat (effective_limit (LimitInt 3)))%nat
    /\ (forall n, LimitInt 3 = LimitInt n -> 1 <= n ->
          Z.of_nat (length (so_items out)) <= n).
Proof.
  apply (search_sorted_distinct_bounded base64_catalog dumps_enum_args
           "base64" (LimitInt 3) false).
  apply (bool_decide_unpack _). vm_compute. reflexivity.
Defined.

(** C6, as stated, fails for a requested limit below 1: with [limit = 0]
    the search works with the default of 10 and returns both operations of
    the catalog. *)
Lemma search_limit_zero_returns_items :
  exists out,
    search_operations base64_catalog dumps_enum_args "base64" (LimitInt 0) false = inr out
    /\ map i_name (so_items out) = ["To Base64"; "From Base64"]
    /\ ~ (Z.of_nat (length (so_items out)) <= 0).
Proof.
  eexists. split; [vm_compute; reflexivity|]. split; [reflexivity|].
  simpl. lia.
Qed.

(** C5, as stated, fails when the first item alone is over the cap: the
    loop stops at one item, and the response, flagged as truncated, is still
    larger than the cap. *)
Lemma search_single_item_over_cap :
  exists ranked out,
    ranked_items encode_catalog "" LimitNone true = inr ranked
    /\ search_operations encode_catalog dumps_enum_args "" LimitNone true = inr out
    /\ (BYTE_CAP < preview_len dumps_enum_args ranked)%nat
    /\ so_truncated out = true
    /\ length (so_items out) = 1%nat
    /\ ~ (preview_len dumps_enum_args (so_items out) <= BYTE_CAP)%nat.
Proof.
  eexists _, _. split; [vm_compute; reflexivity|].
  split; [vm_compute; reflexivity|].
  split; [vm_compute; lia|]. split; [reflexivity|]. split; [reflexivity|].
  vm_compute. lia.
Qed.

(** ** Search: the empty query *)

Section EmptyQuery.
Context {unicode : Unicode} {float64 : Float64} {fuzz : RapidFuzz}.
Context (ops : list (string * RawOp)) (dumps_args : list RawArg -> string).

(** Two items of the loop's output with the same name are the same item. *)
Lemma item_at_inj q inc (idxs : list nat) a b :
  NoDup (Py.keys ops) ->
  a ∈ omap (item_at ops q inc) idxs -> b ∈ omap (item_at ops q inc) idxs ->
  i_name a = i_name b -> a = b.
Proof.
  intros Hk (i & _ & Hi)%list_elem_of_omap (j & _ & Hj)%list_elem_of_omap Hn.
  pose proof (item_at_name _ _ _ _ _ Hi) as Hi'.
  pose proof (item_at_name _ _ _ _ _ Hj) as Hj'.
  rewrite Hn in Hi'. rewrite (NoDup_lookup _ _ _ _ Hk Hi' Hj') in Hi. congruence.
Qed.

(** The ranked list does not depend on the order in which the candidate
    set is iterated. *)
Lemma ranked_order_independent q inc n (order1 order2 : list nat) :
  NoDup (Py.keys ops) -> order1 ≡ₚ order2 ->
  take n (Py.sorted item_le (omap (item_at ops q inc) order1))
  = take n (Py.sorted item_le (omap (item_at ops q inc) order2)).
Proof.
  intros Hk Hp. f_equal. apply (sorted_unique item_le).
  - intros a b Ha Hb Hab Hba. rewrite sorted_perm in Ha, Hb.
    eapply item_at_inj; eauto. by apply item_le_antisym.
  - apply sorted_StronglySorted; [apply item_le_total | apply item_le_trans].
  - apply sorted_StronglySorted; [apply item_le_total | apply item_le_trans].
  - by rewrite !sorted_perm, Hp.
Qed.

(** The first [2 * limit] indices of the catalog. *)
Definition first_indices (limit : LimitArg) : list nat :=
  seq 0 (Nat.min (2 * Z.to_nat (effective_limit limit)) (length ops)).

(** C7, amended.  With the empty query the search raises nothing; every
    returned item is built from one of the first [2 * limit] catalog
    entries; there are at most [limit] of them, and, unless the governor cut
    the list, exactly as many as [limit] and the number of those entries
    that pass the category filter allow; the ranked list is the same in
    whatever order the index set is iterated. *)
Theorem search_empty_query limit inc :
  NoDup (Py.keys ops) ->
  exists out,
    search_operations ops dumps_args "" limit inc = inr out
    /\ (forall x, x ∈ so_items out ->
          exists i, (i < 2 * Z.to_nat (effective_limit limit))%nat
                    /\ item_at ops "" inc i = Some x)
    /\ (length (so_items out) <= Z.to_nat (effective_limit limit))%nat
    /\ (so_truncated out = false ->
        length (so_items out)
        = Nat.min (Z.to_nat (effective_limit limit))
            (length (omap (item_at ops "" inc) (first_indices limit))))
    /\ (forall order, order ≡ₚ first_indices limit ->
          so_items out `prefix_of`
            take (Z.to_nat (effective_limit limit))
              (Py.sorted item_le (omap (item_at ops "" inc) order))).
Proof.
  intros Hk.
  pose proof (ranked_items_eq ops "" limit inc) as Hr.
  change (Py.strip "") with "" in Hr.
  unfold candidate_idxs in Hr. change (String.eqb "" "") with true in Hr. simpl in Hr.
  assert (Z.to_nat (effective_limit limit * 2) = (2 * Z.to_nat (effective_limit limit))%nat)
    as Hmul by (pose proof (effective_limit_range limit); lia).
  rewrite Hmul in Hr.
  assert (length (Py.keys ops) = length ops) as Hlen by (unfold Py.keys; apply length_map).
  rewrite Hlen in Hr. fold (first_indices limit) in Hr.
  assert (elements (list_to_set (C:=gset nat) (first_indices limit)) ≡ₚ first_indices limit)
    as Hel by (apply elements_list_to_set, NoDup_seq).
  eexists. split; [by apply search_operations_eq|]. simpl.
  match goal with |- context [govern _ ?r] =>
    destruct (govern_spec dumps_args r) as (Hp & Ht & _ & Hu); set (ranked := r) in * end.
  split; [|split; [|split]].
  - intros x Hx.
    assert (x ∈ ranked) as Hxr by (destruct Hp as [k ->]; apply elem_of_app; by left).
    unfold ranked in Hxr. apply elem_of_take in Hxr as (j & Hxr%list_elem_of_lookup_2 & _).
    rewrite sorted_perm, Hel in Hxr.
    apply list_elem_of_omap in Hxr as (i & Hi & Hix).
    exists i. split; [|done]. unfold first_indices in Hi.
    apply elem_of_seq in Hi. lia.
  - apply prefix_length in Hp.
    assert (length ranked <= Z.to_nat (effective_limit limit))%nat
      by (unfold ranked; rewrite length_take; lia).
    lia.
  - intros Hf.
    assert (preview_len dumps_args ranked <= BYTE_CAP)%nat as Hle.
    { destruct (Nat.le_gt_cases (preview_len dumps_args ranked) BYTE_CAP) as [H|H]; [done|].
      apply Ht in H. congruence. }
    rewrite (Hu Hle). simpl. unfold ranked.
    by rewrite length_take, sorted_length, Hel.
  - intros order Ho.
    rewrite (ranked_order_independent "" inc _ order
               (elements (list_to_set (C:=gset nat) (first_indices limit)))); [done|done|].
    by rewrite Ho, Hel.
Qed.

End EmptyQuery.

Lemma NoDup_six_ops : NoDup (Py.keys six_ops).
Proof. apply (bool_decide_unpack _). vm_compute. reflexivity. Qed.

Lemma search_empty_query_witness :
  exists out,
    search_operations base64_catalog dumps_enum_args "" (LimitInt 5) false = inr out
    /\ (forall x, x ∈ so_items out ->
          exists i, (i < 2 * Z.to_nat (effective_limit (LimitInt 5)))%nat
                    /\ item_at base64_catalog "" false i = Some x)
    /\ (length (so_items out) <= Z.to_nat (effective_limit (LimitInt 5)))%nat
    /\ (so_truncated out = false ->
        length (so_items out)
        = Nat.min (Z.to_nat (effective_limit (LimitInt 5)))
            (length (omap (item_at base64_catalog "" false)
                       (first_indices base64_catalog (LimitInt 5)))))
    /\ (forall order, order ≡ₚ first_indices base64_catalog (LimitInt 5) ->
          so_items out `prefix_of`
            take (Z.to_nat (effective_limit (LimitInt 5)))
              (Py.sorted item_le (omap (item_at base64_catalog "" false) order))).
Proof.
  apply (search_empty_query base64_catalog dumps_enum_args (LimitInt 5) false).
  apply (bool_decide_unpack _). vm_compute. reflexivity.
Defined.

(** C7, as stated, fails: on a catalog of six operations with long
    descriptions, the five ranked items serialise to more than the cap and
    the governor leaves two. *)
Lemma search_empty_limit_five_returns_two :
  exists out,
    search_operations six_ops dumps_enum_args "" (LimitInt 5) false = inr out
    /\ map i_name (so_items out) = ["From Base64"; "From Hex"]
    /\ so_truncated out = true
    /\ length (so_items out) <> 5%nat.
Proof.
  eexists. split; [vm_compute; reflexivity|]. split; [reflexivity|].
  split; [reflexivity|]. simpl. lia.
Qed.

(** ** Recipes: validation before the execution boundary *)

(** The values of [op_name] on which the [except] block of
    [_validate_recipe] itself raises [TypeError]: a list or a dictionary,
    which is not hashable, and a number or boolean other than [0], [0.0]
    and [False], which [process.extract] does not take as a query. *)
Definition op_name_raises (op_name : json) : bool :=
  match op_name with
  | JList _ | JObj _ => true
  | JInt z => negb (z =? 0)
  | JFloat q => negb (Qeq_bool q 0)
  | JBool b => b
  | JNull | JStr _ => false
  end.

Section RecipeTheorems.
Context {unicode : Unicode} {float64 : Float64} {fuzz : RapidFuzz}.
Context {requests : Requests} {builtins : Builtins}.
Context (ops : list (string * RawOp)) (url : string).

(** The message of step [i], if the step fails validation and the
    [except] block raises nothing. *)
Definition step_outcome (i : nat) (step : RawStep) : option ErrorMsg :=
  match validate_step ops step with
  | inl e =>
      match step_error ops i step e with
      | inr msg => Some (StepInvalid msg)
      | inl _ => None
      end
  | inr _ => None
  end.

Lemma step_error_inl i step e :
  op_name_raises (op_name_of step) = true -> step_error ops i step e = inl TypeError.
Proof.
  unfold step_error, expected_args_of, similar_of.
  destruct (op_name_of step) as [|[]|z|q| | |]; simpl; try done.
  - by intros ->.
  - by intros ->.
Qed.

Lemma step_error_inr i step e :
  op_name_raises (op_name_of step) = false ->
  step_error ops i step e
  = inr {| se_index := i; se_op_name := op_name_of step;
           se_expected_args :=
             match op_name_of step with
             | JStr n => map ra_name (op_args ops n)
             | _ => []
             end;
           se_similar :=
             match op_name_of step with
             | JStr n =>
                 if String.eqb n "" then []
                 else map (fun c => c.1.1) (extract WRatio n (Py.keys ops) 3)
             | _ => []
             end;
           se_details := e |}.
Proof.
  unfold step_error, expected_args_of, similar_of.
  destruct (op_name_of step) as [|[]|z|q|n| |]; simpl; try done.
  - intros H. apply negb_false_iff in H. by rewrite H.
  - intros H. apply negb_false_iff in H. by rewrite H.
  - by destruct (String.eqb n "").
Qed.

Lemma step_error_exn i step e exn :
  step_error ops i step e = inl exn ->
  exn = TypeError /\ op_name_raises (op_name_of step) = true.
Proof.
  destruct (op_name_raises (op_name_of step)) eqn:E.
  - rewrite step_error_inl by done. by intros [= <-].
  - by rewrite step_error_inr by done.
Qed.

(** A step whose [op] is not a string does not pass [RecipeOp]. *)
Lemma raising_step_invalid step :
  op_name_raises (op_name_of step) = true -> exists e, validate_step ops step = inl e.
Proof.
  unfold validate_step, parse_RecipeOp, op_name_of.
  destruct (s_op step) as [[| | | | | |]|]; simpl; try done;
    intros _; destruct (s_args step) as [[| | | | | |]|]; eauto.
Qed.

Lemma validate_from_exn i recipe exn :
  validate_from ops i recipe = inl exn -> exn = TypeError.
Proof.
  revert i. induction recipe as [|step recipe IH]; intros i; [done|].
  cbn [validate_from]. specialize (IH (S i)).
  destruct (validate_step ops step) as [e|o].
  - destruct (step_error ops i step e) as [exn'|msg] eqn:Es.
    + apply step_error_exn in Es as [-> _]. by intros [= <-].
    + destruct (validate_from ops (S i) recipe) as [exn'|[errors validated]]; [|done].
      intros [= <-]. by apply IH.
  - destruct (validate_from ops (S i) recipe) as [exn'|[errors validated]]; [|done].
    intros [= <-]. by apply IH.
Qed.

(** One raising step is enough for the whole loop to raise. *)
Lemma validate_from_raises i recipe step :
  step ∈ recipe -> op_name_raises (op_name_of step) = true ->
  validate_from ops i recipe = inl TypeError.
Proof.
  intros Hin Hr.
  destruct (validate_from ops i recipe) as [exn|[errors validated]] eqn:E.
  { by rewrite (validate_from_exn _ _ _ E). }
  exfalso. revert i errors validated E.
  induction recipe as [|s recipe IH]; intros i errors validated;
    [by apply elem_of_nil in Hin|].
  cbn [validate_from].
  apply elem_of_cons in Hin as [<-|Hin].
  - destruct (raising_step_invalid step Hr) as [e ->].
    by rewrite step_error_inl.
  - specialize (IH Hin (S i)).
    destruct (validate_step ops s) as [e|o].
    + destruct (step_error ops i s e) as [exn'|msg]; [done|].
      destruct (validate_from ops (S i) recipe) as [exn'|[errs vs]]; [done|].
      intros _. by eapply IH.
    + destruct (validate_from ops (S i) recipe) as [exn'|[errs vs]]; [done|].
      intros _. by eapply IH.
Qed.

(** When no [except] block raises, the loop returns the messages of the
    failing steps, in step order. *)
Lemma validate_from_errors i recipe :
  Forall (fun s => op_name_raises (op_name_of s) = false) recipe ->
  exists validated,
    validate_from ops i recipe
    = inr (omap id (imap (fun j step => step_outcome (i + j) step) recipe), validated).
Proof.
  intros H. revert i. induction H as [|step recipe Hs _ IH]; intros i; [by eexists|].
  cbn [validate_from imap].
  rewrite (imap_ext _ (fun j s => step_outcome (S i + j) s)); last first.
  { intros j x _. simpl. f_equal. lia. }
  destruct (IH (S i)) as [validated Hv]. rewrite Hv. clear Hv.
  set (rest := imap _ recipe). rewrite Nat.add_0_r. unfold step_outcome.
  destruct (validate_step ops step) as [e|o]; simpl; [|by eexists].
  rewrite (step_error_inr _ _ _ Hs). simpl. by eexists.
Qed.

Lemma similar_names n :
  (length (map (fun c : string * Q * nat => c.1.1) (extract WRatio n (Py.keys ops) 3)) <= 3)%nat
  /\ forall m, m ∈ map (fun c : string * Q * nat => c.1.1) (extract WRatio n (Py.keys ops) 3) ->
       m ∈ Py.keys ops.
Proof.
  rewrite length_map. split; [apply extract_limit|].
  intros m Hm. apply list_elem_of_fmap in Hm as ([[c s] j] & -> & Hm).
  apply list_elem_of_In, extract_choice in Hm. simpl.
  by eapply list_elem_of_lookup_2.
Qed.

(** What [bake_recipe] and [batch_bake_recipe] see of a recipe with a
    failing step and no raising one. *)
Lemma validate_recipe_rejects recipe :
  Forall (fun s => op_name_raises (op_name_of s) = false) recipe ->
  (exists step e, step ∈ recipe /\ validate_step ops step = inl e) ->
  exists validated,
    _validate_recipe ops recipe = inr (omap id (imap step_outcome recipe), validated, [])
    /\ Py.nonempty (omap id (imap step_outcome recipe)) = true
    /\ forall i step e,
         recipe !! i = Some step -> validate_step ops step = inl e ->
         exists msg,
           step_error ops i step e = inr msg
           /\ StepInvalid msg ∈ omap id (imap step_outcome recipe).
Proof.
  intros Hall (step & e & Hin & He).
  destruct (validate_from_errors 0 recipe Hall) as [validated Hv]. simpl in Hv.
  assert (forall i s e', recipe !! i = Some s -> validate_step ops s = inl e' ->
            exists msg, step_error ops i s e' = inr msg
                        /\ StepInvalid msg ∈ omap id (imap step_outcome recipe)) as Hmem.
  { intros i s e' Hi Hs.
    assert (op_name_raises (op_name_of s) = false) as Hr.
    { rewrite Forall_forall in Hall. apply Hall. by eapply list_elem_of_lookup_2. }
    eexists. split; [by apply step_error_inr|].
    apply list_elem_of_omap. eexists (Some _). split; [|done].
    apply list_elem_of_lookup. exists i. rewrite list_lookup_imap, Hi. simpl.
    unfold step_outcome. by rewrite Hs, (step_error_inr _ _ _ Hr). }
  exists validated. split; [unfold _validate_recipe; by rewrite Hv|]. split; [|done].
  apply list_elem_of_lookup in Hin as [i Hi].
  destruct (Hmem i step e Hi He) as (msg & _ & Hmsg). by eapply nonempty_elem.
Qed.

(** C1 on the code.  A step whose [op] is a list, a dictionary, or a number
    or boolean other than zero and false fails validation, and then the
    [except] block that should build its message raises [TypeError]:
    [bake_recipe] returns no response at all, whatever the other steps are
    (no call is made). *)
Theorem bake_recipe_raises_on_non_string_op
  (input_data : string) (recipe : list RawStep) (log : list (string * json))
  (step : RawStep) :
  step ∈ recipe ->
  op_name_raises (op_name_of step) = true ->
  (exists e, validate_step ops step = inl e)
  /\ bake_recipe ops url input_data recipe log = (inl TypeError, log).
Proof.
  intros Hin Hr. split; [by apply raising_step_invalid|].
  unfold bake_recipe, _validate_recipe.
  destruct recipe as [|s0 recipe]; [by apply elem_of_nil in Hin|].
  cbn [Py.nonempty negb]. by rewrite (validate_from_raises 0 _ step Hin Hr).
Qed.

(** X27.  When a step of the recipe fails validation, and no step has an
    [op] on which the [except] block raises, [bake_recipe] answers [ok = false]
    without a call to the upstream service (the log of calls is unchanged);
    the errors are the messages of the failing steps, in step order; and the
    message of a failing step holds its index, its [op], all argument names
    the catalog declares for the operation, and the names of
    [process.extract] with [limit = 3] for it: at most three, each a name of
    the catalog. *)
Theorem bake_recipe_rejects_invalid_recipe
  (input_data : string) (recipe : list RawStep) (log : list (string * json)) :
  Forall (fun s => op_name_raises (op_name_of s) = false) recipe ->
  (exists step e, step ∈ recipe /\ validate_step ops step = inl e) ->
  exists errs,
    bake_recipe ops url input_data recipe log
    = (inr {| ok := false; output := None; type := None; errors := errs;
              warnings := [] |}, log)
    /\ errs <> []
    /\ errs = omap id (imap step_outcome recipe)
    /\ forall i step e,
         recipe !! i = Some step -> validate_step ops step = inl e ->
         exists se,
           StepInvalid se ∈ errs
           /\ se_index se = i
           /\ se_op_name se = op_name_of step
           /\ se_details se = e
           /\ se_expected_args se
              = match op_name_of step with
                | JStr n => map ra_name (op_args ops n)
                | _ => []
                end
           /\ se_similar se
              = match op_name_of step with
                | JStr n =>
                    if String.eqb n "" then []
                    else map (fun c => c.1.1) (extract WRatio n (Py.keys ops) 3)
                | _ => []
                end
           /\ (length (se_similar se) <= 3)%nat
           /\ (forall n, n ∈ se_similar se -> n ∈ Py.keys ops).
Proof.
  intros Hall Hbad.
  destruct (validate_recipe_rejects recipe Hall Hbad) as (validated & Hv & Hne & Hmem).
  exists (omap id (imap step_outcome recipe)).
  split; [|split; [|split]].
  - unfold bake_recipe. destruct Hbad as (step & e & Hin & _).
    destruct recipe as [|s0 recipe]; [by apply elem_of_nil in Hin|].
    cbn [Py.nonempty negb]. by rewrite Hv, Hne.
  - intros Hnil. by rewrite Hnil in Hne.
  - done.
  - intros i s e Hi Hs. destruct (Hmem i s e Hi Hs) as (msg & Hmsg & Hin).
    assert (op_name_raises (op_name_of s) = false) as Hr.
    { rewrite Forall_forall in Hall. apply Hall. by eapply list_elem_of_lookup_2. }
    rewrite (step_error_inr _ _ _ Hr) in Hmsg. injection Hmsg as <-.
    eexists. split; [exact Hin|]. simpl.
    split; [done|]. split; [done|]. split; [done|]. split; [done|]. split; [done|].
    destruct (op_name_of s) as [| | | |n| |];
      try (split; [simpl; lia | by intros ? ?%elem_of_nil]).
    destruct (String.eqb n ""); [split; [simpl; lia | by intros ? ?%elem_of_nil]|].
    apply similar_names.
Qed.

End RecipeTheorems.

Definition api_url : string := "http://localhost:3000/".

Definition step (o : string) (a : list (string * json)) : RawStep :=
  {| s_op := Some (JStr o); s_args := Some (JObj a) |}.

(** A valid step followed by a misspelt operation. *)
Definition misspelt_recipe : list RawStep :=
  [step "From Base64" []; step "To Base65" [("Alphabet", JStr "url-safe")]].

(** A valid step followed by one whose [op] is the number 5. *)
Definition numbered_recipe : list RawStep :=
  [step "From Base64" []; {| s_op := Some (JInt 5); s_args := Some (JObj []) |}].

Definition server_error : Requests := constant_upstream (PostResponse 500 None).

Example bake_misspelt_recipe :
  bake_recipe (requests := server_error) base64_catalog api_url "SGVsbG8=" misspelt_recipe []
  = (inr {| ok := false; output := None; type := None;
            errors :=
              [StepInvalid
                 {| se_index := 1; se_op_name := JStr "To Base65";
                    se_expected_args := [];
                    se_similar := ["To Base64"; "From Base64"];
                    se_details := [Raised (UnknownOp "To Base65" ["From Base64"; "To Base64"])] |}];
            warnings := [] |}, []).
Proof. vm_compute. reflexivity. Qed.

Example bake_unhashable_op :
  bake_recipe (requests := server_error) base64_catalog api_url "SGVsbG8="
    [{| s_op := Some (JList [JStr "From Base64"]); s_args := None |}] []
  = (inl TypeError, []).
Proof. vm_compute. reflexivity. Qed.

Lemma bake_recipe_raises_on_non_string_op_witness :
  (exists e,
     validate_step base64_catalog {| s_op := Some (JInt 5); s_args := Some (JObj []) |}
     = inl e)
  /\ bake_recipe (requests := server_error) base64_catalog api_url "SGVsbG8="
       numbered_recipe []
     = (inl TypeError, []).
Proof.
  apply (bake_recipe_raises_on_non_string_op (requests := server_error)
           base64_catalog api_url "SGVsbG8=" numbered_recipe []
           {| s_op := Some (JInt 5); s_args := Some (JObj []) |}).
  - apply list_elem_of_In. simpl. auto.
  - reflexivity.
Defined.

Lemma bake_recipe_rejects_invalid_recipe_witness :
  exists errs,
    bake_recipe (requests := server_error) base64_catalog api_url "SGVsbG8=" misspelt_recipe []
    = (inr {| ok := false; output := None; type := None; errors := errs;
              warnings := [] |}, [])
    /\ errs <> []
    /\ errs = omap id (imap (step_outcome base64_catalog) misspelt_recipe)
    /\ forall i step e,
         misspelt_recipe !! i = Some step -> validate_step base64_catalog step = inl e ->
         exists se,
           StepInvalid se ∈ errs
           /\ se_index se = i
           /\ se_op_name se = op_name_of step
           /\ se_details se = e
           /\ se_expected_args se
              = match op_name_of step with
                | JStr n => map ra_name (op_args base64_catalog n)
                | _ => []
                end
           /\ se_similar se
              = match op_name_of step with
                | JStr n =>
                    if String.eqb n "" then []
                    else map (fun c => c.1.1)
                           (extract WRatio n (Py.keys base64_catalog) 3)
                | _ => []
                end
           /\ (length (se_similar se) <= 3)%nat
           /\ (forall n, n ∈ se_similar se -> n ∈ Py.keys base64_catalog).
Proof.
  apply (bake_recipe_rejects_invalid_recipe (requests := server_error)
           base64_catalog api_url "SGVsbG8=" misspelt_recipe []).
  - repeat constructor.
  - exists (step "To Base65" [("Alphabet", JStr "url-safe")]).
    eexists. split; [|vm_compute; reflexivity].
    apply list_elem_of_In. simpl. auto.
Defined.

(** ** Recipes: the empty recipe and the failing upstream *)

Section BoundaryTheorems.
Context {unicode : Unicode} {float64 : Float64} {fuzz : RapidFuzz}.
Context {requests : Requests} {builtins : Builtins}.
Context (ops : list (string * RawOp)) (url : string).

(** [bake_recipe] refuses the empty recipe before anything else. *)
Lemma bake_recipe_empty input_data log :
  bake_recipe ops url input_data [] log
  = (inr {| ok := false; output := None; type := None; errors := [NoOperations];
            warnings := [] |}, log).
Proof. reflexivity. Qed.

Lemma create_api_request_log endpoint request_data log :
  (create_api_request url endpoint request_data log).2
  = log ++ [(url +:+ endpoint, request_data)].
Proof.
  unfold create_api_request.
  destruct (post_and_decode _ _) as [e|j]; [destruct (caught_by_HTTPError e)|]; done.
Qed.

Lemma bind_log {A B} (m : IO A) (k : A -> IO B) log :
  (forall a log', (k a log').2 = log') ->
  (bind m k log).2 = (m log).2.
Proof.
  intros Hk. unfold bind. destruct (m log) as [[e|a] log']; [done | apply Hk].
Qed.

(** C4 on the code.  For the empty recipe [bake_recipe] answers
    [ok = false] with one error and makes no call, but [batch_bake_recipe],
    which has no such test, finds no step in error and sends the request
    [{input, recipe: []}] to [batch/bake]. *)
Theorem batch_bake_empty_recipe_calls_upstream
  (input_data : string) (batch_input_data : list string) (log : list (string * json)) :
  bake_recipe ops url input_data [] log
  = (inr {| ok := false; output := None; type := None; errors := [NoOperations];
            warnings := [] |}, log)
  /\ (batch_bake_recipe ops url batch_input_data [] log).2
     = log ++ [(url +:+ "batch/bake",
                JObj [("input", JList (map JStr batch_input_data));
                      ("recipe", JList [])])].
Proof.
  split; [reflexivity|].
  unfold batch_bake_recipe, _validate_recipe. cbn [validate_from Py.nonempty map].
  rewrite bind_log; [apply create_api_request_log|].
  intros a log'. destruct (iter_response a) as [e|l]; [done|].
  by destruct (read_responses l).
Qed.

(** What the [try] block raises passes [except HTTPError] unless it is an
    instance of [urllib.error.HTTPError]. *)
Lemma create_api_request_raises endpoint request_data log e :
  post_and_decode (url +:+ endpoint) request_data = inl e ->
  caught_by_HTTPError e = false ->
  create_api_request url endpoint request_data log
  = (inl e, log ++ [(url +:+ endpoint, request_data)]).
Proof. intros H1 H2. unfold create_api_request. by rewrite H1, H2. Qed.

(** C8 on the code.  For a recipe that passes validation, an exception of
    the upstream call (a transport failure raised by [requests.post], or
    the [requests] [HTTPError] that [raise_for_status] raises on a status
    from 400 to 599) is not an instance of the [HTTPError] that
    [create_api_request] catches, and leaves [bake_recipe] as it is. *)
Theorem bake_recipe_lets_upstream_failure_through
  (input_data : string) (recipe : list RawStep) (log : list (string * json))
  (validated : list RecipeOp) (e : Exn) :
  recipe <> [] ->
  validate_from ops 0 recipe = inr ([], validated) ->
  post_and_decode (url +:+ "bake")
    (JObj [("input", JStr input_data); ("recipe", JList (map model_dump validated))])
  = inl e ->
  caught_by_HTTPError e = false ->
  (bake_recipe ops url input_data recipe log).1 = inl e.
Proof.
  intros Hne Hv Hp Hc. unfold bake_recipe, _validate_recipe.
  destruct recipe as [|s0 recipe]; [done|]. cbn [Py.nonempty negb].
  rewrite Hv. cbn [Py.nonempty]. unfold bind.
  by rewrite (create_api_request_raises _ _ _ _ Hp Hc).
Qed.

End BoundaryTheorems.

Lemma bake_recipe_lets_upstream_failure_through_witness :
  (bake_recipe (requests := server_error) base64_catalog api_url "SGVsbG8="
     [step "From Base64" []] []).1
  = inl (RequestsHTTPError 500).
Proof.
  apply (bake_recipe_lets_upstream_failure_through (requests := server_error)
           base64_catalog api_url "SGVsbG8=" [step "From Base64" []] []
           [{| op := "From Base64"; args := [] |}] (RequestsHTTPError 500)).
  - discriminate.
  - vm_compute. reflexivity.
  - reflexivity.
  - reflexivity.
Defined.

Example bake_recipe_connection_refused :
  bake_recipe (requests := constant_upstream (PostRaises RequestsConnectionError))
    base64_catalog api_url "SGVsbG8=" [step "From Base64" []] []
  = (inl RequestsConnectionError,
     [("http://localhost:3000/bake",
       JObj [("input", JStr "SGVsbG8=");
             ("recipe", JList [JObj [("op", JStr "From Base64"); ("args", JObj [])]])])]).
Proof. vm_compute. reflexivity. Qed.

(** ** The advisory pass *)

Section AdvisoryTheorems.
Context {unicode : Unicode} {float64 : Float64} {fuzz : RapidFuzz}.
Context (ops : list (string * RawOp)).

(** Every iteration leaves a trace of its step: the step itself in
    [normalized], or a message or a suggestion with its index. *)
Lemma advise_step_covers i step :
  step ∈ (advise_step ops i step).2
  \/ missing_op_message i ∈ (advise_step ops i step).1.1
  \/ exists s, s ∈ (advise_step ops i step).1.2 /\ index s = i /\ is_Some (candidates s).
Proof.
  unfold advise_step. destruct (String.eqb (Py.strip (op step)) "").
  - right. left. simpl. left.
  - destruct (negb (Py.contains (Py.strip (op step)) ops)).
    + right. right. eexists. split; [simpl; left|]. simpl. eauto.
    + left. simpl. left.
Qed.

Lemma advise_from_covers i recipe j step :
  recipe !! j = Some step ->
  step ∈ (advise_from ops i recipe).2
  \/ missing_op_message (i + j) ∈ (advise_from ops i recipe).1.1
  \/ exists s, s ∈ (advise_from ops i recipe).1.2 /\ index s = (i + j)%nat.
Proof.
  revert i j. induction recipe as [|x recipe IH]; intros i j Hj; [done|].
  cbn [advise_from].
  destruct (advise_step ops i x) as [[e s] n] eqn:Ex.
  destruct (advise_from ops (S i) recipe) as [[es ss] ns] eqn:Er. simpl.
  destruct j as [|j]; simpl in Hj.
  - injection Hj as ->. rewrite Nat.add_0_r.
    pose proof (advise_step_covers i step) as H. rewrite Ex in H. simpl in H.
    destruct H as [H|[H|(sg & H & Hi & _)]].
    + left. apply elem_of_app. by left.
    + right. left. apply elem_of_app. by left.
    + right. right. exists sg. split; [apply elem_of_app; by left | done].
  - specialize (IH (S i) j Hj). rewrite Er in IH. simpl in IH.
    replace (i + S j)%nat with (S i + j)%nat by lia.
    destruct IH as [H|[H|(sg & H & Hi)]].
    + left. apply elem_of_app. by right.
    + right. left. apply elem_of_app. by right.
    + right. right. exists sg. split; [apply elem_of_app; by right | done].
Qed.

(** C9.  [validate_recipe] is a total function of the recipe (it returns a
    response for every list of steps), and every step of the input is in
    [normalized], or [errors] holds the message of its index, or
    [suggestions] holds an entry with its index. *)
Theorem validate_recipe_covers_every_step
  (recipe : list RecipeOp) (i : nat) (step : RecipeOp) :
  recipe !! i = Some step ->
  step ∈ vr_normalized (validate_recipe ops recipe)
  \/ missing_op_message i ∈ vr_errors (validate_recipe ops recipe)
  \/ exists s, s ∈ vr_suggestions (validate_recipe ops recipe) /\ index s = i.
Proof.
  intros Hi. pose proof (advise_from_covers 0 recipe i step Hi) as H.
  unfold validate_recipe.
  destruct (advise_from ops 0 recipe) as [[errors suggestions] normalized]. exact H.
Qed.

End AdvisoryTheorems.

(** A blank operation name, an unknown operation, a known operation with an
    unexpected key and a missing one, and a well-formed step. *)
Definition malformed_recipe : list RecipeOp :=
  [{| op := "  "; args := [] |};
   {| op := "To Base65"; args := [] |};
   {| op := "To Base64"; args := [("alphabet", JStr "x")] |};
   {| op := "From Base64"; args := [] |}].

Example validate_malformed_recipe :
  validate_recipe base64_catalog malformed_recipe
  = {| vr_ok := false;
       vr_errors := ["Step 0 missing 'op' name"];
       vr_suggestions :=
         [{| index := 1; sg_op := "To Base65";
             candidates := Some ["To Base64"; "From Base64"]; missingArgs := None |};
          {| index := 2; sg_op := "To Base64"; candidates := None; missingArgs := None |};
          {| index := 2; sg_op := "To Base64"; candidates := None;
             missingArgs := Some ["Alphabet"] |}];
       vr_normalized :=
         [{| op := "To Base64"; args := [("alphabet", JStr "x")] |};
          {| op := "From Base64"; args := [] |}] |}.
Proof. vm_compute. reflexivity. Qed.

Lemma validate_recipe_covers_every_step_witness :
  {| op := "To Base65"; args := [] |}
    ∈ vr_normalized (validate_recipe base64_catalog malformed_recipe)
  \/ missing_op_message 1 ∈ vr_errors (validate_recipe base64_catalog malformed_recipe)
  \/ exists s, s ∈ vr_suggestions (validate_recipe base64_catalog malformed_recipe)
               /\ index s = 1%nat.
Proof.
  apply (validate_recipe_covers_every_step base64_catalog malformed_recipe 1
           {| op := "To Base65"; args := [] |}).
  reflexivity.
Defined.

(** * Further properties of the code *)

(** ** [_slug] beyond ASCII *)

(** Beyond ASCII a slug can hold any letter, and the slug of a slug can be
    another string: the lower case of U+0130 ends with a combining dot,
    which is not alphanumeric. *)
Example slug_beyond_ascii :
  _slug (Py.bytes [67; 97; 102; 195; 137]%nat) = Py.bytes [99; 97; 102; 195; 169]%nat
  /\ _slug (Py.bytes [196; 176]%nat) = Py.bytes [105; 204; 135]%nat
  /\ _slug (_slug (Py.bytes [196; 176]%nat)) = "i".
Proof. vm_compute. auto. Qed.

Lemma slug_idempotent_witness :
  _slug (_slug "URL safe: A-Za-z0-9-_") = _slug "URL safe: A-Za-z0-9-_".
Proof.
  apply (slug_idempotent "URL safe: A-Za-z0-9-_"). reflexivity.
Defined.

(** ** [_enum_table] and [_normalize_enum]: what a value can become *)

Section EnumValues.
Context {unicode : Unicode}.


Lemma buckets_of_labels pairs s labels l :
  (s, labels) ∈ buckets_of pairs -> l ∈ labels -> (s, l) ∈ pairs.
Proof.
  intros Hb Hl.
  apply (get_elem_NoDup _ _ _ (buckets_of_NoDup pairs)) in Hb.
  rewrite buckets_of_get in Hb. unfold labels_of in Hb.
  destruct (map snd _) eqn:E; [done|]. injection Hb as <-. rewrite <- E in Hl.
  apply list_elem_of_fmap in Hl as ([s' l'] & -> & Hl).
  apply list_elem_of_filter in Hl as [Hs Hl]. simpl in Hs. by subst.
Qed.

Lemma make_buckets_labels opts s labels l :
  (s, labels) ∈ make_buckets (map _slug opts) opts -> l ∈ labels ->
  l ∈ opts /\ _slug l = s.
Proof.
  rewrite make_buckets_eq. intros Hb Hl.
  pose proof (buckets_of_labels _ _ _ _ Hb Hl) as H.
  apply list_elem_of_fmap in H as (o & [= -> ->] & Ho). done.
Qed.

(** The values of a dictionary all satisfy [P]. *)
Definition values_in (P : string -> Prop) (d : list (string * string)) : Prop :=
  forall k v, (k, v) ∈ d -> P v.

Lemma set_values_in P k v d : P v -> values_in P d -> values_in P (Py.set k v d).
Proof.
  intros Hv. induction d as [|[k' v'] d IH]; intros Hd k0 v0; simpl.
  - by intros [= -> ->]%list_elem_of_singleton.
  - destruct (String.eqb k k').
    + intros [[= -> ->]|H]%elem_of_cons; [done|]. eapply Hd. by right.
    + intros [[= -> ->]|H]%elem_of_cons.
      * eapply Hd. left.
      * eapply IH; [|done]. intros k1 v1 H1. eapply Hd. by right.
Qed.

Lemma write_numbered_values_in P slug idx labels out :
  (forall l, l ∈ labels -> P l) -> values_in P out ->
  values_in P (write_numbered slug idx labels out).
Proof.
  revert idx out. induction labels as [|l labels IH]; intros idx out Hl Ho; simpl; [done|].
  apply IH.
  - intros l' Hl'. apply Hl. by right.
  - apply set_values_in; [apply Hl; left | done].
Qed.

Lemma fold_write_bucket_values_in P slugs bs out :
  (forall s labels l, (s, labels) ∈ bs -> l ∈ labels -> P l) ->
  values_in P out -> values_in P (fold_left (write_bucket slugs) bs out).
Proof.
  revert out. induction bs as [|[s labels] bs IH]; intros out Hb Ho; simpl; [done|].
  apply IH.
  - intros s' ls l H. apply (Hb s' ls). by right.
  - assert (forall l, l ∈ labels -> P l) as Hl by (intros l; apply (Hb s labels); left).
    destruct (Nat.eqb _ 1).
    + destruct labels as [|l0 ?]; [done|]. apply set_values_in; [apply Hl; left | done].
    + by apply write_numbered_values_in.
Qed.

(** Every value of the table is a declared option. *)
Lemma table_of_options_values opts : values_in (fun v => v ∈ opts) (table_of_options opts).
Proof.
  rewrite table_of_options_fold. apply fold_write_bucket_values_in.
  - intros s labels l Hb Hl. by destruct (make_buckets_labels _ _ _ _ Hb Hl).
  - by intros k v ?%elem_of_nil.
Qed.

Lemma find_elem {A} (p : A -> bool) (l : list A) x : List.find p l = Some x -> x ∈ l.
Proof. intros H%find_some. apply list_elem_of_In. tauto. Qed.

(** X4.  [_normalize_enum] never invents a value: it returns its argument
    unchanged, or one of the option labels that the catalog declares for the
    first argument of that name of the operation. *)
Theorem normalize_enum_returns_declared_label
  (ops : list (string * RawOp)) (op arg_name : string) (val : json) :
  _normalize_enum ops op arg_name val = val
  \/ exists a label,
       List.find (fun x => String.eqb (ra_name x) arg_name) (op_args ops op) = Some a
       /\ label ∈ raw_options a
       /\ _normalize_enum ops op arg_name val = JStr label.
Proof.
  unfold _normalize_enum, _enum_table. destruct val as [| | | |s| |]; auto.
  destruct (List.find _ (op_args ops op)) as [a|]; [|by left].
  destruct (Py.get (_slug s) (table_of_options (raw_options a))) as [label|] eqn:E.
  - right. exists a, label. split; [done|]. split; [|done].
    apply get_Some_elem in E. by apply table_of_options_values in E.
  - unfold first_with_prefix.
    destruct (List.find _ (table_of_options (raw_options a))) as [[k v]|] eqn:F; simpl;
      [|by left].
    right. exists a, v. split; [done|]. split; [|done].
    apply find_elem in F. by apply table_of_options_values in F.
Qed.

(** An unknown operation or argument name has no table: the value is left
    alone. *)
Lemma normalize_enum_unknown_argument ops op arg_name val :
  List.find (fun x => String.eqb (ra_name x) arg_name) (op_args ops op) = None ->
  _normalize_enum ops op arg_name val = val.
Proof.
  intros H. unfold _normalize_enum, _enum_table. rewrite H. by destruct val.
Qed.





(** ** [get_operation_args] *)

Record ArgItem := {
  ai_name : string;
  ai_type : string;
  ai_required : bool;
  ai_options : option (list string);
  ai_options_total : option nat;
}.

Record GetOperationArgsOut := {
  ga_ok : bool;
  ga_op : option string;
  ga_args : list ArgItem;
  ga_error : option string;
}.

(** The body of the loop of [get_operation_args] for one argument. *)
Definition arg_item (compact : bool) (a : RawArg) : ArgItem :=
  let t := default "" (ra_type a) in
  if String.eqb t "enum" || String.eqb t "option" then
    let opts := raw_options a in
    {| ai_name := ra_name a; ai_type := t; ai_required := default false (ra_required a);
       ai_options := Some (if compact then map _slug opts else opts);
       ai_options_total := Some (length opts) |}
  else
    {| ai_name := ra_name a; ai_type := t; ai_required := default false (ra_required a);
       ai_options := None; ai_options_total := None |}.

(** [get_operation_args]: the test [if not op_def] refuses an operation
    that the catalog does not hold, and one whose entry is empty. *)
Definition get_operation_args (ops : list (string * RawOp)) (op : string)
  (compact : bool) : GetOperationArgsOut :=
  let unknown :=
    {| ga_ok := false; ga_op := None; ga_args := [];
       ga_error := Some ("Unknown op: " +:+ op) |} in
  match Py.get op ops with
  | None => unknown
  | Some op_def =>
      if negb (entry_nonempty op_def) then unknown
      else
        {| ga_ok := true; ga_op := Some op;
           ga_args := map (arg_item compact) (r_args op_def); ga_error := None |}
  end.



End EnumValues.


(** X6.  For an operation that the catalog does not hold, or holds with
    an empty entry, [get_operation_args] answers [ok = false] with the error
    [Unknown op] and no arguments; for any other operation of the catalog
    it lists one item per declared argument, in the catalog's order and
    under the catalog's names, whatever [compact] is. *)
Theorem get_operation_args_lists_arguments
  {unicode : Unicode} (ops : list (string * RawOp)) (op : string) (compact : bool) :
  ((Py.get op ops = None
    \/ exists r, Py.get op ops = Some r /\ entry_nonempty r = false) ->
     get_operation_args ops op compact
     = {| ga_ok := false; ga_op := None; ga_args := [];
          ga_error := Some ("Unknown op: " +:+ op) |})
  /\ (forall r, Py.get op ops = Some r -> entry_nonempty r = true ->
     ga_ok (get_operation_args ops op compact) = true
     /\ ga_op (get_operation_args ops op compact) = Some op
     /\ ga_error (get_operation_args ops op compact) = None
     /\ map ai_name (ga_args (get_operation_args ops op compact))
        = map ra_name (r_args r)
     /\ map ai_options_total (ga_args (get_operation_args ops op true))
        = map ai_options_total (ga_args (get_operation_args ops op false))).
Proof.
  unfold get_operation_args. split.
  - intros [->|(r & -> & ->)]; done.
  - intros r -> ->. simpl. split; [done|]. split; [done|]. split; [done|].
    rewrite !map_map. split.
    + apply map_ext. intros a. unfold arg_item. by destruct (_ || _).
    + apply map_ext. intros a. unfold arg_item. by destruct (_ || _).
Qed.

(** An entry without a key is refused although the catalog names the
    operation. *)
Example get_operation_args_empty_entry :
  get_operation_args
    [("Nothing", {| r_module := None; r_description := None; r_inputType := None;
                    r_outputType := None; r_args_entry := None; r_other_keys := [] |})]
    "Nothing" true
  = {| ga_ok := false; ga_op := None; ga_args := [];
       ga_error := Some "Unknown op: Nothing" |}.
Proof. reflexivity. Qed.

(** ** [validate_args]: when a mapping is accepted *)

Lemma check_args_None args provided :
  check_args args provided = None <->
  forall a, a ∈ args ->
    match Py.get (arg_name a) provided with
    | None => arg_required a = false
    | Some v => check_value a v = None
    end.
Proof.
  induction args as [|a args IH]; simpl.
  - split; [by intros _ a ?%elem_of_nil | done].
  - split.
    + intros H b [->|Hb]%elem_of_cons.
      * destruct (Py.get (arg_name a) provided) as [v|].
        -- by destruct (check_value a v).
        -- by destruct (arg_required a).
      * apply IH; [|done].
        destruct (Py.get (arg_name a) provided) as [v|].
        -- by destruct (check_value a v).
        -- by destruct (arg_required a).
    + intros H. pose proof (H a ltac:(left)) as Ha.
      destruct (Py.get (arg_name a) provided) as [v|].
      * rewrite Ha. apply IH. intros b Hb. apply H. by right.
      * rewrite Ha. apply IH. intros b Hb. apply H. by right.
Qed.

Lemma nonempty_false {A} (l : list A) : Py.nonempty l = false <-> l = [].
Proof. by destruct l. Qed.

Lemma validate_args_inr d provided p :
  validate_args d provided = inr p -> p = provided.
Proof.
  unfold validate_args. destruct (Py.nonempty _); [done|].
  destruct (check_args (od_args d) provided); [done|]. by intros [= <-].
Qed.

(** X7.  [validate_args] accepts a mapping exactly when every key is a
    declared argument name, every required argument is supplied, and every
    supplied value of a declared argument passes the check of its kind; what
    it returns is the mapping itself. *)
Theorem validate_args_accepts_iff (d : OperationDef) (provided : list (string * json)) :
  (validate_args d provided = inr provided <->
     (forall k, k ∈ Py.keys provided -> k ∈ map arg_name (od_args d))
     /\ (forall a, a ∈ od_args d ->
           match Py.get (arg_name a) provided with
           | None => arg_required a = false
           | Some v => check_value a v = None
           end))
  /\ (forall p, validate_args d provided = inr p -> p = provided).
Proof.
  unfold validate_args. split.
  - destruct (Py.nonempty (elements (unknown_args d provided))) eqn:E.
    + split; [done|]. intros [Hk _].
      destruct (elements (unknown_args d provided)) as [|k l] eqn:El; [done|].
      assert (k ∈ unknown_args d provided) as Hin
          by (apply elem_of_elements; rewrite El; left).
      apply elem_of_unknown_args in Hin as [H1 H2]. destruct H2. auto.
    + apply nonempty_false in E.
      assert (forall k, k ∈ Py.keys provided -> k ∈ map arg_name (od_args d)) as Hk.
      { intros k Hk. destruct (decide (k ∈ map arg_name (od_args d))) as [|Hn]; [done|].
        assert (k ∈ elements (unknown_args d provided)) as Hin
            by (apply elem_of_elements, elem_of_unknown_args; done).
        rewrite E in Hin. by apply elem_of_nil in Hin. }
      rewrite <- check_args_None.
      destruct (check_args (od_args d) provided); split; try done.
      * by intros [_ ?].
  - destruct (Py.nonempty _); [done|].
    destruct (check_args (od_args d) provided); [done|]. by intros p [= <-].
Qed.

(** X8.  A number argument accepts exactly the values that are numbers (a
    boolean counts as 0 or 1) and lie within the declared bounds, the bounds
    included; an enum argument accepts exactly the strings equal to one of
    its options. *)
Theorem number_and_enum_checks (name : string) (v : json) :
  (forall min max required,
     check_value (NumberArgDef name min max required) v = None <->
     exists x, as_number v = Some x
               /\ (forall lo, min = Some lo -> (lo <= x)%Q)
               /\ (forall hi, max = Some hi -> (x <= hi)%Q))
  /\ (forall options required,
        check_value (EnumArgDef name options required) v = None <->
        exists s, v = JStr s /\ s ∈ options).
Proof.
  split.
  - intros min max required. simpl. destruct (as_number v) as [x|]; last first.
    { split; [done | by intros (x & [=] & _)]. }
    assert (forall a b, Py.Qltb a b = false <-> (b <= a)%Q) as Hlt.
    { intros a b. unfold Py.Qltb. rewrite negb_false_iff. apply Qle_bool_iff. }
    assert (forall a b, Py.Qltb a b = true -> ~ (b <= a)%Q) as Hgt.
    { intros a b H Hle. apply Hlt in Hle. congruence. }
    split.
    + intros H. exists x. split; [done|].
      destruct min as [lo|], max as [hi|];
        repeat match type of H with
               | context [Py.Qltb ?a ?b] => destruct (Py.Qltb a b) eqn:?; try discriminate H
               end;
        split; intros ? [= <-]; by apply Hlt.
    + intros (x' & [= <-] & Hlo & Hhi).
      destruct min as [lo|], max as [hi|]; try done.
      * pose proof (proj2 (Hlt _ _) (Hlo _ eq_refl)) as ->.
        by pose proof (proj2 (Hlt _ _) (Hhi _ eq_refl)) as ->.
      * by pose proof (proj2 (Hlt _ _) (Hlo _ eq_refl)) as ->.
      * by pose proof (proj2 (Hlt _ _) (Hhi _ eq_refl)) as ->.
  - intros options required. simpl. unfold json_in.
    destruct v as [| | | |s| |]; try (split; [done | by intros (s' & [=] & _)]).
    destruct (Py.str_in s options) eqn:E.
    + split; [|done]. intros _. exists s. split; [done|]. by apply str_in_spec.
    + split; [done|]. intros (s' & [= <-] & Hs). apply str_in_spec in Hs. congruence.
Qed.

(** X9.  A bytes argument accepts a string, or an object whose [value] is
    a string and whose [encoding] is absent, null, or a string that belongs
    to the declared encodings when any are declared. *)
Theorem bytes_check (name : string) (encodings : list string) (required : bool) (v : json) :
  check_value (BytesArgDef name encodings required) v = None <->
  (exists s, v = JStr s)
  \/ (exists d val,
        v = JObj d /\ Py.get "value" d = Some (JStr val)
        /\ (Py.get "encoding" d = None
            \/ Py.get "encoding" d = Some JNull
            \/ exists e, Py.get "encoding" d = Some (JStr e)
                         /\ (encodings = [] \/ e ∈ encodings))).
Proof.
  simpl. destruct v as [| | | |s|l|d];
    try (split; [done | intros [(s' & [=])|(d' & val & [=] & _)]]).
  { split; [eauto | done]. }
  destruct (Py.get "value" d) as [val|] eqn:Ev; last first.
  { split; [done | intros [(s' & [=])|(d' & val & [= <-] & H & _)]]. congruence. }
  split.
  - intros H. right.
    destruct (Py.get "encoding" d) as [enc|] eqn:Ee.
    + destruct enc as [| | | |e| |];
        try (destruct (Py.nonempty encodings && _); discriminate H).
      * destruct val; try discriminate H. exists d, s. eauto.
      * simpl in H. destruct (Py.nonempty encodings && _) eqn:En; [discriminate H|].
        destruct val; try discriminate H. exists d, s. split; [done|]. split; [done|].
        right. right. exists e. split; [done|].
        apply andb_false_iff in En as [En|En].
        -- left. by apply nonempty_false.
        -- right. apply negb_false_iff in En. by apply str_in_spec.
    + destruct val; try discriminate H. exists d, s. eauto.
  - intros [(s' & [=])|(d' & val' & [= <-] & Hv & He)].
    rewrite Ev in Hv. injection Hv as ->.
    destruct He as [->|[->|(e & -> & He)]]; try done.
    simpl. destruct He as [->|He]; [done|].
    apply str_in_spec in He. rewrite He. simpl. by rewrite andb_false_r.
Qed.

(** ** [load_definitions]: the registry *)

Definition registry_step (op_registry : list (string * OperationDef))
  (entry : string * RawOp) : list (string * OperationDef) :=
  let '(op_name, op_def) := entry in
  match model_validate op_def with
  | Some d => Py.set op_name d op_registry
  | None => op_registry
  end.

Lemma load_definitions_fold ops : load_definitions ops = fold_left registry_step ops [].
Proof. unfold load_definitions, registry_step. f_equal. Qed.

Lemma registry_fold_get ops acc n :
  NoDup (Py.keys ops) ->
  Py.get n (fold_left registry_step ops acc)
  = match Py.get n ops ≫= model_validate with
    | Some d => Some d
    | None => Py.get n acc
    end.
Proof.
  revert acc. induction ops as [|[k r] ops IH]; intros acc Hnd; [done|].
  unfold Py.keys in Hnd. simpl in Hnd. apply NoDup_cons in Hnd as [Hk Hnd].
  simpl. rewrite (IH _ Hnd). destruct (String.eqb n k) eqn:E.
  - apply String.eqb_eq in E as ->.
    apply get_None_keys in Hk. rewrite Hk. simpl.
    destruct (model_validate r); [by rewrite get_set_eq | done].
  - apply String.eqb_neq in E.
    destruct (Py.get n ops ≫= model_validate); [done|].
    destruct (model_validate r); [by rewrite get_set_ne | done].
Qed.

Lemma registry_get (ops : list (string * RawOp)) (n : string) :
  NoDup (Py.keys ops) ->
  Py.get n (load_definitions ops) = Py.get n ops ≫= model_validate.
Proof.
  intros Hnd. rewrite load_definitions_fold, registry_fold_get by done.
  by destruct (Py.get n ops ≫= model_validate).
Qed.

(** X10.  The registry holds an operation exactly when the catalog holds it
    and its entry parses, and then holds the parsed entry: an entry that
    does not parse is skipped without touching the others. *)
Theorem load_definitions_lookup (ops : list (string * RawOp)) (n : string) :
  NoDup (Py.keys ops) ->
  Py.get n (load_definitions ops) = Py.get n ops ≫= model_validate.
Proof. apply registry_get. Qed.

(** A catalog with an entry that does not parse: its argument has the type
    [option], which is none of the five kinds. *)
Definition mixed_catalog : list (string * RawOp) :=
  [("To Hex",
    raw_op "Default" "Converts the input to hexadecimal bytes."
      [{| ra_name := "Delimiter"; ra_type := Some "option"; ra_options := None;
          ra_value := Some ["Space"; "Comma"]; ra_required := None; ra_min := None;
          ra_max := None; ra_encodings := None |}]);
   ("From Base64",
    raw_op "Default" "Decodes data from an ASCII Base64 string back into its raw format." [])].

Lemma load_definitions_lookup_witness :
  Py.get "To Hex" (load_definitions mixed_catalog)
  = Py.get "To Hex" mixed_catalog ≫= model_validate.
Proof.
  apply (load_definitions_lookup mixed_catalog "To Hex").
  apply (bool_decide_unpack _). vm_compute. reflexivity.
Defined.

Example mixed_catalog_registry :
  Py.keys (load_definitions mixed_catalog) = ["From Base64"].
Proof. vm_compute. reflexivity. Qed.

(** X11.  A step that names an operation of the catalog whose entry does
    not parse is refused as an unknown operation, although the error
    message still lists the argument names of the entry. *)
Theorem unparsed_operation_is_refused
  {unicode : Unicode} {fuzz : RapidFuzz}
  (ops : list (string * RawOp)) (i : nat) (o : string)
  (a : list (string * json)) (r : RawOp) :
  NoDup (Py.keys ops) ->
  Py.get o ops = Some r ->
  model_validate r = None ->
  exists allowed msg,
    validate_step ops {| s_op := Some (JStr o); s_args := Some (JObj a) |}
    = inl [Raised (UnknownOp o allowed)]
    /\ (o ∉ allowed)
    /\ step_error ops i {| s_op := Some (JStr o); s_args := Some (JObj a) |}
         [Raised (UnknownOp o allowed)]
       = inr msg
    /\ se_expected_args msg = map ra_name (r_args r).
Proof.
  intros Hnd Hget Hparse.
  exists (Py.sorted Py.str_le (Py.keys (load_definitions ops))).
  assert (Py.get o (load_definitions ops) = None) as Hreg
      by (rewrite registry_get, Hget by done; simpl; done).
  eexists. split; [|split; [|split]].
  - unfold validate_step, validate_against_catalog. simpl. by rewrite Hreg.
  - rewrite sorted_perm. by apply get_None_keys.
  - by apply step_error_inr.
  - simpl. unfold op_args. by rewrite Hget.
Qed.

Lemma unparsed_operation_is_refused_witness :
  exists allowed msg,
    validate_step mixed_catalog {| s_op := Some (JStr "To Hex"); s_args := Some (JObj []) |}
    = inl [Raised (UnknownOp "To Hex" allowed)]
    /\ ("To Hex" ∉ allowed)
    /\ step_error mixed_catalog 0
         {| s_op := Some (JStr "To Hex"); s_args := Some (JObj []) |}
         [Raised (UnknownOp "To Hex" allowed)]
       = inr msg
    /\ se_expected_args msg
       = map ra_name
           (r_args (raw_op "Default" "Converts the input to hexadecimal bytes."
              [{| ra_name := "Delimiter"; ra_type := Some "option"; ra_options := None;
                  ra_value := Some ["Space"; "Comma"]; ra_required := None;
                  ra_min := None; ra_max := None; ra_encodings := None |}])).
Proof.
  apply (unparsed_operation_is_refused mixed_catalog 0 "To Hex" []).
  - apply (bool_decide_unpack _). vm_compute. reflexivity.
  - reflexivity.
  - reflexivity.
Defined.

(** ** [bake_recipe] and [batch_bake_recipe]: what reaches the upstream *)

Section BakeFacts.
Context {unicode : Unicode} {float64 : Float64} {fuzz : RapidFuzz}.
Context {requests : Requests} {builtins : Builtins}.
Context (ops : list (string * RawOp)) (url : string).

Lemma validate_from_all_valid i recipe validated :
  Forall2 (fun s o => validate_step ops s = inr o) recipe validated ->
  validate_from ops i recipe = inr ([], validated).
Proof.
  intros H. revert i. induction H as [|s o recipe validated Hs _ IH]; intros i; [done|].
  simpl. by rewrite (IH (S i)), Hs.
Qed.

(** X12.  A step that passes validation goes upstream under the operation
    name and the argument keys it came with, each value normalised by
    [_normalize_enum], and the arguments are accepted by the operation's
    parsed definition. *)
Theorem validated_step_keeps_shape (s : RawStep) (o : RecipeOp) :
  validate_step ops s = inr o ->
  s_op s = Some (JStr (op o))
  /\ (exists a,
        (s_args s = None /\ a = [] \/ s_args s = Some (JObj a))
        /\ Py.keys (args o) = Py.keys a
        /\ args o = map (fun kv => (kv.1, _normalize_enum ops (op o) kv.1 kv.2)) a)
  /\ exists d,
       Py.get (op o) (load_definitions ops) = Some d
       /\ validate_args d (args o) = inr (args o).
Proof.
  unfold validate_step, validate_against_catalog, parse_RecipeOp.
  destruct (s_op s) as [[| | | |n| |]|] eqn:En;
    try (destruct (s_args s) as [[]|]; done).
  assert (forall a,
            (s_args s = None /\ a = [] \/ s_args s = Some (JObj a)) ->
            match Py.get n (load_definitions ops) with
            | Some d =>
                match validate_args d
                        (map (fun kv => (kv.1, _normalize_enum ops n kv.1 kv.2)) a) with
                | inl e => inl [Raised e]
                | inr _ =>
                    inr {| op := n;
                           args := map (fun kv => (kv.1, _normalize_enum ops n kv.1 kv.2)) a |}
                end
            | None =>
                inl [Raised (UnknownOp n
                       (Py.sorted Py.str_le (Py.keys (load_definitions ops))))]
            end = inr o ->
            Some (JStr n) = Some (JStr (op o))
            /\ (exists a0,
                  (s_args s = None /\ a0 = [] \/ s_args s = Some (JObj a0))
                  /\ Py.keys (args o) = Py.keys a0
                  /\ args o = map (fun kv => (kv.1, _normalize_enum ops (op o) kv.1 kv.2)) a0)
            /\ exists d,
                 Py.get (op o) (load_definitions ops) = Some d
                 /\ validate_args d (args o) = inr (args o)) as Hmain.
  { intros a Ha. destruct (Py.get n (load_definitions ops)) as [d|] eqn:Ed; [|done].
    destruct (validate_args d _) as [e|p] eqn:Ev; [done|]. intros [= <-]. simpl.
    split; [done|]. split.
    - exists a. split; [done|]. split; [|done].
      unfold Py.keys. rewrite map_map. by apply map_ext.
    - exists d. split; [done|].
      pose proof (validate_args_inr d _ _ Ev) as ->. done. }
  destruct (s_args s) as [[| | | | | |a]|] eqn:Ea; try done.
  - apply (Hmain a). by right.
  - apply (Hmain []). by left.
Qed.

(** X13.  For a recipe that is not empty and all of whose steps pass
    validation, [bake_recipe] makes exactly one call: to [bake], with the
    input and the validated steps, as many as the recipe has and in its
    order. *)
Theorem bake_recipe_sends_validated_recipe
  (input_data : string) (recipe : list RawStep) (validated : list RecipeOp)
  (log : list (string * json)) :
  recipe <> [] ->
  Forall2 (fun s o => validate_step ops s = inr o) recipe validated ->
  (bake_recipe ops url input_data recipe log).2
  = log ++ [(url +:+ "bake",
             JObj [("input", JStr input_data);
                   ("recipe", JList (map model_dump validated))])]
  /\ length validated = length recipe.
Proof.
  intros Hne Hall. split; [|symmetry; by eapply Forall2_length].
  unfold bake_recipe, _validate_recipe.
  destruct recipe as [|s0 recipe]; [done|]. cbn [Py.nonempty negb].
  rewrite (validate_from_all_valid 0 _ _ Hall). cbn [Py.nonempty].
  rewrite bind_log; [apply create_api_request_log|].
  intros a log'. by destruct (read_response a []).
Qed.

(** X14.  When a step of the recipe fails validation, and no step has an
    [op] on which the [except] block raises, [batch_bake_recipe] returns a
    single result with [ok = false] that carries the messages of all
    failing steps, and makes no call. *)
Theorem batch_bake_rejects_invalid_recipe
  (batch_input_data : list string) (recipe : list RawStep) (log : list (string * json)) :
  Forall (fun s => op_name_raises (op_name_of s) = false) recipe ->
  (exists step e, step ∈ recipe /\ validate_step ops step = inl e) ->
  batch_bake_recipe ops url batch_input_data recipe log
  = (inr [{| ok := false; output := None; type := None;
             errors := omap id (imap (step_outcome ops) recipe); warnings := [] |}], log)
  /\ omap id (imap (step_outcome ops) recipe) <> []
  /\ forall i step e,
       recipe !! i = Some step -> validate_step ops step = inl e ->
       exists msg,
         step_error ops i step e = inr msg
         /\ StepInvalid msg ∈ omap id (imap (step_outcome ops) recipe).
Proof.
  intros Hall Hbad.
  destruct (validate_recipe_rejects ops recipe Hall Hbad) as (validated & Hv & Hne & Hmem).
  split; [|split; [|done]].
  - unfold batch_bake_recipe. by rewrite Hv, Hne.
  - intros Hnil. by rewrite Hnil in Hne.
Qed.

(** X15.  For a valid recipe, when the upstream answers with an object
    that holds [error] and no [value], [bake_recipe] returns [ok = false]
    with the text of that error as its only error. *)
Theorem bake_recipe_reports_upstream_error
  (input_data : string) (recipe : list RawStep) (validated : list RecipeOp)
  (log : list (string * json)) (d : list (string * json)) (err : json) :
  recipe <> [] ->
  Forall2 (fun s o => validate_step ops s = inr o) recipe validated ->
  post_and_decode (url +:+ "bake")
    (JObj [("input", JStr input_data); ("recipe", JList (map model_dump validated))])
  = inr (JObj d) ->
  Py.get "value" d = None ->
  Py.get "error" d = Some err ->
  (bake_recipe ops url input_data recipe log).1
  = inr {| ok := false; output := None; type := None;
           errors := [UpstreamError (py_str err)]; warnings := [] |}.
Proof.
  intros Hne Hall Hpost Hv He. unfold bake_recipe, _validate_recipe.
  destruct recipe as [|s0 recipe]; [done|]. cbn [Py.nonempty negb].
  rewrite (validate_from_all_valid 0 _ _ Hall). cbn [Py.nonempty].
  unfold bind, create_api_request. rewrite Hpost.
  unfold read_response. rewrite Hv, He. by destruct (Py.get "type" d).
Qed.

End BakeFacts.

Definition url_safe_step : RawStep := step "To Base64" [("Alphabet", JStr "url-safe")].

Definition url_safe_op : RecipeOp :=
  {| op := "To Base64"; args := [("Alphabet", JStr "URL safe: A-Za-z0-9-_")] |}.

Example validate_url_safe_step : validate_step base64_catalog url_safe_step = inr url_safe_op.
Proof. vm_compute. reflexivity. Qed.

Lemma validated_step_keeps_shape_witness :
  s_op url_safe_step = Some (JStr (op url_safe_op))
  /\ (exists a,
        (s_args url_safe_step = None /\ a = [] \/ s_args url_safe_step = Some (JObj a))
        /\ Py.keys (args url_safe_op) = Py.keys a
        /\ args url_safe_op
           = map (fun kv => (kv.1, _normalize_enum base64_catalog (op url_safe_op) kv.1 kv.2)) a)
  /\ exists d,
       Py.get (op url_safe_op) (load_definitions base64_catalog) = Some d
       /\ validate_args d (args url_safe_op) = inr (args url_safe_op).
Proof.
  apply (validated_step_keeps_shape base64_catalog url_safe_step url_safe_op).
  vm_compute. reflexivity.
Defined.

Definition ok_upstream (body : json) : Requests := constant_upstream (PostResponse 200 (Some body)).

Lemma bake_recipe_sends_validated_recipe_witness :
  (bake_recipe (requests := server_error) base64_catalog api_url "SGVsbG8="
     [url_safe_step; step "From Base64" []] []).2
  = [] ++ [(api_url +:+ "bake",
            JObj [("input", JStr "SGVsbG8=");
                  ("recipe",
                   JList (map model_dump
                            [url_safe_op; {| op := "From Base64"; args := [] |}]))])]
  /\ length [url_safe_op; {| op := "From Base64"; args := [] |}]
     = length [url_safe_step; step "From Base64" []].
Proof.
  apply (bake_recipe_sends_validated_recipe (requests := server_error)
           base64_catalog api_url "SGVsbG8=" [url_safe_step; step "From Base64" []]
           [url_safe_op; {| op := "From Base64"; args := [] |}] []).
  - discriminate.
  - repeat constructor; vm_compute; reflexivity.
Defined.

Lemma batch_bake_rejects_invalid_recipe_witness :
  batch_bake_recipe (requests := server_error) base64_catalog api_url
    ["SGVsbG8="; "V29ybGQ="] misspelt_recipe []
  = (inr [{| ok := false; output := None; type := None;
             errors := omap id (imap (step_outcome base64_catalog) misspelt_recipe);
             warnings := [] |}], [])
  /\ omap id (imap (step_outcome base64_catalog) misspelt_recipe) <> []
  /\ forall i step e,
       misspelt_recipe !! i = Some step -> validate_step base64_catalog step = inl e ->
       exists msg,
         step_error base64_catalog i step e = inr msg
         /\ StepInvalid msg ∈ omap id (imap (step_outcome base64_catalog) misspelt_recipe).
Proof.
  apply (batch_bake_rejects_invalid_recipe (requests := server_error)
           base64_catalog api_url ["SGVsbG8="; "V29ybGQ="] misspelt_recipe []).
  - repeat constructor.
  - exists (step "To Base65" [("Alphabet", JStr "url-safe")]).
    eexists. split; [|vm_compute; reflexivity].
    apply list_elem_of_In. simpl. auto.
Defined.

(** With a step whose [op] is a number the same call raises. *)
Example batch_bake_numbered_recipe :
  batch_bake_recipe (requests := server_error) base64_catalog api_url
    ["SGVsbG8="; "V29ybGQ="] numbered_recipe []
  = (inl TypeError, []).
Proof. vm_compute. reflexivity. Qed.

Lemma bake_recipe_reports_upstream_error_witness :
  (bake_recipe (requests := ok_upstream (JObj [("error", JStr "Invalid base64")]))
     base64_catalog api_url "###" [step "From Base64" []] []).1
  = inr {| ok := false; output := None; type := None;
           errors := [UpstreamError (py_str (JStr "Invalid base64"))]; warnings := [] |}.
Proof.
  apply (bake_recipe_reports_upstream_error
           (requests := ok_upstream (JObj [("error", JStr "Invalid base64")]))
           base64_catalog api_url "###" [step "From Base64" []]
           [{| op := "From Base64"; args := [] |}] []
           [("error", JStr "Invalid base64")] (JStr "Invalid base64")).
  - discriminate.
  - repeat constructor; vm_compute; reflexivity.
  - reflexivity.
  - reflexivity.
  - reflexivity.
Defined.

(** ** Search: what an item can hold *)

Lemma Qltb_true a b : Py.Qltb a b = true <-> (a < b)%Q.
Proof.
  unfold Py.Qltb. rewrite negb_true_iff. split.
  - intros H. apply Qnot_le_lt. intros Hle. apply Qle_bool_iff in Hle. congruence.
  - intros H. destruct (Qle_bool b a) eqn:E; [|done].
    apply Qle_bool_iff in E. by apply Qlt_not_le in H.
Qed.

Lemma Qltb_false a b : Py.Qltb a b = false <-> (b <= a)%Q.
Proof. unfold Py.Qltb. rewrite negb_false_iff. apply Qle_bool_iff. Qed.

Lemma Qclamp_range lo hi x : (lo <= hi)%Q -> (lo <= Qclamp lo hi x <= hi)%Q.
Proof.
  intros Hlh. unfold Qclamp.
  destruct (Py.Qltb x hi) eqn:E1.
  - apply Qltb_true in E1. destruct (Py.Qltb lo x) eqn:E2.
    + apply Qltb_true in E2. split; by apply Qlt_le_weak.
    + split; [apply Qle_refl | done].
  - destruct (Py.Qltb lo hi) eqn:E2.
    + split; [done | apply Qle_refl].
    + split; [apply Qle_refl | done].
Qed.

Lemma score_range {float64 : Float64} {fuzz : RapidFuzz} (q name desc : string) :
  (0 <= _score_op q name desc <= 100)%Q
  /\ 0 <= Py.int_of_float (_score_op q name desc) <= 100.
Proof.
  assert (0 <= _score_op q name desc <= 100)%Q as H
      by (apply Qclamp_range; done).
  split; [done|]. destruct H as [H0 H100].
  unfold Py.int_of_float. destruct (_score_op q name desc) as [n d].
  unfold Qle in *. simpl in *.
  split.
  - apply Z.quot_pos; lia.
  - apply Z.quot_le_upper_bound; lia.
Qed.

(** X16.  Whatever the scorers return, [_score_op] lies between 0 and 100,
    and so does the integer score of an item. *)
Theorem score_op_range {float64 : Float64} {fuzz : RapidFuzz} (q name desc : string) :
  (0 <= _score_op q name desc <= 100)%Q
  /\ 0 <= Py.int_of_float (_score_op q name desc) <= 100.
Proof. apply score_range. Qed.

Lemma prefix_elem {A} (l1 l2 : list A) x : l1 `prefix_of` l2 -> x ∈ l1 -> x ∈ l2.
Proof. intros [k ->] H. apply elem_of_app. by left. Qed.

(** A summary has at most [MAX_DESC_LEN] characters. *)
Lemma summary_of_len r : (Py.len (summary_of r) <= MAX_DESC_LEN)%nat.
Proof.
  unfold summary_of. destruct (MAX_DESC_LEN <? _)%nat eqn:El.
  - etrans; [apply len_app_le|].
    pose proof (len_str_take (MAX_DESC_LEN - 1)
                  (Py.strip (default "" (r_description r)))) as H.
    change (Py.len ellipsis) with 1%nat. unfold MAX_DESC_LEN in *. lia.
  - by apply Nat.ltb_ge in El.
Qed.

Section ItemFacts.
Context {unicode : Unicode} {float64 : Float64} {fuzz : RapidFuzz}.
Context (ops : list (string * RawOp)) (dumps_args : list RawArg -> string).

Lemma make_item_fields q inc name r x :
  make_item q inc name r = Some x ->
  i_name x = name
  /\ 0 <= i_score x <= 100
  /\ (i_category x = None \/ exists c, i_category x = Some c /\ c ∈ CYBERCHEF_ALLOWED_CATEGORIES)
  /\ i_summary x = summary_of r
  /\ i_args x = (if inc then Some (r_args r) else None).
Proof.
  unfold make_item. set (cat := Py.strip (default "" (r_module r))).
  change (Py.nonempty CYBERCHEF_ALLOWED_CATEGORIES) with true. cbn [andb].
  destruct (String.eqb cat "") eqn:Ec; cbn [negb andb].
  - intros [= <-]. simpl. rewrite Ec.
    split; [done|]. split; [apply score_range|]. split; [by left|]. done.
  - destruct (Py.str_in cat CYBERCHEF_ALLOWED_CATEGORIES) eqn:Ein; cbn [negb]; [|done].
    intros [= <-]. simpl. rewrite Ec.
    split; [done|]. split; [apply score_range|].
    split; [right; eexists; split; [done | by apply str_in_spec]|]. done.
Qed.

(** X17.  Every item of a search response bears the name of a catalog
    operation, a score between 0 and 100, no category or one of the allowed
    categories, and the argument list of the operation exactly when
    [include_args] is set.  Its summary is the trimmed description of the
    operation when that has at most 240 characters, and otherwise the first
    239 characters of it followed by the ellipsis: 240 characters at
    most. *)
Theorem search_item_fields (query : string) (limit : LimitArg) (inc : bool) :
  exists out,
    search_operations ops dumps_args query limit inc = inr out
    /\ so_total out = length (so_items out)
    /\ forall x, x ∈ so_items out ->
         i_name x ∈ Py.keys ops
         /\ 0 <= i_score x <= 100
         /\ (i_category x = None
             \/ exists c, i_category x = Some c /\ c ∈ CYBERCHEF_ALLOWED_CATEGORIES)
         /\ (is_Some (i_args x) <-> inc = true)
         /\ (Py.len (i_summary x) <= MAX_DESC_LEN)%nat
         /\ exists r,
              Py.get (i_name x) ops = Some r
              /\ i_args x = (if inc then Some (r_args r) else None)
              /\ i_summary x = summary_of r
              /\ let desc := Py.strip (default "" (r_description r)) in
                 if (MAX_DESC_LEN <? Py.len desc)%nat
                 then i_summary x = Py.str_take (MAX_DESC_LEN - 1) desc +:+ ellipsis
                      /\ exists rest, desc = Py.str_take (MAX_DESC_LEN - 1) desc +:+ rest
                 else i_summary x = desc.
Proof.
  eexists. split; [by apply search_operations_eq, ranked_items_eq|]. simpl.
  split; [done|]. intros x Hx.
  match goal with Hx : _ ∈ (govern _ ?r).1 |- _ =>
    destruct (govern_spec dumps_args r) as (Hp & _);
    pose proof (prefix_elem _ _ _ Hp Hx) as Hin end.
  apply elem_of_take in Hin as (j & Hin%list_elem_of_lookup_2 & _).
  rewrite sorted_perm in Hin.
  apply list_elem_of_omap in Hin as (i & _ & Hi).
  pose proof (item_at_name _ _ _ _ _ Hi) as Hname.
  apply list_elem_of_lookup_2 in Hname.
  unfold item_at in Hi. destruct (Py.keys ops !! i) as [name|]; [|done].
  destruct (Py.get name ops) as [r|] eqn:Hr; [|done].
  destruct (make_item_fields _ _ _ _ _ Hi) as (Hn & Hs & Hc & Hl & Ha).
  split; [done|]. split; [done|]. split; [done|].
  split; [rewrite Ha; destruct inc; split; eauto; done|].
  split; [rewrite Hl; apply summary_of_len|].
  exists r. rewrite Hn. split; [done|]. split; [done|]. split; [done|].
  rewrite Hl. unfold summary_of. cbn zeta.
  destruct (MAX_DESC_LEN <? _)%nat; [|done].
  split; [done | apply str_take_prefix].
Qed.

(** X18.  The size governor never empties a response: when the ranked list
    holds an item, so does the response, and its first item is the first of
    the ranked list. *)
Theorem search_keeps_best_item (query : string) (limit : LimitArg) (inc : bool)
  (best : Item) (others : list Item) :
  ranked_items ops query limit inc = inr (best :: others) ->
  exists out rest,
    search_operations ops dumps_args query limit inc = inr out
    /\ so_items out = best :: rest
    /\ rest `prefix_of` others.
Proof.
  intros Hr. rewrite (search_operations_eq _ _ _ _ _ _ Hr).
  destruct (govern_spec dumps_args (best :: others)) as (Hp & _).
  assert ((govern dumps_args (best :: others)).1 <> []) as Hne.
  { unfold govern. destruct (_ <? _)%nat; cbn [fst]; [|done].
    by apply pop_while_nonempty. }
  destruct ((govern dumps_args (best :: others)).1) as [|y rest] eqn:E; [done|].
  pose proof (prefix_cons_inv_1 _ _ _ _ Hp) as ->.
  apply prefix_cons_inv_2 in Hp.
  eexists _, rest. split; [reflexivity|]. simpl. done.
Qed.

End ItemFacts.

Definition empty_item : Item :=
  {| i_name := ""; i_summary := ""; i_category := None; i_score := 0;
     i_inputType := None; i_outputType := None; i_args := None |}.

(** The ranked list of the query [base64] on [base64_catalog], computed. *)
Definition base64_ranked : list Item :=
  Eval vm_compute in
    match ranked_items base64_catalog "base64" (LimitInt 3) false with
    | inr l => l
    | inl _ => []
    end.

Lemma search_keeps_best_item_witness :
  exists out rest,
    search_operations base64_catalog dumps_enum_args "base64" (LimitInt 3) false = inr out
    /\ so_items out = hd empty_item base64_ranked :: rest
    /\ rest `prefix_of` tl base64_ranked.
Proof.
  apply (search_keeps_best_item base64_catalog dumps_enum_args "base64" (LimitInt 3) false
           (hd empty_item base64_ranked) (tl base64_ranked)).
  vm_compute. reflexivity.
Defined.

(** ** The advisory pass: when it says [ok], and what it returns *)

Section AdvisoryFacts.
Context {unicode : Unicode} {float64 : Float64} {fuzz : RapidFuzz}.
Context (ops : list (string * RawOp)).

(** A step the advisory pass has nothing to say about: its name, trimmed,
    is an operation of the catalog, and its argument keys are the declared
    names. *)
Definition step_clean (s : RecipeOp) : Prop :=
  Py.strip (op s) <> ""
  /\ Py.strip (op s) ∈ Py.keys ops
  /\ forall k, k ∈ Py.keys (args s) <-> k ∈ map ra_name (op_args ops (Py.strip (op s))).

(** The test that sends a step to [normalized]. *)
Definition known_step (s : RecipeOp) : bool :=
  negb (String.eqb (Py.strip (op s)) "") && Py.contains (Py.strip (op s)) ops.

Lemma contains_spec {V} k (d : list (string * V)) : Py.contains k d = true <-> k ∈ Py.keys d.
Proof.
  unfold Py.contains. rewrite <- get_is_Some_keys.
  destruct (Py.get k d); split; eauto; done.
Qed.

Lemma filter_negb_in_nil (l1 l2 : list string) :
  filter (fun k => negb (Py.str_in k l2)) l1 = [] <-> forall k, k ∈ l1 -> k ∈ l2.
Proof.
  induction l1 as [|x l1 IH].
  - split; [by intros _ k ?%elem_of_nil | done].
  - destruct (Py.str_in x l2) eqn:E.
    + rewrite filter_cons_False by (rewrite E; simpl; auto). rewrite IH.
      apply str_in_spec in E. split.
      * intros H k [->|Hk]%elem_of_cons; auto.
      * intros H k Hk. apply H. by right.
    + rewrite filter_cons_True by (rewrite E; simpl; auto). split; [done|].
      intros H. assert (x ∈ l2) as Hx by (apply H; left).
      apply str_in_spec in Hx. congruence.
Qed.

Lemma advise_step_clean i s :
  (advise_step ops i s).1 = ([], []) <-> step_clean s.
Proof.
  unfold advise_step, step_clean.
  destruct (String.eqb (Py.strip (op s)) "") eqn:En.
  { apply String.eqb_eq in En. split; [done | by intros [? _]]. }
  apply String.eqb_neq in En.
  destruct (Py.contains (Py.strip (op s)) ops) eqn:Ec; simpl.
  - apply contains_spec in Ec.
    set (expected := map ra_name (op_args ops (Py.strip (op s)))).
    set (got := Py.keys (args s)).
    pose proof (filter_negb_in_nil got expected) as Hu.
    pose proof (filter_negb_in_nil expected got) as Hm.
    destruct (filter (fun k => negb (Py.str_in k expected)) got) as [|u us];
      destruct (filter (fun k => negb (Py.str_in k got)) expected) as [|m ms]; simpl.
    + split; [|done]. intros _. split; [done|]. split; [done|].
      intros k. split; [apply Hu | apply Hm]; done.
    + split; [done|]. intros (_ & _ & H). destruct Hm as [_ Hm].
      discriminate Hm. intros k. apply H.
    + split; [done|]. intros (_ & _ & H). destruct Hu as [_ Hu].
      discriminate Hu. intros k. apply H.
    + split; [done|]. intros (_ & _ & H). destruct Hu as [_ Hu].
      discriminate Hu. intros k. apply H.
  - split; [done|]. intros (_ & Hk & _). apply contains_spec in Hk. congruence.
Qed.

Lemma advise_step_normalized i s :
  (advise_step ops i s).2 = if known_step s then [s] else [].
Proof.
  unfold advise_step, known_step.
  destruct (String.eqb (Py.strip (op s)) ""); [done|].
  by destruct (Py.contains (Py.strip (op s)) ops).
Qed.

Lemma advise_from_clean i recipe :
  (advise_from ops i recipe).1 = ([], []) <-> Forall step_clean recipe.
Proof.
  revert i. induction recipe as [|s recipe IH]; intros i; [done|].
  cbn [advise_from]. specialize (IH (S i)).
  pose proof (advise_step_clean i s) as Hs.
  destruct (advise_step ops i s) as [[e sg] n].
  destruct (advise_from ops (S i) recipe) as [[es ss] ns]. simpl in *.
  rewrite Forall_cons, <- Hs, <- IH. split.
  - intros [= [-> ->]%app_eq_nil [-> ->]%app_eq_nil]. done.
  - intros [[= -> ->] [= -> ->]]. done.
Qed.

Lemma advise_from_normalized i recipe :
  (advise_from ops i recipe).2 = List.filter known_step recipe.
Proof.
  revert i. induction recipe as [|s recipe IH]; intros i; [done|].
  cbn [advise_from List.filter]. specialize (IH (S i)).
  pose proof (advise_step_normalized i s) as Hs.
  destruct (advise_step ops i s) as [[e sg] n].
  destruct (advise_from ops (S i) recipe) as [[es ss] ns]. simpl in *.
  rewrite Hs, IH. by destruct (known_step s).
Qed.

Lemma validate_recipe_ok_clean (recipe : list RecipeOp) :
  vr_ok (validate_recipe ops recipe) = true <-> Forall step_clean recipe.
Proof.
  rewrite <- (advise_from_clean 0). unfold validate_recipe.
  destruct (advise_from ops 0 recipe) as [[errors suggestions] normalized]. simpl.
  destruct errors, suggestions; simpl; split; try done; by intros [=].
Qed.

(** X19.  [validate_recipe] answers [ok] exactly when every step names,
    up to surrounding white space, an operation of the catalog and carries
    exactly the declared argument keys; the values are not looked at. *)
Theorem validate_recipe_ok_iff (recipe : list RecipeOp) :
  vr_ok (validate_recipe ops recipe) = true <-> Forall step_clean recipe.
Proof. apply validate_recipe_ok_clean. Qed.

(** X20.  [normalized] holds, unchanged and in order, exactly the steps
    whose trimmed name is an operation of the catalog, whatever their
    arguments: a suggestion does not remove a step. *)
Theorem validate_recipe_normalized (recipe : list RecipeOp) :
  vr_normalized (validate_recipe ops recipe) = List.filter known_step recipe.
Proof.
  rewrite <- (advise_from_normalized 0). unfold validate_recipe.
  by destruct (advise_from ops 0 recipe) as [[errors suggestions] normalized].
Qed.

Lemma advise_step_suggestions i s sg :
  sg ∈ (advise_step ops i s).1.2 ->
  index sg = i /\ sg_op sg = Py.strip (op s)
  /\ match candidates sg with
     | Some c =>
         (Py.strip (op s) ∉ Py.keys ops) /\ missingArgs sg = None
         /\ (length c <= 5)%nat /\ forall n, n ∈ c -> n ∈ Py.keys ops
     | None =>
         Py.strip (op s) ∈ Py.keys ops
         /\ match missingArgs sg with
            | Some m =>
                m <> [] /\ forall k, k ∈ m <->
                  k ∈ map ra_name (op_args ops (Py.strip (op s))) /\ k ∉ Py.keys (args s)
            | None => exists k, k ∈ Py.keys (args s)
                                /\ k ∉ map ra_name (op_args ops (Py.strip (op s)))
            end
     end.
Proof.
  unfold advise_step.
  destruct (String.eqb (Py.strip (op s)) ""); [by intros ?%elem_of_nil|].
  destruct (Py.contains (Py.strip (op s)) ops) eqn:Ec; simpl.
  - apply contains_spec in Ec.
    set (expected := map ra_name (op_args ops (Py.strip (op s)))).
    set (got := Py.keys (args s)).
    assert (forall (l1 l2 : list string) k, k ∈ filter (fun k => negb (Py.str_in k l2)) l1
              <-> k ∈ l1 /\ k ∉ l2) as Hf.
    { intros l1 l2 k. rewrite list_elem_of_filter.
      destruct (Py.str_in k l2) eqn:E; simpl.
      - apply str_in_spec in E. split; [by intros [[] _] | by intros [_ []]].
      - split; intros [H1 H2]; split; try done.
        intros H%str_in_spec. congruence. }
    intros [Hsg|Hsg]%elem_of_app.
    + destruct (filter (fun k => negb (Py.str_in k expected)) got) as [|u us] eqn:Eu;
        [by apply elem_of_nil in Hsg|].
      apply list_elem_of_singleton in Hsg as ->. simpl.
      split; [done|]. split; [done|]. split; [done|].
      exists u. apply Hf. rewrite Eu. left.
    + destruct (filter (fun k => negb (Py.str_in k got)) expected) as [|m ms] eqn:Em;
        [by apply elem_of_nil in Hsg|].
      apply list_elem_of_singleton in Hsg as ->. simpl.
      split; [done|]. split; [done|]. split; [done|]. split; [done|].
      intros k. rewrite <- Em. apply Hf.
  - intros ->%list_elem_of_singleton. simpl.
    split; [done|]. split; [done|]. split.
    { intros H%contains_spec. congruence. }
    split; [done|]. rewrite length_map. split; [apply extract_limit|].
    intros n Hn. apply list_elem_of_fmap in Hn as ([[c sc] j] & -> & Hn).
    apply list_elem_of_In, extract_choice in Hn. simpl.
    by eapply list_elem_of_lookup_2.
Qed.

(** X21.  Every suggestion is of one of three kinds: for an unknown
    operation, at most five candidate names, all of the catalog; for a known
    operation with undeclared argument keys, an entry that names neither
    candidates nor arguments (the offending keys are not reported); for a
    known operation with declared arguments left out, exactly those
    argument names. *)
Theorem validate_recipe_suggestions (recipe : list RecipeOp) (sg : SuggestionItem) :
  sg ∈ vr_suggestions (validate_recipe ops recipe) ->
  exists s,
    recipe !! index sg = Some s /\ sg_op sg = Py.strip (op s)
    /\ match candidates sg with
       | Some c =>
           (Py.strip (op s) ∉ Py.keys ops) /\ missingArgs sg = None
           /\ (length c <= 5)%nat /\ forall n, n ∈ c -> n ∈ Py.keys ops
       | None =>
           Py.strip (op s) ∈ Py.keys ops
           /\ match missingArgs sg with
              | Some m =>
                  m <> [] /\ forall k, k ∈ m <->
                    k ∈ map ra_name (op_args ops (Py.strip (op s))) /\ k ∉ Py.keys (args s)
              | None => exists k, k ∈ Py.keys (args s)
                                  /\ k ∉ map ra_name (op_args ops (Py.strip (op s)))
              end
       end.
Proof.
  unfold validate_recipe.
  assert (forall i, sg ∈ (advise_from ops i recipe).1.2 ->
            exists s j, recipe !! j = Some s /\ index sg = (i + j)%nat
                        /\ sg ∈ (advise_step ops (i + j) s).1.2) as H.
  { induction recipe as [|s recipe IH]; intros i; [by intros ?%elem_of_nil|].
    cbn [advise_from]. specialize (IH (S i)).
    destruct (advise_step ops i s) as [[e sgs] n] eqn:Es.
    destruct (advise_from ops (S i) recipe) as [[es ss] ns]. simpl in *.
    intros [Hsg|Hsg]%elem_of_app.
    - exists s, 0%nat. rewrite Nat.add_0_r, Es. simpl. split; [done|]. split; [|done].
      pose proof (advise_step_suggestions i s sg) as Hx. rewrite Es in Hx.
      by destruct (Hx Hsg).
    - destruct (IH Hsg) as (s' & j & Hj & Hi & Hin).
      exists s', (S j). replace (i + S j)%nat with (S i + j)%nat by lia. done. }
  specialize (H 0%nat).
  destruct (advise_from ops 0 recipe) as [[errors suggestions] normalized]. simpl in *.
  intros Hsg. destruct (H Hsg) as (s & j & Hj & Hi & Hin). simpl in Hi. subst j.
  exists s. split; [done|].
  by destruct (advise_step_suggestions _ _ _ Hin) as (_ & ? & ?).
Qed.

End AdvisoryFacts.

Definition missing_alphabet : SuggestionItem :=
  {| index := 2; sg_op := "To Base64"; candidates := None;
     missingArgs := Some ["Alphabet"] |}.

Lemma validate_recipe_suggestions_witness :
  exists s,
    malformed_recipe !! index missing_alphabet = Some s
    /\ sg_op missing_alphabet = Py.strip (op s)
    /\ match candidates missing_alphabet with
       | Some c =>
           (Py.strip (op s) ∉ Py.keys base64_catalog) /\ missingArgs missing_alphabet = None
           /\ (length c <= 5)%nat /\ forall n, n ∈ c -> n ∈ Py.keys base64_catalog
       | None =>
           Py.strip (op s) ∈ Py.keys base64_catalog
           /\ match missingArgs missing_alphabet with
              | Some m =>
                  m <> [] /\ forall k, k ∈ m <->
                    k ∈ map ra_name (op_args base64_catalog (Py.strip (op s)))
                    /\ k ∉ Py.keys (args s)
              | None => exists k, k ∈ Py.keys (args s)
                                  /\ k ∉ map ra_name (op_args base64_catalog (Py.strip (op s)))
              end
       end.
Proof.
  apply (validate_recipe_suggestions base64_catalog malformed_recipe missing_alphabet).
  apply list_elem_of_In. vm_compute. auto.
Defined.

(** ** [cyberchef_probe] *)

Record ProbeOut := {
  p_ok : bool;
  p_output : option string;
  p_recipe : option (list RecipeOp);
  p_error : option string;
}.

(** The candidate pipelines [probes], in the order they are tried. *)
Definition probes : list (list RecipeOp) :=
  [[{| op := "From Base64"; args := [] |}; {| op := "Gunzip"; args := [] |}];
   [{| op := "From Base64"; args := [] |}];
   [{| op := "From Hex"; args := [] |}; {| op := "Gunzip"; args := [] |}];
   [{| op := "From Hex"; args := [] |}];
   [{| op := "From Binary";
       args := [("Delimiter", JStr "Space"); ("Byte Length", JInt 8)] |}]].

(** [c < 9 or (13 < c < 32) or c == 127] *)
Definition is_control (c : ascii) : bool :=
  let n := Py.ord c in
  (n <? 9)%nat || ((13 <? n)%nat && (n <? 32)%nat) || (n =? 127)%nat.

Fixpoint count_chars (p : ascii -> bool) (s : string) : nat :=
  match s with
  | EmptyString => 0
  | String c r => (if p c then 1 else 0) + count_chars p r
  end.

(** [_looks_textlike], on the bytes of the output. *)
Definition _looks_textlike (b : string) : bool :=
  if String.eqb b "" then false
  else
    let bad := count_chars is_control b in
    Py.Qltb (Z.of_nat bad # Pos.of_nat (String.length b)) (5 # 100).

(** A probe as the dictionaries handed to [bake_recipe]. *)
Definition probe_steps (r : list RecipeOp) : list RawStep :=
  map (fun x => {| s_op := Some (JStr (op x)); s_args := Some (JObj (args x)) |}) r.

Section Probe.
Context {unicode : Unicode} {float64 : Float64} {fuzz : RapidFuzz}.
Context {requests : Requests} {builtins : Builtins}.
Context (ops : list (string * RawOp)) (url : string).

(** The test on the answer of one probe. *)
Definition probe_accepts (res : BakeRecipeResponse) : bool :=
  ok res
  && match output res with
     | Some out => negb (String.eqb out "") && _looks_textlike out
     | None => false
     end.

(** The loop [for r in probes]. *)
Fixpoint probe_loop (raw_input : string) (rs : list (list RecipeOp)) : IO ProbeOut :=
  match rs with
  | [] =>
      ret {| p_ok := false; p_output := None; p_recipe := None;
             p_error := Some "no simple probe succeeded" |}
  | r :: rest =>
      bind (bake_recipe ops url raw_input (probe_steps r)) (fun res =>
        if probe_accepts res
        then ret {| p_ok := true; p_output := output res; p_recipe := Some r;
                    p_error := None |}
        else probe_loop raw_input rest)
  end.

(** [cyberchef_probe] *)
Definition cyberchef_probe (raw_input : string) : IO ProbeOut :=
  probe_loop raw_input probes.

(** Every call of [bake_recipe] adds at most one request, to [bake], that
    carries its input. *)
Lemma bake_recipe_log input_data recipe log :
  exists calls,
    (bake_recipe ops url input_data recipe log).2 = log ++ calls
    /\ (length calls <= 1)%nat
    /\ forall c, c ∈ calls ->
         exists steps,
           c = (url +:+ "bake",
                JObj [("input", JStr input_data); ("recipe", JList steps)]).
Proof.
  unfold bake_recipe. destruct (negb (Py.nonempty recipe)).
  { exists []. rewrite app_nil_r. split; [done|]. split; [simpl; lia|].
    by intros c ?%elem_of_nil. }
  destruct (_validate_recipe ops recipe) as [exn|[[errors validated] warnings]].
  { exists []. rewrite app_nil_r. split; [done|]. split; [simpl; lia|].
    by intros c ?%elem_of_nil. }
  destruct (Py.nonempty errors).
  { exists []. rewrite app_nil_r. split; [done|]. split; [simpl; lia|].
    by intros c ?%elem_of_nil. }
  eexists [_]. split; [|split; [simpl; lia|]].
  - rewrite bind_log; [apply create_api_request_log|].
    intros a log'. by destruct (read_response a warnings).
  - intros c ->%list_elem_of_singleton. eauto.
Qed.

Lemma probe_loop_spec raw_input rs log :
  (exists calls,
     (probe_loop raw_input rs log).2 = log ++ calls
     /\ (length calls <= length rs)%nat
     /\ forall c, c ∈ calls ->
          exists steps,
            c = (url +:+ "bake",
                 JObj [("input", JStr raw_input); ("recipe", JList steps)]))
  /\ forall p, (probe_loop raw_input rs log).1 = inr p ->
       if p_ok p
       then exists r out,
              r ∈ rs /\ p_recipe p = Some r /\ p_output p = Some out
              /\ out <> "" /\ _looks_textlike out = true
       else p_output p = None /\ p_recipe p = None
            /\ p_error p = Some "no simple probe succeeded".
Proof.
  revert log. induction rs as [|r rs IH]; intros log.
  { simpl. split.
    - exists []. rewrite app_nil_r. split; [done|]. split; [done|].
      by intros c ?%elem_of_nil.
    - intros p [= <-]. done. }
  cbn [probe_loop]. unfold bind.
  destruct (bake_recipe_log raw_input (probe_steps r) log) as (c1 & Hlog & Hlen & Hc1).
  destruct (bake_recipe ops url raw_input (probe_steps r) log) as [[e|res] log1] eqn:Eb;
    simpl in Hlog; subst log1.
  { split; [|done]. exists c1. simpl. split; [done|]. split; [lia | done]. }
  destruct (probe_accepts res) eqn:Ea.
  - split.
    + exists c1. simpl. split; [done|]. split; [lia | done].
    + intros p [= <-]. simpl. unfold probe_accepts in Ea.
      apply andb_true_iff in Ea as [_ Ea].
      destruct (output res) as [out|]; [|done].
      apply andb_true_iff in Ea as [Hne Ht].
      exists r, out. split; [left|]. split; [done|]. split; [done|]. split; [|done].
      intros ->. done.
  - destruct (IH (log ++ c1)) as ((c2 & Hl2 & Hlen2 & Hc2) & Hres). split.
    + exists (c1 ++ c2). rewrite Hl2, app_assoc. split; [done|].
      split; [rewrite length_app; simpl; lia|].
      intros c [Hc|Hc]%elem_of_app; auto.
    + intros p Hp. specialize (Hres p Hp). destruct (p_ok p); [|done].
      destruct Hres as (r' & out & Hr' & Hrest). exists r', out. split; [by right | done].
Qed.

(** X22.  [cyberchef_probe] makes at most five upstream calls, all to
    [bake] with the raw input; an answer with [ok = true] names one of the
    five pipelines and an output that is not empty and looks like text; an
    answer with [ok = false] carries the fixed error and nothing else. *)
Theorem cyberchef_probe_spec (raw_input : string) (log : list (string * json)) :
  (exists calls,
     (cyberchef_probe raw_input log).2 = log ++ calls
     /\ (length calls <= 5)%nat
     /\ forall c, c ∈ calls ->
          exists steps,
            c = (url +:+ "bake",
                 JObj [("input", JStr raw_input); ("recipe", JList steps)]))
  /\ forall p, (cyberchef_probe raw_input log).1 = inr p ->
       if p_ok p
       then exists r out,
              r ∈ probes /\ p_recipe p = Some r /\ p_output p = Some out
              /\ out <> "" /\ _looks_textlike out = true
       else p_output p = None /\ p_recipe p = None
            /\ p_error p = Some "no simple probe succeeded".
Proof. apply (probe_loop_spec raw_input probes log). Qed.

End Probe.

(** X23.  An output looks like text exactly when it is not empty and fewer
    than one byte in twenty is a control character (below 9, from 14 to 31,
    or 127). *)
Theorem looks_textlike_iff (b : string) :
  _looks_textlike b = true <->
  b <> "" /\ (20 * count_chars is_control b < String.length b)%nat.
Proof.
  unfold _looks_textlike. destruct (String.eqb b "") eqn:E.
  { apply String.eqb_eq in E. split; [done | by intros [? _]]. }
  apply String.eqb_neq in E. rewrite Qltb_true. unfold Qlt. simpl.
  assert (Z.pos (Pos.of_nat (String.length b)) = Z.of_nat (String.length b)) as ->.
  { destruct b as [|c b]; [done|]. simpl String.length.
    rewrite <- Pos.of_nat_succ. by rewrite Zpos_P_of_succ_nat, Nat2Z.inj_succ. }
  split; [intros H; split; [done | lia] | intros [_ H]; lia].
Qed.

Example cyberchef_probe_example :
  cyberchef_probe
    (requests := ok_upstream (JObj [("type", JStr "string"); ("value", JStr "Hello World!")]))
    base64_catalog api_url "SGVsbG8gV29ybGQh" []
  = (inr {| p_ok := true; p_output := Some "Hello World!";
            p_recipe := Some [{| op := "From Base64"; args := [] |}]; p_error := None |},
     [("http://localhost:3000/bake",
       JObj [("input", JStr "SGVsbG8gV29ybGQh");
             ("recipe", JList [JObj [("op", JStr "From Base64"); ("args", JObj [])]])])]).
Proof. vm_compute. reflexivity. Qed.

(** ** [_flags] of [cyberchef_pydantic_models.py] *)

(** [_FLAG_MAP.get(ch, 0)], with the values of the flags of [re]:
    [I = 2], [M = 8], [S = 16], [U = 32], [X = 64], [A = 256]. *)
Definition flag_of (ch : ascii) : Z :=
  if Ascii.eqb ch "i" then 2
  else if Ascii.eqb ch "m" then 8
  else if Ascii.eqb ch "s" then 16
  else if Ascii.eqb ch "x" then 64
  else if Ascii.eqb ch "a" then 256
  else if Ascii.eqb ch "u" then 32
  else 0.

(** The loop [for ch in s: f |= _FLAG_MAP.get(ch, 0)] from the value [f]. *)
Fixpoint flags_from (f : Z) (s : string) : Z :=
  match s with
  | EmptyString => f
  | String ch r => flags_from (Z.lor f (flag_of ch)) r
  end.

(** [_flags] *)
Definition _flags (s : string) : Z := flags_from 0 s.

Fixpoint occurs (c : ascii) (s : string) : bool :=
  match s with
  | EmptyString => false
  | String ch r => Ascii.eqb ch c || occurs c r
  end.

(** The letters of [_FLAG_MAP], each with the bit of its flag. *)
Definition flag_bits : list (ascii * Z) :=
  [("i"%char, 1); ("m"%char, 3); ("s"%char, 4); ("u"%char, 5); ("x"%char, 6);
   ("a"%char, 8)].

Lemma flags_from_lor f s : flags_from f s = Z.lor f (_flags s).
Proof.
  unfold _flags. revert f. induction s as [|ch s IH]; intros f; cbn [flags_from].
  - by rewrite Z.lor_0_r.
  - rewrite (IH (Z.lor f (flag_of ch))), (IH (Z.lor 0 (flag_of ch))).
    by rewrite Z.lor_0_l, Z.lor_assoc.
Qed.

Lemma flag_of_bit ch c k :
  (c, k) ∈ flag_bits -> Z.testbit (flag_of ch) k = Ascii.eqb ch c.
Proof.
  intros H. apply list_elem_of_In in H. simpl in H.
  destruct H as [[= <- <-]|[[= <- <-]|[[= <- <-]|[[= <- <-]|[[= <- <-]|[[= <- <-]|[]]]]]]];
    destruct ch as [[] [] [] [] [] [] [] []]; reflexivity.
Qed.

Lemma flag_of_range ch : Z.land (flag_of ch) 378 = flag_of ch.
Proof. destruct ch as [[] [] [] [] [] [] [] []]; reflexivity. Qed.

(** X24.  [_flags] is the bitwise or of the flags of the letters: it maps
    a concatenation to the or of the parts, sets the bit of a flag exactly
    when its letter occurs (so the order and the repetition of letters do
    not matter, and other characters are ignored), and sets no other bit. *)
Theorem flags_spec (s t : string) :
  _flags (s +:+ t) = Z.lor (_flags s) (_flags t)
  /\ (forall c k, (c, k) ∈ flag_bits -> Z.testbit (_flags s) k = occurs c s)
  /\ Z.land (_flags s) 378 = _flags s.
Proof.
  split; [|split].
  - assert (forall f, flags_from f (s +:+ t) = Z.lor (flags_from f s) (_flags t)) as H.
    { induction s as [|ch s IH]; intros f; cbn [String.append flags_from].
      - apply flags_from_lor.
      - apply IH. }
    apply H.
  - intros c k Hck. induction s as [|ch s IH]; [apply Z.testbit_0_l|].
    unfold _flags. cbn [flags_from occurs].
    rewrite flags_from_lor, Z.lor_0_l, Z.lor_spec.
    by rewrite (flag_of_bit _ _ _ Hck), IH.
  - induction s as [|ch s IH]; [done|].
    unfold _flags. cbn [flags_from]. rewrite flags_from_lor, Z.lor_0_l.
    by rewrite Z.land_lor_distr_l, flag_of_range, IH.
Qed.

Example flags_example : _flags "mi?i" = 10 /\ _flags "im" = 10 /\ _flags "xyz" = 64.
Proof. repeat split. Qed.

(** ** The advisory pass against the real validation *)

Section AdvisoryVersusBake.
Context {unicode : Unicode} {float64 : Float64} {fuzz : RapidFuzz}.
Context (ops : list (string * RawOp)).

Lemma load_definitions_keys n :
  NoDup (Py.keys ops) -> n ∈ Py.keys (load_definitions ops) -> n ∈ Py.keys ops.
Proof.
  intros Hnd [d Hd]%get_is_Some_keys. rewrite registry_get in Hd by done.
  apply get_is_Some_keys. destruct (Py.get n ops); [eauto | done].
Qed.

(** X25.  An [ok] of the advisory pass is no promise that the recipe
    bakes: a step whose name matches an operation only after trimming is
    clean for [validate_recipe], which looks the trimmed name up, but is
    refused by the validation of [bake_recipe] as an unknown operation. *)
Theorem advisory_ok_yet_refused (s : RecipeOp) :
  NoDup (Py.keys ops) ->
  step_clean ops s ->
  op s ∉ Py.keys ops ->
  vr_ok (validate_recipe ops [s]) = true
  /\ exists allowed,
       validate_step ops {| s_op := Some (JStr (op s)); s_args := Some (JObj (args s)) |}
       = inl [Raised (UnknownOp (op s) allowed)].
Proof.
  intros Hnd Hclean Hop. split.
  - apply validate_recipe_ok_clean. by constructor.
  - eexists. unfold validate_step, validate_against_catalog. simpl.
    destruct (Py.get (op s) (load_definitions ops)) as [d|] eqn:E; [|done].
    destruct Hop. apply load_definitions_keys; [done|].
    apply get_is_Some_keys. eauto.
Qed.

End AdvisoryVersusBake.

Definition padded_step : RecipeOp := {| op := " From Base64 "; args := [] |}.

Lemma advisory_ok_yet_refused_witness :
  vr_ok (validate_recipe base64_catalog [padded_step]) = true
  /\ exists allowed,
       validate_step base64_catalog
         {| s_op := Some (JStr (op padded_step)); s_args := Some (JObj (args padded_step)) |}
       = inl [Raised (UnknownOp (op padded_step) allowed)].
Proof.
  apply (advisory_ok_yet_refused base64_catalog padded_step).
  - apply (bool_decide_unpack _). vm_compute. reflexivity.
  - split; [vm_compute; discriminate|]. split.
    + apply list_elem_of_In. vm_compute. auto.
    + intros k. vm_compute. split; intros H; apply list_elem_of_In in H; destruct H.
  - intros H. apply list_elem_of_In in H. vm_compute in H.
    destruct H as [H|[H|[]]]; discriminate.
Defined.

(** ** [perform_magic_operation] and the outcomes of [create_api_request] *)

Section Magic.
Context {requests : Requests}.
Context (url : string).

(** The payload of [perform_magic_operation]. *)
Definition magic_request (input_data : string) (depth : Z)
  (intensive_mode extensive_language_support : bool) (crib_str : string) : json :=
  JObj [("input", JStr input_data);
        ("args", JObj [("depth", JInt depth);
                       ("intensive_mode", JBool intensive_mode);
                       ("extensive_language_support", JBool extensive_language_support);
                       ("crib", JStr crib_str)])].

(** [perform_magic_operation] *)
Definition perform_magic_operation (input_data : string) (depth : Z)
  (intensive_mode extensive_language_support : bool) (crib_str : string) : IO json :=
  create_api_request url "magic"
    (magic_request input_data depth intensive_mode extensive_language_support crib_str).

(** X26.  [create_api_request] makes exactly one request, to the base URL
    followed by the endpoint, whatever the outcome; it returns the decoded
    body exactly when the call raised nothing (a status outside 400-599 and
    a JSON body); it returns an [error] object exactly when the exception is
    an [urllib.error.HTTPError]; any other exception leaves the function. *)
Theorem create_api_request_outcomes
  (endpoint : string) (request_data : json) (log : list (string * json)) :
  (create_api_request url endpoint request_data log).2
  = log ++ [(url +:+ endpoint, request_data)]
  /\ (forall j, post_and_decode (url +:+ endpoint) request_data = inr j ->
        (create_api_request url endpoint request_data log).1 = inr j)
  /\ (forall e, post_and_decode (url +:+ endpoint) request_data = inl e ->
        (create_api_request url endpoint request_data log).1
        = if caught_by_HTTPError e
          then inr (JObj [("error",
                  JStr ("Exception raised during HTTP POST request to "
                        +:+ (url +:+ endpoint) +:+ " - " +:+ exn_text e))])
          else inl e)
  /\ (forall status body,
        requests_post (url +:+ endpoint) request_data = PostResponse status body ->
        (exists j, post_and_decode (url +:+ endpoint) request_data = inr j) <->
        (status < 400 \/ 600 <= status) /\ is_Some body).
Proof.
  split; [apply create_api_request_log|]. unfold create_api_request.
  split; [by intros j ->|]. split.
  - intros e ->. by destruct (caught_by_HTTPError e).
  - intros status body Hp. unfold post_and_decode. rewrite Hp.
    destruct ((400 <=? status) && (status <? 600)) eqn:E.
    + apply andb_true_iff in E as [E1%Z.leb_le E2%Z.ltb_lt].
      split; [by intros [j [=]] | intros [? _]; lia].
    + apply andb_false_iff in E.
      assert (status < 400 \/ 600 <= status) as Hs
          by (destruct E as [E%Z.leb_gt|E%Z.ltb_ge]; lia).
      destruct body as [j|]; split; eauto.
      * by intros [j [=]].
      * by intros [_ [j [=]]].
Qed.

End Magic.
